(** * Household load shifting: the scenario engine of [streamlit_app.py]

    A shallow embedding of the computing functions of the application
    ([make_household_profile], [compute_renewable_share],
    [get_day_slice], [run_shift_scenario]) and the properties its
    specification states about them, followed by further properties read
    off the code.

    Numbers.  The program computes with binary64 values (Python [float],
    NumPy [float64]).  They are embedded as the extended rationals
    [float]: a finite value is an exact rational, and the two infinities
    and NaN are values of their own, produced and propagated by the
    arithmetic the way IEEE 754 prescribes (x/0, 0/0, inf-inf, 0*inf).
    Rounding, overflow and underflow of finite results are abstracted: an
    equation between finite values proved here is the equation the
    program satisfies up to rounding error, as long as its run stays
    within the range of binary64.  Signed zeros are identified, so a
    division by zero takes the sign of its infinity from the dividend
    alone.  Where rounding could reverse a comparison of two computed
    figures, the property is stated on the rationals of the inputs
    instead ([mean_at], [weighted_mean], [reduction_factor]).

    Series.  A pandas [Series] is the list of its rows (label, value) in
    storage order; labels (timestamps) are integers.  The label-based
    operations ([.loc], [s[ts] += x]) are embedded for every series; the
    properties below rely on them for distinct labels only, which is what
    the specification asks of an hourly series.  Where a date
    matters ([get_day_slice]) a label counts the hours since an epoch
    midnight, as in the hourly frames the application loads.

    Sorting.  [Series.sort_index] and [Series.sort_values] are library
    calls.  The program calls both with pandas' default [kind], which is
    NumPy's quicksort and is documented as not stable, so the embedding
    takes them as an interface [PandasSort] with the contract pandas
    documents ([PandasSortSpec]): the result is a permutation of the
    rows, ordered by the key, NaN keys last. *)

From Stdlib Require Import String.
From Stdlib Require Import ZArith QArith Qcanon List Bool Lia.
From Stdlib Require Import Permutation Sorted.
From Stdlib Require Import Lqa.
Import ListNotations.

(* ================================================================= *)
(** ** binary64 values *)

Inductive float : Type :=
| Fin (q : Qc)       (* a finite value *)
| Inf (neg : bool)   (* +inf ([false]) and -inf ([true]) *)
| NaN.

Definition Qc_eqb (p q : Qc) : bool :=
match (p ?= q)%Qc with Eq => true | _ => false end.

Definition Qc_ltb (p q : Qc) : bool :=
match (p ?= q)%Qc with Lt => true | _ => false end.

Definition Qc_leb (p q : Qc) : bool :=
match (p ?= q)%Qc with Gt => false | _ => true end.

Definition fzero : float := Fin 0%Qc.
Definition fone : float := Fin 1%Qc.

(** [n / 100], for the two-decimal literals of the source. *)
Definition centi (n : Z) : float := Fin (Q2Qc (n # 100)).

(** An integer and a count as values. *)
Definition of_Z (n : Z) : float := Fin (Q2Qc (inject_Z n)).

Definition of_nat (n : nat) : float := of_Z (Z.of_nat n).

Definition is_nan (x : float) : bool :=
match x with NaN => true | _ => false end.

Definition is_finite (x : float) : bool :=
match x with Fin _ => true | _ => false end.

Definition fopp (x : float) : float :=
match x with
| Fin q => Fin (- q)%Qc
| Inf s => Inf (negb s)
| NaN => NaN
end.

Definition fadd (x y : float) : float :=
match x, y with
| NaN, _ | _, NaN => NaN
| Inf a, Inf b => if Bool.eqb a b then Inf a else NaN
| Inf a, Fin _ => Inf a
| Fin _, Inf b => Inf b
| Fin p, Fin q => Fin (p + q)%Qc
end.

Definition fsub (x y : float) : float := fadd x (fopp y).

Definition fmul (x y : float) : float :=
match x, y with
| NaN, _ | _, NaN => NaN
| Inf a, Inf b => Inf (xorb a b)
| Inf a, Fin q => if Qc_eqb q 0 then NaN else Inf (xorb a (Qc_ltb q 0))
| Fin p, Inf b => if Qc_eqb p 0 then NaN else Inf (xorb (Qc_ltb p 0) b)
| Fin p, Fin q => Fin (p * q)%Qc
end.

(** NumPy division: dividing by zero raises nothing, it yields an
    infinity, or NaN for 0/0. *)
Definition fdiv (x y : float) : float :=
match x, y with
| NaN, _ | _, NaN => NaN
| Inf _, Inf _ => NaN
| Inf a, Fin q => Inf (xorb a (Qc_ltb q 0))
| Fin _, Inf _ => Fin 0%Qc
| Fin p, Fin q =>
    if Qc_eqb q 0
    then (if Qc_eqb p 0 then NaN else Inf (Qc_ltb p 0))
    else Fin (p / q)%Qc
end.

(** [x < y] and [x <= y]; both are false when an operand is NaN. *)
Definition flt (x y : float) : bool :=
match x, y with
| NaN, _ | _, NaN => false
| Inf a, Inf b => a && negb b
| Inf a, Fin _ => a
| Fin _, Inf b => negb b
| Fin p, Fin q => Qc_ltb p q
end.

Definition fle (x y : float) : bool :=
match x, y with
| NaN, _ | _, NaN => false
| Inf a, Inf b => a || negb b
| Inf a, Fin _ => a
| Fin _, Inf b => negb b
| Fin p, Fin q => Qc_leb p q
end.


Declare Scope float_scope.
Delimit Scope float_scope with fl.
Bind Scope float_scope with float.
Infix "+" := fadd : float_scope.
Infix "-" := fsub : float_scope.
Infix "*" := fmul : float_scope.
Infix "/" := fdiv : float_scope.

(** [ndarray.sum()]: NaN and the infinities propagate. *)
Definition np_sum (l : list float) : float := fold_left fadd l fzero.

(** [Series.sum()]: pandas skips NaN ([skipna=True]). *)
Definition series_sum (l : list float) : float :=
np_sum (filter (fun x => negb (is_nan x)) l).

(** [Series.clip(lower, upper)]: a NaN stays a NaN. *)
Definition clip (lower upper x : float) : float :=
if is_nan x then NaN
else if flt x lower then lower
else if flt upper x then upper
else x.

(* ================================================================= *)
(** ** Series, errors, and the pandas operations the program calls *)

Definition label := Z.

(** A [Series]: its rows in storage order. *)
Definition Series := list (label * float).

Definition Series_index (s : Series) : list label := map fst s.
Definition Series_values (s : Series) : list float := map snd s.

(** [pd.Series(values, index=index)]. *)
Definition mkSeries (vals : list float) (idx : list label) : Series :=
combine idx vals.

(** [pd.Series(x, index=index)] for a scalar [x]. *)
Definition constSeries (x : float) (idx : list label) : Series :=
map (fun t => (t, x)) idx.

(** The exceptions [run_shift_scenario] raises, by the place that raises:
    its three [ValueError]s (lines 81, 87 and 107, under the names the
    specification gives them), and what pandas and Python raise from
    line 88 ([.loc] on a missing label) and line 105 (a method call on
    [None]). *)
Inductive error : Type :=
| InvalidSeriesLengthError (got : nat)
| MissingInputError
| InvalidStrategyError
| KeyError
| AttributeError.

Inductive result (A : Type) : Type :=
| Ok (a : A)
| Err (e : error).
Arguments Ok {A} a.
Arguments Err {A} e.

Definition bind {A B} (m : result A) (k : A -> result B) : result B :=
match m with
| Ok a => k a
| Err e => Err e
end.

Notation "x <- m ;; k" := (bind m (fun x => k))
  (at level 61, m at next level, right associativity).

(** The order [sort_values] sorts by: ascending or descending on the
    values, NaN last either way ([na_position='last']). *)
Definition value_order (ascending : bool) (x y : float) : bool :=
if is_nan y then true
else if is_nan x then false
else if ascending then fle x y else fle y x.

Definition row_by_label (a b : label * float) : bool := (fst a <=? fst b)%Z.

Definition row_by_value (ascending : bool) (a b : label * float) : bool :=
value_order ascending (snd a) (snd b).

(** The two sorts of pandas, as the interface the program calls. *)
Class PandasSort : Type := {
  sort_index : Series -> Series;
  sort_values : bool -> Series -> Series
}.

(** What pandas promises of them for the default [kind='quicksort']: the
    rows are permuted into key order.  Nothing is promised about the
    relative order of rows with equal keys. *)
Class PandasSortSpec (srt : PandasSort) : Prop := {
  sort_index_perm : forall s, Permutation (sort_index s) s;
  sort_index_sorted :
    forall s, StronglySorted (fun a b => row_by_label a b = true) (sort_index s);
  sort_values_perm : forall asc s, Permutation (sort_values asc s) s;
  sort_values_sorted :
    forall asc s,
      StronglySorted (fun a b => row_by_value asc a b = true) (sort_values asc s)
}.

(** Insertion sort: an equal key is inserted in front of the rows already
    placed, which come later in the input, so equal keys keep their input
    order (a stable sort). *)
Fixpoint insert {A} (leb : A -> A -> bool) (a : A) (l : list A) : list A :=
match l with
| [] => [a]
| b :: l' => if leb a b then a :: l else b :: insert leb a l'
end.

Fixpoint isort {A} (leb : A -> A -> bool) (l : list A) : list A :=
match l with
| [] => []
| a :: l' => insert leb a (isort leb l')
end.

(** [kind='stable']. *)
Definition stable_kind : PandasSort := {|
  sort_index := isort row_by_label;
  sort_values := fun asc => isort (row_by_value asc)
|}.

(** A sort that meets the contract and is not stable: rows with equal
    keys come out in the reverse of their input order. *)
Definition reversing_kind : PandasSort := {|
  sort_index := fun s => isort row_by_label (rev s);
  sort_values := fun asc s => isort (row_by_value asc) (rev s)
|}.

(** [l[:n]] with Python's reading of a negative bound. *)
Definition slice_to {A} (l : list A) (n : Z) : list A :=
if (0 <=? n)%Z then firstn (Z.to_nat n) l
else firstn (length l - Z.to_nat (- n)) l.

(** [s.loc[idx]]: the rows of [s] carrying each requested label, in the
    order requested (one row per label when the labels of [s] are
    distinct); a label [s] does not carry raises [KeyError]. *)
Fixpoint loc (s : Series) (idx : list label) : result Series :=
match idx with
| [] => Ok []
| t :: idx' =>
    match filter (fun r => (fst r =? t)%Z) s with
    | [] => Err KeyError
    | rows => rest <- loc s idx' ;; Ok (rows ++ rest)
    end
end.

(** [s[ts] += x]: label-based, the row labelled [ts] is updated. *)
Definition add_at (s : Series) (ts : label) (x : float) : Series :=
map (fun r => if (fst r =? ts)%Z then (fst r, (snd r + x)%fl) else r) s.

(** [s * k] for a scalar [k]. *)
Definition scale_series (s : Series) (k : float) : Series :=
map (fun r => (fst r, (snd r * k)%fl)) s.

(** [a + b] for two series on the same index object. *)
Definition add_series (a b : Series) : Series :=
map (fun p => (fst (fst p), (snd (fst p) + snd (snd p))%fl)) (combine a b).

(** [a * b] on arrays. *)
Definition mul_arrays (a b : list float) : list float :=
map (fun p => (fst p * snd p)%fl) (combine a b).

(* ================================================================= *)
(** ** The helper functions of the application *)

Definition HOUSEHOLD_PROFILE_RAW : list float :=
map centi
  [ 25; 23; 22; 22; 25;
    35; 55; 65; 60;
    55; 50; 48; 47; 50; 55;
    60; 75; 110; 120; 105;
    70; 55; 40; 30 ]%Z.

Definition range (n : nat) : list label := map Z.of_nat (seq 0 n).

Definition make_household_profile (daily_kwh : float) : Series :=
let raw := HOUSEHOLD_PROFILE_RAW in
let scale := (daily_kwh / np_sum raw)%fl in
mkSeries (map (fun w => (w * scale)%fl) raw) (range 24).

(** One row of the day's generation-mix frame. *)
Record mix_row : Type := {
  timestamp : label;
  RENEWABLE : float;
  GENERATION : float
}.

Definition compute_renewable_share (df_day : list mix_row) : Series :=
let share := map (fun r => (timestamp r, (RENEWABLE r / GENERATION r)%fl)) df_day in
map (fun r => (fst r, clip fzero fone (snd r))) share.

(** Timestamps are hourly: a label counts the hours since an epoch
    midnight, and a date is a day number.  The date of a timestamp. *)
Definition date_of (ts : label) : Z := (ts / 24)%Z.

(** The 24 timestamps of a date, in order. *)
Definition hours_of_date (date : Z) : list label :=
map (fun h => (24 * date + h)%Z) (range 24).

(** What [get_day_slice] returns, or the [ValueError] of line 62 with the
    two values of its message. *)
Inductive day_slice : Type :=
| DaySlice (day_df : list mix_row)
| ExpectedRowsError (date_str : Z) (got : nat).

(** [df.loc[date_str:date_str]] on a frame kept in timestamp order (the
    application sorts its frames when it loads them): the rows whose
    timestamp falls on the date. *)
Definition loc_date (df : list mix_row) (date_str : Z) : list mix_row :=
filter (fun r => (date_of (timestamp r) =? date_str)%Z) df.

Definition get_day_slice (df : list mix_row) (date_str : Z) : day_slice :=
let day_df := loc_date df date_str in
if negb (length day_df =? 24)%nat
then ExpectedRowsError date_str (length day_df)
else DaySlice day_df.

(** The dictionary [run_shift_scenario] returns. *)
Record ScenarioResult : Type := {
  index : list label;
  ci : list float;
  baseline_load : list float;
  shifted_load : list float;
  baseline_emissions : list float;
  shifted_emissions : list float;
  total_baseline_emissions : float;
  total_shifted_emissions : float;
  relative_reduction : float
}.

Section Engine.

Context {srt : PandasSort}.

(** Lines 85-88: the renewable-share series as the rest of the function
    sees it. *)
Definition align_renewable_share (strategy : string)
    (renewable_share : option Series) (index : list label)
  : result (option Series) :=
if String.eqb strategy "max_renewable" then
  match renewable_share with
  | None => Err MissingInputError
  | Some rs => rs' <- loc rs index ;; Ok (Some (sort_index rs'))
  end
else Ok renewable_share.

(** Lines 100-107: the target hours. *)
Definition choose_target_hours (strategy : string) (ci_series : Series)
    (renewable_share : option Series) (n_target_hours : Z)
  : result (list label) :=
if String.eqb strategy "low_intensity" then
  let sort_key := ci_series in
  Ok (slice_to (Series_index (sort_values true sort_key)) n_target_hours)
else if String.eqb strategy "max_renewable" then
  match renewable_share with
  | Some sort_key =>
      Ok (slice_to (Series_index (sort_values false sort_key)) n_target_hours)
  | None => Err AttributeError
  end
else Err InvalidStrategyError.

(** Lines 110-113: the flexible energy spread over the target hours. *)
Definition allocate_flex (index : list label) (target_hours : list label)
    (total_flex_energy : float) : Series :=
let shifted_flex := constSeries fzero index in
let per_hour := (total_flex_energy / of_nat (length target_hours))%fl in
fold_left (fun sf ts => add_at sf ts per_hour) target_hours shifted_flex.

Definition run_shift_scenario (ci_series : Series) (daily_kwh : float)
    (flexible_share : float) (strategy : string)
    (renewable_share : option Series) (n_target_hours : Z)
  : result ScenarioResult :=
let ci_series := sort_index ci_series in
if negb (length ci_series =? 24)%nat
then Err (InvalidSeriesLengthError (length ci_series))
else
  let index := Series_index ci_series in
  renewable_share <- align_renewable_share strategy renewable_share index ;;
  let base_profile := make_household_profile daily_kwh in
  let baseline_load := mkSeries (Series_values base_profile) index in
  let nonflex_load := scale_series baseline_load (fone - flexible_share) in
  let flex_load := scale_series baseline_load flexible_share in
  let total_flex_energy := series_sum (Series_values flex_load) in
  target_hours <-
    choose_target_hours strategy ci_series renewable_share n_target_hours ;;
  let shifted_flex := allocate_flex index target_hours total_flex_energy in
  let shifted_load := add_series nonflex_load shifted_flex in
  let ci_array := Series_values ci_series in
  let baseline_emissions := mul_arrays (Series_values baseline_load) ci_array in
  let shifted_emissions := mul_arrays (Series_values shifted_load) ci_array in
  let total_baseline_emissions := np_sum baseline_emissions in
  let total_shifted_emissions := np_sum shifted_emissions in
  let relative_reduction :=
    ((total_baseline_emissions - total_shifted_emissions)
     / total_baseline_emissions)%fl in
  Ok {| index := index;
        ci := ci_array;
        baseline_load := Series_values baseline_load;
        shifted_load := Series_values shifted_load;
        baseline_emissions := baseline_emissions;
        shifted_emissions := shifted_emissions;
        total_baseline_emissions := total_baseline_emissions;
        total_shifted_emissions := total_shifted_emissions;
        relative_reduction := relative_reduction |}.

(** The target hours of a run: lines 79-88 and 100-107 of
    [run_shift_scenario], the loads left out. *)
Definition target_hours_of (ci_series : Series) (strategy : string)
    (renewable_share : option Series) (n_target_hours : Z)
  : result (list label) :=
let ci_series := sort_index ci_series in
if negb (length ci_series =? 24)%nat
then Err (InvalidSeriesLengthError (length ci_series))
else
  let index := Series_index ci_series in
  renewable_share <- align_renewable_share strategy renewable_share index ;;
  choose_target_hours strategy ci_series renewable_share n_target_hours.

End Engine.

(* ================================================================= *)
(** ** Vocabulary of the specification and of the proofs *)

(** An Hourly Series of the specification: 24 rows on distinct
    timestamps. *)
Definition hourly_series (s : Series) : Prop :=
length s = 24%nat /\ NoDup (Series_index s).

(** A strategy of the specification together with the renewable-share
    series it needs, given on the timestamps of the day. *)
Definition strategy_inputs (strategy : string)
    (renewable_share : option Series) (ci_series : Series) : Prop :=
strategy = "low_intensity"%string
\/ (strategy = "max_renewable"%string
    /\ exists rs, renewable_share = Some rs
                  /\ NoDup (Series_index rs)
                  /\ incl (Series_index ci_series) (Series_index rs)).

(** The rows of a day in timestamp order. *)
Definition day_order (s : Series) : Series := isort row_by_label s.

(** The series a strategy ranks the hours by, in timestamp order, and the
    direction of the ranking: the carbon intensity, ascending, or the
    renewable share on the timestamps of the day, descending. *)
Definition sort_key (strategy : string) (ci_series : Series)
    (renewable_share : option Series) : option (bool * Series) :=
if String.eqb strategy "low_intensity" then Some (true, day_order ci_series)
else if String.eqb strategy "max_renewable" then
  match renewable_share with
  | Some rs =>
      match loc rs (Series_index (day_order ci_series)) with
      | Ok key => Some (false, key)
      | Err _ => None
      end
  | None => None
  end
else None.

(** The selection in the words of the specification: the first [n] hours
    of a stable sort of the key, so that hours with equal keys are taken
    in timestamp order. *)
Definition spec_target_hours (ascending : bool) (key : Series) (n : nat)
  : list label :=
firstn n (Series_index (isort (row_by_value ascending) key)).

(** [T] lists [n] hours of [key] that rank first: no hour left out ranks
    strictly before a chosen one. *)
Definition selects (ascending : bool) (key : Series) (n : nat)
    (T : list label) : Prop :=
exists chosen rest,
  Permutation (chosen ++ rest) key
  /\ T = Series_index chosen
  /\ length chosen = n
  /\ forall a b, In a chosen -> In b rest -> row_by_value ascending a b = true.

(** [t in l], and [l] without a repeated label. *)
Definition mem (t : label) (l : list label) : bool := existsb (Z.eqb t) l.

Fixpoint distinct (l : list label) : bool :=
match l with
| [] => true
| t :: l' => negb (mem t l') && distinct l'
end.

(** The value the loop of lines 112-113 leaves under the label [t]. *)
Definition flex_at (t : label) (target_hours : list label) (per_hour : float)
  : float :=
fold_left (fun v ts => if (t =? ts)%Z then (v + per_hour)%fl else v)
  target_hours fzero.

(** The sum of a list of rationals. *)
Definition sumQ (l : list Qc) : Qc := fold_right Qcplus 0%Qc l.

(** The raw weights of the profile, as rationals. *)
Definition RAW_Q : list Qc :=
flat_map (fun w => match w with Fin q => [q] | _ => [] end)
  HOUSEHOLD_PROFILE_RAW.

(** The number of hours [index[:n]] keeps of a day of 24, for any integer
    [n]: Python reads a negative bound from the end, and a bound beyond
    the end as the end. *)
Definition effective_target_count (n : Z) : Z :=
if (n <? 0)%Z then Z.max 0 (24 + n) else Z.min n 24.

(** The values of the rows of [s] whose label is listed in [T], summed:
    the carbon intensity (or the renewable share) of a set of hours. *)
Definition total_at (s : Series) (T : list label) : float :=
np_sum (Series_values (filter (fun row => mem (fst row) T) s)).

(** Every value of a list is finite. *)
Definition all_finite (l : list float) : Prop :=
Forall (fun x => is_finite x = true) l.

(** The rational a finite value stands for. *)
Definition qval (x : float) : Qc :=
match x with Fin q => q | _ => 0%Qc end.

(** The values of [s] at the hours listed in [T], summed as the rationals
    they are: a figure of the inputs, which the program does not
    compute. *)
Definition exact_total_at (s : Series) (T : list label) : Qc :=
sumQ (map (fun row => qval (snd row))
        (filter (fun row => mem (fst row) T) s)).

(** The plain mean of the values of [s] over the hours of [T]. *)
Definition mean_at (s : Series) (T : list label) : Qc :=
(exact_total_at s T / Q2Qc (inject_Z (Z.of_nat (length T))))%Qc.

(** The mean of the values of a day [s], given in timestamp order,
    weighted by the raw weights of the household profile: the intensity
    the baseline load meets on average. *)
Definition weighted_mean (s : Series) : Qc :=
(sumQ (map (fun p => fst p * snd p)
         (combine RAW_Q (map qval (Series_values s))))
 / sumQ RAW_Q)%Qc.

(** The share of the flexible load's emissions that moving it to the
    hours of [T] saves. *)
Definition reduction_factor (s : Series) (T : list label) : Qc :=
(1 - mean_at s T / weighted_mean s)%Qc.

(** The ranges of the sliders of the application for [daily_kwh] and
    [flexible_share] (lines 196-211). *)
Definition slider_ranges (d f : Qc) : Prop :=
(Q2Qc 5 <= d /\ d <= Q2Qc 30)%Qc /\ (0 <= f /\ f <= Q2Qc (4 # 5))%Qc.

(** Finite values between two bounds. *)
Definition within (lo hi : Qc) (x : float) : bool :=
fle (Fin lo) x && fle x (Fin hi).

Definition values_within (lo hi : Qc) (l : list float) : Prop :=
Forall (fun x => within lo hi x = true) l.

(* ================================================================= *)
(** ** Sample days *)

(** A day of hourly carbon intensities (gCO2/kWh) with a midday trough:
    the hours 12, 13 and 14 tie for the lowest value. *)
Definition sample_day : Series :=
combine (range 24)
  (map of_Z
     [ 210; 205; 200; 198; 202; 215; 240; 260; 250; 220; 180; 150;
       120; 120; 120; 150; 200; 250; 280; 290; 270; 250; 230; 220 ]%Z).

(** Its renewable shares; the same three hours tie for the highest. *)
Definition sample_share : Series :=
combine (range 24)
  (map centi
     [ 30; 31; 33; 35; 34; 32; 28; 25; 26; 30; 38; 45;
       52; 52; 52; 45; 36; 28; 24; 22; 25; 27; 29; 30 ]%Z).


(** A day whose only clean hour is the hour of the evening peak of the
    load profile: 0 gCO2/kWh at hour 18, 100 at every other hour. *)
Definition evening_trough_day : Series :=
map (fun t => (t, if (t =? 18)%Z then fzero else of_Z 100)) (range 24).

(** A generation-mix frame of 30 hourly rows from the epoch on: the
    whole of date 0 and the first six hours of date 1. *)
Definition sample_mix : list mix_row :=
map (fun t => {| timestamp := t; RENEWABLE := of_Z (30 + t);
                 GENERATION := of_Z 100 |})
  (range 30).

(* ================================================================= *)
(** ** Rational comparisons *)

Lemma Qc_eqb_eq (p q : Qc) : Qc_eqb p q = true <-> p = q.
Proof.
  unfold Qc_eqb. rewrite Qceq_alt. destruct (p ?= q)%Qc; split; congruence.
Qed.

Lemma Qc_eqb_neq (p q : Qc) : Qc_eqb p q = false <-> p <> q.
Proof.
  rewrite <- Qc_eqb_eq. destruct (Qc_eqb p q); split; congruence.
Qed.

Lemma Qc_leb_le (p q : Qc) : Qc_leb p q = true <-> (p <= q)%Qc.
Proof.
  unfold Qc_leb. rewrite Qcle_alt. destruct (p ?= q)%Qc; split; congruence.
Qed.

Lemma Qc_ltb_lt (p q : Qc) : Qc_ltb p q = true <-> (p < q)%Qc.
Proof.
  unfold Qc_ltb. rewrite Qclt_alt. destruct (p ?= q)%Qc; split; congruence.
Qed.

Lemma Qc_leb_total (p q : Qc) : Qc_leb p q = true \/ Qc_leb q p = true.
Proof.
  rewrite !Qc_leb_le. destruct (Qclt_le_dec p q) as [H | H]; auto.
  left. now apply Qclt_le_weak.
Qed.

Lemma Qc_leb_trans (p q r : Qc) :
  Qc_leb p q = true -> Qc_leb q r = true -> Qc_leb p r = true.
Proof. rewrite !Qc_leb_le. apply Qcle_trans. Qed.

Lemma Qc_leb_antisym (p q : Qc) :
  Qc_leb p q = true -> Qc_leb q p = true -> p = q.
Proof. rewrite !Qc_leb_le. apply Qcle_antisym. Qed.

(* ================================================================= *)
(** ** The order of [sort_values] *)

Lemma fle_total (x y : float) :
  is_nan x = false -> is_nan y = false -> fle x y = true \/ fle y x = true.
Proof.
  destruct x as [p | [] | ], y as [q | [] | ]; simpl; auto; try discriminate.
  intros _ _. apply Qc_leb_total.
Qed.

Lemma fle_trans (x y z : float) :
  fle x y = true -> fle y z = true -> fle x z = true.
Proof.
  destruct x as [p | [] | ], y as [q | [] | ], z as [r | [] | ];
    simpl; auto; try discriminate.
  apply Qc_leb_trans.
Qed.

Lemma fle_antisym (x y : float) :
  fle x y = true -> fle y x = true -> x = y.
Proof.
  destruct x as [p | [] | ], y as [q | [] | ]; simpl; auto; try discriminate.
  intros H1 H2. f_equal. now apply Qc_leb_antisym.
Qed.

Lemma fle_not_nan (x y : float) :
  fle x y = true -> is_nan x = false /\ is_nan y = false.
Proof. destruct x as [p | [] | ], y as [q | [] | ]; simpl; auto; discriminate. Qed.

Lemma value_order_total (asc : bool) (x y : float) :
  value_order asc x y = true \/ value_order asc y x = true.
Proof.
  unfold value_order.
  destruct (is_nan y) eqn:Hy; auto.
  destruct (is_nan x) eqn:Hx; auto.
  destruct asc; [apply fle_total | apply or_comm, fle_total]; assumption.
Qed.

Lemma value_order_trans (asc : bool) (x y z : float) :
  value_order asc x y = true -> value_order asc y z = true ->
  value_order asc x z = true.
Proof.
  unfold value_order.
  destruct (is_nan z) eqn:Hz; auto.
  destruct (is_nan y) eqn:Hy; [discriminate |].
  destruct (is_nan x) eqn:Hx; [discriminate |].
  destruct asc; intros H1 H2; eauto using fle_trans.
Qed.

(** On values that are not NaN the order is the numeric one. *)
Lemma value_order_fle (asc : bool) (x y : float) :
  is_nan x = false -> is_nan y = false ->
  value_order asc x y = (if asc then fle x y else fle y x).
Proof. unfold value_order. now intros -> ->. Qed.

(* ================================================================= *)
(** ** Insertion sort meets the contract *)

Section InsertionSort.

Variable A : Type.
Variable leb : A -> A -> bool.
Hypothesis leb_total : forall a b, leb a b = true \/ leb b a = true.
Hypothesis leb_trans :
  forall a b c, leb a b = true -> leb b c = true -> leb a c = true.

Lemma insert_perm (a : A) (l : list A) : Permutation (insert leb a l) (a :: l).
Proof.
  induction l as [| b l IH]; simpl; [reflexivity |].
  destruct (leb a b); [reflexivity |].
  rewrite IH. apply perm_swap.
Qed.

Lemma isort_perm (l : list A) : Permutation (isort leb l) l.
Proof.
  induction l as [| a l IH]; simpl; [reflexivity |].
  rewrite insert_perm. now constructor.
Qed.

Lemma insert_sorted (a : A) (l : list A) :
  StronglySorted (fun x y => leb x y = true) l ->
  StronglySorted (fun x y => leb x y = true) (insert leb a l).
Proof.
  induction 1 as [| b l Hs IH Hb]; simpl.
  - repeat constructor.
  - destruct (leb a b) eqn:Hab.
    + constructor; [now constructor |].
      constructor; [assumption |].
      eapply Forall_impl; [| exact Hb]. intros c Hc. eauto.
    + constructor; [assumption |].
      eapply Permutation_Forall; [symmetry; apply insert_perm |].
      constructor; [| assumption].
      destruct (leb_total a b); congruence.
Qed.

Lemma isort_sorted (l : list A) :
  StronglySorted (fun x y => leb x y = true) (isort leb l).
Proof.
  induction l as [| a l IH]; simpl; [constructor | now apply insert_sorted].
Qed.

End InsertionSort.

Lemma row_by_label_total (a b : label * float) :
  row_by_label a b = true \/ row_by_label b a = true.
Proof. unfold row_by_label. rewrite !Z.leb_le. lia. Qed.

Lemma row_by_label_trans (a b c : label * float) :
  row_by_label a b = true -> row_by_label b c = true -> row_by_label a c = true.
Proof. unfold row_by_label. rewrite !Z.leb_le. lia. Qed.

Lemma row_by_value_total (asc : bool) (a b : label * float) :
  row_by_value asc a b = true \/ row_by_value asc b a = true.
Proof. apply value_order_total. Qed.

Lemma row_by_value_trans (asc : bool) (a b c : label * float) :
  row_by_value asc a b = true -> row_by_value asc b c = true ->
  row_by_value asc a c = true.
Proof. apply value_order_trans. Qed.

Lemma stable_kind_spec : PandasSortSpec stable_kind.
Proof.
  split; simpl; intros.
  - apply isort_perm.
  - apply isort_sorted; [apply row_by_label_total | apply row_by_label_trans].
  - apply isort_perm.
  - apply isort_sorted;
      [apply row_by_value_total | apply row_by_value_trans].
Qed.

Lemma reversing_kind_spec : PandasSortSpec reversing_kind.
Proof.
  split; simpl; intros.
  - rewrite isort_perm. symmetry. apply Permutation_rev.
  - apply isort_sorted; [apply row_by_label_total | apply row_by_label_trans].
  - rewrite isort_perm. symmetry. apply Permutation_rev.
  - apply isort_sorted;
      [apply row_by_value_total | apply row_by_value_trans].
Qed.

(* ================================================================= *)
(** ** Arithmetic of [float] *)

Lemma fadd_0_l (x : float) : (fzero + x)%fl = x.
Proof.
  destruct x as [q | s | ]; simpl; auto. f_equal. ring.
Qed.

Lemma fadd_0_r (x : float) : (x + fzero)%fl = x.
Proof.
  destruct x as [q | s | ]; simpl; auto. f_equal. ring.
Qed.

Lemma fmul_1_r (x : float) : (x * fone)%fl = x.
Proof.
  destruct x as [q | s | ]; simpl; auto.
  - f_equal. ring.
  - now rewrite xorb_false_r.
Qed.

Lemma fsub_0_r (x : float) : (x - fzero)%fl = x.
Proof.
  destruct x as [q | s | ]; simpl; auto. f_equal. ring.
Qed.

Lemma Qc_of_nat_S (n : nat) :
  Q2Qc (inject_Z (Z.of_nat (S n))) = (Q2Qc (inject_Z (Z.of_nat n)) + 1)%Qc.
Proof.
  apply Qc_is_canon. unfold Qcplus, Q2Qc. cbn [this].
  rewrite !Qred_correct. rewrite Nat2Z.inj_succ.
  unfold Z.succ. rewrite inject_Z_plus. reflexivity.
Qed.

Lemma Qc_of_nat_neq0 (n : nat) :
  n <> 0%nat -> Q2Qc (inject_Z (Z.of_nat n)) <> 0%Qc.
Proof.
  intros Hn H. apply (f_equal this) in H. unfold Q2Qc in H. cbn [this] in H.
  apply Qred_eq_iff in H. unfold Qeq in H. simpl in H. lia.
Qed.

Lemma fold_fadd_Fin (l : list Qc) (a : Qc) :
  fold_left fadd (map Fin l) (Fin a) = Fin (a + sumQ l)%Qc.
Proof.
  revert a. induction l as [| q l IH]; intros a; simpl.
  - f_equal. ring.
  - rewrite IH. f_equal. ring.
Qed.

Lemma np_sum_Fin (l : list Qc) : np_sum (map Fin l) = Fin (sumQ l).
Proof.
  unfold np_sum, fzero. rewrite fold_fadd_Fin. f_equal. ring.
Qed.

Lemma series_sum_Fin (l : list Qc) : series_sum (map Fin l) = Fin (sumQ l).
Proof.
  unfold series_sum. rewrite <- np_sum_Fin. f_equal.
  induction l as [| q l IH]; simpl; [reflexivity | now rewrite IH].
Qed.

Lemma sumQ_app (l1 l2 : list Qc) : sumQ (l1 ++ l2) = (sumQ l1 + sumQ l2)%Qc.
Proof.
  induction l1 as [| q l1 IH]; simpl; [ring | rewrite IH; ring].
Qed.

Lemma sumQ_map_scale (k : Qc) (l : list Qc) :
  sumQ (map (fun q => q * k)%Qc l) = (sumQ l * k)%Qc.
Proof.
  induction l as [| q l IH]; simpl; [ring | rewrite IH; ring].
Qed.

Lemma sumQ_zip_add (l1 l2 : list Qc) :
  length l1 = length l2 ->
  sumQ (map (fun p => fst p + snd p)%Qc (combine l1 l2))
  = (sumQ l1 + sumQ l2)%Qc.
Proof.
  revert l2. induction l1 as [| a l1 IH]; intros [| b l2] H;
    simpl in *; try discriminate; [ring |].
  rewrite IH by congruence. ring.
Qed.

Lemma sumQ_indicator (P : label -> bool) (x : Qc) (l : list label) :
  sumQ (map (fun t => if P t then x else 0%Qc) l)
  = (Q2Qc (inject_Z (Z.of_nat (length (filter P l)))) * x)%Qc.
Proof.
  induction l as [| t l IH]; simpl.
  - change (Q2Qc (inject_Z 0)) with 0%Qc. ring.
  - rewrite IH. destruct (P t); simpl length.
    + rewrite Qc_of_nat_S. ring.
    + ring.
Qed.

(* ================================================================= *)
(** ** Lists, slices and label-based updates *)

Lemma mem_In (t : label) (l : list label) : mem t l = true <-> In t l.
Proof.
  unfold mem. rewrite existsb_exists. split.
  - intros [x [Hx Ht]]. apply Z.eqb_eq in Ht. now subst.
  - intros H. exists t. split; [assumption | apply Z.eqb_refl].
Qed.

Lemma firstn_NoDup {A} (m : nat) (l : list A) : NoDup l -> NoDup (firstn m l).
Proof.
  intros H. rewrite <- (firstn_skipn m l) in H.
  now apply NoDup_app_remove_r in H.
Qed.

Lemma firstn_In {A} (m : nat) (l : list A) (x : A) :
  In x (firstn m l) -> In x l.
Proof.
  intros H. rewrite <- (firstn_skipn m l). apply in_or_app. now left.
Qed.

Lemma slice_to_firstn {A} (l : list A) (n : Z) :
  exists m, slice_to l n = firstn m l.
Proof. unfold slice_to. destruct (0 <=? n)%Z; eauto. Qed.

Lemma slice_to_within {A} (l : list A) (n : Z) :
  (0 <= n <= Z.of_nat (length l))%Z ->
  slice_to l n = firstn (Z.to_nat n) l /\ length (slice_to l n) = Z.to_nat n.
Proof.
  intros H. unfold slice_to.
  destruct (Z.leb_spec 0 n); [| lia].
  split; [reflexivity | apply firstn_length_le; lia].
Qed.

Lemma slice_to_beyond {A} (l : list A) (n : Z) :
  (Z.of_nat (length l) <= n)%Z -> slice_to l n = l.
Proof.
  intros H. unfold slice_to.
  destruct (Z.leb_spec 0 n); [| lia].
  apply firstn_all2. lia.
Qed.

Lemma slice_to_NoDup {A} (l : list A) (n : Z) :
  NoDup l -> NoDup (slice_to l n).
Proof.
  destruct (slice_to_firstn l n) as [m ->]. apply firstn_NoDup.
Qed.

Lemma slice_to_In {A} (l : list A) (n : Z) (x : A) :
  In x (slice_to l n) -> In x l.
Proof.
  destruct (slice_to_firstn l n) as [m ->]. apply firstn_In.
Qed.

(** What the loop of lines 112-113 leaves in each row. *)
Lemma fold_add_at (x : float) (target_hours : list label) (s : Series) :
  fold_left (fun sf ts => add_at sf ts x) target_hours s
  = map (fun r =>
           (fst r,
            fold_left (fun v ts => if (fst r =? ts)%Z then (v + x)%fl else v)
              target_hours (snd r))) s.
Proof.
  revert s. induction target_hours as [| ts l IH]; intros s; simpl.
  - rewrite <- (map_id s) at 1. apply map_ext. now intros [t v].
  - rewrite IH. unfold add_at. rewrite map_map. apply map_ext.
    intros [t v]; simpl. now destruct (t =? ts)%Z.
Qed.

Lemma allocate_flex_rows (idx target_hours : list label) (total : float) :
  allocate_flex idx target_hours total
  = map (fun t =>
           (t, flex_at t target_hours
                 (total / of_nat (length target_hours))%fl)) idx.
Proof.
  unfold allocate_flex, constSeries. rewrite fold_add_at, map_map.
  reflexivity.
Qed.

Lemma flex_at_fold_notin (t : label) (l : list label) (x v : float) :
  ~ In t l ->
  fold_left (fun v ts => if (t =? ts)%Z then (v + x)%fl else v) l v = v.
Proof.
  revert v. induction l as [| ts l IH]; intros v Hn; simpl; [reflexivity |].
  destruct (Z.eqb_spec t ts) as [-> | Hne].
  - exfalso. apply Hn. now left.
  - apply IH. intros H. apply Hn. now right.
Qed.

(** A target hour listed once receives the share once. *)
Lemma flex_at_NoDup (t : label) (l : list label) (x : float) :
  NoDup l -> flex_at t l x = if mem t l then x else fzero.
Proof.
  unfold flex_at. intros Hnd.
  assert (G : forall v,
             fold_left (fun v ts => if (t =? ts)%Z then (v + x)%fl else v) l v
             = if mem t l then (v + x)%fl else v).
  { induction Hnd as [| ts l Hn Hnd IH]; intros v; simpl; [reflexivity |].
    destruct (Z.eqb_spec t ts) as [-> | Hne]; simpl.
    - now apply flex_at_fold_notin.
    - apply IH. }
  rewrite G. destruct (mem t l); [apply fadd_0_l | reflexivity].
Qed.

(** With a zero share nothing is added, however the hours are listed. *)
Lemma flex_at_zero (t : label) (l : list label) : flex_at t l fzero = fzero.
Proof.
  unfold flex_at. generalize fzero at 2 3 as v.
  induction l as [| ts l IH]; intros v; simpl; [reflexivity |].
  rewrite fadd_0_r. destruct (t =? ts)%Z; apply IH.
Qed.

Lemma Series_index_mkSeries (vals : list float) (idx : list label) :
  length idx = length vals -> Series_index (mkSeries vals idx) = idx.
Proof.
  unfold Series_index, mkSeries. revert vals.
  induction idx as [| t idx IH]; intros [| v vals] H; simpl in *;
    try discriminate; [reflexivity |].
  f_equal. apply IH. congruence.
Qed.

Lemma Series_values_mkSeries (vals : list float) (idx : list label) :
  length idx = length vals -> Series_values (mkSeries vals idx) = vals.
Proof.
  unfold Series_values, mkSeries. revert vals.
  induction idx as [| t idx IH]; intros [| v vals] H; simpl in *;
    try discriminate; [reflexivity |].
  f_equal. apply IH. congruence.
Qed.

(** Line 115 on the series of lines 95 and 110-113. *)
Lemma add_scaled_rows (idx : list label) (vals : list float) (k : float)
    (g : label -> float) :
  Series_values
    (add_series (scale_series (mkSeries vals idx) k)
       (map (fun t => (t, g t)) idx))
  = map (fun r => (snd r * k + g (fst r))%fl) (combine idx vals).
Proof.
  unfold Series_values, add_series, scale_series, mkSeries.
  revert vals. induction idx as [| t idx IH]; intros [| v vals]; simpl;
    try reflexivity.
  f_equal. apply IH.
Qed.

(* ================================================================= *)
(** ** The profile generator *)

Lemma HOUSEHOLD_PROFILE_RAW_Fin : HOUSEHOLD_PROFILE_RAW = map Fin RAW_Q.
Proof. reflexivity. Qed.

Lemma RAW_Q_sum_neq0 : sumQ RAW_Q <> 0%Qc.
Proof. apply Qc_eqb_neq. vm_compute. reflexivity. Qed.

Lemma profile_values (daily_kwh : float) :
  Series_values (make_household_profile daily_kwh)
  = map (fun w => (w * (daily_kwh / np_sum HOUSEHOLD_PROFILE_RAW))%fl)
      HOUSEHOLD_PROFILE_RAW.
Proof.
  unfold make_household_profile. now apply Series_values_mkSeries.
Qed.

Lemma profile_index (daily_kwh : float) :
  Series_index (make_household_profile daily_kwh) = range 24.
Proof.
  unfold make_household_profile. now apply Series_index_mkSeries.
Qed.

Lemma profile_values_length (daily_kwh : float) :
  length (Series_values (make_household_profile daily_kwh)) = 24%nat.
Proof. rewrite profile_values. reflexivity. Qed.

(** On a finite daily energy the profile is finite, value by value. *)
Lemma profile_values_Fin (d : Qc) :
  Series_values (make_household_profile (Fin d))
  = map Fin (map (fun w => w * (d / sumQ RAW_Q))%Qc RAW_Q).
Proof.
  rewrite profile_values, HOUSEHOLD_PROFILE_RAW_Fin, np_sum_Fin.
  rewrite !map_map. apply map_ext. intros w. unfold fdiv.
  destruct (Qc_eqb (sumQ RAW_Q) 0) eqn:E; [| reflexivity].
  apply Qc_eqb_eq in E. now destruct RAW_Q_sum_neq0.
Qed.

Lemma profile_sum_Q (d : Qc) :
  sumQ (map (fun w => w * (d / sumQ RAW_Q))%Qc RAW_Q) = d.
Proof.
  rewrite sumQ_map_scale. field. apply RAW_Q_sum_neq0.
Qed.

(* ================================================================= *)
(** ** The scenario engine, step by step *)

Lemma loc_row (s : Series) (t : label) :
  NoDup (Series_index s) -> In t (Series_index s) ->
  exists v, filter (fun r => (fst r =? t)%Z) s = [(t, v)].
Proof.
  unfold Series_index.
  induction s as [| [t' v'] s IH]; simpl; intros Hnd Hin; [contradiction |].
  inversion Hnd as [| ? ? Hn Hnd']; subst.
  destruct (Z.eqb_spec t' t) as [-> | Hne].
  - exists v'. f_equal.
    clear - Hn. induction s as [| [t2 v2] s IH]; simpl in *; [reflexivity |].
    destruct (Z.eqb_spec t2 t) as [-> | _]; [tauto | apply IH; tauto].
  - destruct Hin as [-> | Hin]; [congruence | now apply IH].
Qed.

(** [.loc] on a series that carries every requested label once. *)
Lemma loc_aligned (s : Series) (idx : list label) :
  NoDup (Series_index s) -> incl idx (Series_index s) ->
  exists s', loc s idx = Ok s' /\ Series_index s' = idx.
Proof.
  intros Hnd. induction idx as [| t idx IH]; intros Hin; simpl.
  - now exists [].
  - destruct (loc_row s t Hnd (Hin t (or_introl eq_refl))) as [v ->].
    destruct IH as [s' [-> Hs']].
    { intros x Hx. apply Hin. now right. }
    exists ((t, v) :: s'). simpl. now rewrite Hs'.
Qed.

Section EngineFacts.

Context {srt : PandasSort} {srt_ok : PandasSortSpec srt}.

Lemma sort_index_length (s : Series) : length (sort_index s) = length s.
Proof. apply Permutation_length, sort_index_perm. Qed.

Lemma sort_index_labels (s : Series) :
  Permutation (Series_index (sort_index s)) (Series_index s).
Proof. apply Permutation_map, sort_index_perm. Qed.

Lemma sort_values_labels (asc : bool) (s : Series) :
  Permutation (Series_index (sort_values asc s)) (Series_index s).
Proof. apply Permutation_map, sort_values_perm. Qed.

Lemma Series_index_length (s : Series) : length (Series_index s) = length s.
Proof. apply length_map. Qed.

(** The length check comes first: whatever the other arguments are. *)
Lemma run_wrong_length (ci_series : Series) (daily_kwh flexible_share : float)
    (strategy : string) (renewable_share : option Series) (n : Z) :
  length ci_series <> 24%nat ->
  run_shift_scenario ci_series daily_kwh flexible_share strategy
    renewable_share n
  = Err (InvalidSeriesLengthError (length ci_series)).
Proof.
  intros H. unfold run_shift_scenario. rewrite sort_index_length.
  destruct (Nat.eqb_spec (length ci_series) 24); [contradiction | reflexivity].
Qed.

(** The fields of the returned dictionary, once the series has 24 rows
    and the two fallible steps have succeeded. *)
Lemma run_fields (ci_series : Series) (daily_kwh flexible_share : float)
    (strategy : string) (renewable_share rs' : option Series) (n : Z)
    (target_hours : list label) :
  length ci_series = 24%nat ->
  align_renewable_share strategy renewable_share
    (Series_index (sort_index ci_series)) = Ok rs' ->
  choose_target_hours strategy (sort_index ci_series) rs' n = Ok target_hours ->
  exists r,
    run_shift_scenario ci_series daily_kwh flexible_share strategy
      renewable_share n = Ok r
    /\ index r = Series_index (sort_index ci_series)
    /\ ci r = Series_values (sort_index ci_series)
    /\ baseline_load r = Series_values (make_household_profile daily_kwh)
    /\ shifted_load r
       = map (fun row =>
                (snd row * (fone - flexible_share)
                 + flex_at (fst row) target_hours
                     (series_sum
                        (map (fun b => b * flexible_share) (baseline_load r))
                      / of_nat (length target_hours)))%fl)
           (combine (index r) (baseline_load r))
    /\ total_baseline_emissions r
       = np_sum (mul_arrays (baseline_load r) (ci r))
    /\ total_shifted_emissions r
       = np_sum (mul_arrays (shifted_load r) (ci r))
    /\ relative_reduction r
       = ((total_baseline_emissions r - total_shifted_emissions r)
          / total_baseline_emissions r)%fl.
Proof.
  intros Hlen Hal Hch. unfold run_shift_scenario.
  rewrite sort_index_length, Hlen. cbn [Nat.eqb negb].
  rewrite Hal. cbn [bind]. rewrite Hch. cbn [bind].
  eexists. split; [reflexivity |]. cbn [index ci baseline_load shifted_load
    total_baseline_emissions total_shifted_emissions relative_reduction].
  assert (Hl : length (Series_index (sort_index ci_series))
               = length (Series_values (make_household_profile daily_kwh))).
  { now rewrite Series_index_length, sort_index_length, profile_values_length. }
  assert (Hsc : forall k,
             Series_values
               (scale_series
                  (mkSeries (Series_values (make_household_profile daily_kwh))
                     (Series_index (sort_index ci_series))) k)
             = map (fun b => (b * k)%fl)
                 (Series_values (make_household_profile daily_kwh))).
  { intros k. unfold scale_series, Series_values at 1. rewrite map_map.
    cbn [snd]. rewrite <- (Series_values_mkSeries _ _ Hl) at 2.
    unfold Series_values at 2. now rewrite map_map. }
  rewrite allocate_flex_rows, add_scaled_rows, Hsc.
  rewrite !(Series_values_mkSeries _ _ Hl).
  repeat split; reflexivity.
Qed.

(** Conversely a returned dictionary means both steps succeeded. *)
Lemma run_Ok_inv (ci_series : Series) (daily_kwh flexible_share : float)
    (strategy : string) (renewable_share : option Series) (n : Z)
    (r : ScenarioResult) :
  run_shift_scenario ci_series daily_kwh flexible_share strategy
    renewable_share n = Ok r ->
  length ci_series = 24%nat
  /\ exists rs' target_hours,
       align_renewable_share strategy renewable_share
         (Series_index (sort_index ci_series)) = Ok rs'
       /\ choose_target_hours strategy (sort_index ci_series) rs' n
          = Ok target_hours.
Proof.
  unfold run_shift_scenario. rewrite sort_index_length.
  destruct (Nat.eqb_spec (length ci_series) 24) as [Hlen | Hlen];
    cbn [negb]; [| discriminate].
  destruct (align_renewable_share _ _ _) as [rs' |] eqn:Hal; cbn [bind];
    [| discriminate].
  destruct (choose_target_hours _ _ _ _) as [T |] eqn:Hch; cbn [bind];
    [| discriminate].
  intros _. split; [assumption | eauto].
Qed.

End EngineFacts.

(* ================================================================= *)
(** ** Energy bookkeeping on finite loads *)

Lemma filter_mem_length (idx T : list label) :
  NoDup idx -> NoDup T -> incl T idx ->
  length (filter (fun t => mem t T) idx) = length T.
Proof.
  intros Hi Ht Hin. apply Permutation_length.
  apply NoDup_Permutation; [now apply NoDup_filter | assumption |].
  intros x. rewrite filter_In, mem_In. split; [tauto |].
  intros H. split; [now apply Hin | assumption].
Qed.

Lemma combine_map_Fin (idx : list label) (bq : list Qc) :
  combine idx (map Fin bq)
  = map (fun row => (fst row, Fin (snd row))) (combine idx bq).
Proof.
  revert bq. induction idx as [| t idx IH]; intros [| b bq]; simpl;
    try reflexivity.
  f_equal. apply IH.
Qed.

Lemma sumQ_rows (F : Qc -> Qc) (G : label -> Qc) (idx : list label)
    (bq : list Qc) :
  length idx = length bq ->
  sumQ (map (fun row => F (snd row) + G (fst row))%Qc (combine idx bq))
  = (sumQ (map F bq) + sumQ (map G idx))%Qc.
Proof.
  revert bq. induction idx as [| t idx IH]; intros [| b bq] H;
    simpl in *; try discriminate; [ring |].
  rewrite IH by congruence. ring.
Qed.

Lemma of_nat_Fin (n : nat) : of_nat n = Fin (Q2Qc (inject_Z (Z.of_nat n))).
Proof. reflexivity. Qed.

(** The flexible energy the engine hands out, for finite inputs. *)
Lemma total_flex_Fin (bq : list Qc) (fq : Qc) :
  series_sum (map (fun b => (b * Fin fq)%fl) (map Fin bq))
  = Fin (sumQ bq * fq)%Qc.
Proof.
  rewrite map_map.
  rewrite <- (map_map (fun b => (b * fq)%Qc) Fin).
  now rewrite series_sum_Fin, sumQ_map_scale.
Qed.

Lemma per_hour_Fin (tf : Qc) (k : nat) :
  k <> 0%nat ->
  (Fin tf / of_nat k)%fl = Fin (tf / Q2Qc (inject_Z (Z.of_nat k)))%Qc.
Proof.
  intros Hk. rewrite of_nat_Fin. cbn [fdiv].
  destruct (Qc_eqb _ 0) eqn:E; [| reflexivity].
  apply Qc_eqb_eq in E. now apply Qc_of_nat_neq0 in E.
Qed.

(** Lines 95-115 on finite loads: what is taken out of every hour is put
    back, in equal shares, into the target hours. *)
Lemma shifted_sum_Fin (idx T : list label) (bq : list Qc) (fq : Qc) :
  length idx = length bq -> NoDup idx -> NoDup T -> incl T idx -> T <> [] ->
  np_sum
    (map (fun row =>
            (snd row * (fone - Fin fq)
             + flex_at (fst row) T
                 (series_sum (map (fun b => b * Fin fq) (map Fin bq))
                  / of_nat (length T)))%fl)
       (combine idx (map Fin bq)))
  = Fin (sumQ bq).
Proof.
  intros Hlen Hi Ht Hin Hne.
  assert (Hk : length T <> 0%nat) by (destruct T; [congruence | discriminate]).
  rewrite total_flex_Fin, (per_hour_Fin _ _ Hk), combine_map_Fin, map_map.
  set (k := Q2Qc (inject_Z (Z.of_nat (length T)))).
  set (ph := (sumQ bq * fq / k)%Qc).
  rewrite (map_ext _
             (fun row => Fin (snd row * (1 - fq)
                              + (if mem (fst row) T then ph else 0))%Qc)).
  2:{ intros [t b]. cbn [fst snd]. rewrite (flex_at_NoDup _ _ _ Ht).
      destruct (mem t T); reflexivity. }
  rewrite <- (map_map _ Fin), np_sum_Fin. f_equal.
  rewrite (sumQ_rows (fun b => b * (1 - fq))%Qc
             (fun t => if mem t T then ph else 0%Qc) _ _ Hlen).
  rewrite sumQ_map_scale, sumQ_indicator, (filter_mem_length _ _ Hi Ht Hin).
  fold k. unfold ph. field. now apply Qc_of_nat_neq0.
Qed.

Lemma distinct_NoDup (l : list label) : distinct l = true -> NoDup l.
Proof.
  induction l as [| t l IH]; simpl; [constructor |].
  rewrite andb_true_iff, negb_true_iff. intros [Hm Hd].
  constructor; [| now apply IH].
  rewrite <- mem_In. congruence.
Qed.

Lemma forallb_mem_incl (l1 l2 : list label) :
  forallb (fun t => mem t l2) l1 = true -> incl l1 l2.
Proof.
  rewrite forallb_forall. intros H x Hx. apply mem_In. now apply H.
Qed.

Section Selection.

Context {srt : PandasSort} {srt_ok : PandasSortSpec srt}.

Lemma hourly_sorted (ci_series : Series) :
  hourly_series ci_series ->
  length (Series_index (sort_index ci_series)) = 24%nat
  /\ NoDup (Series_index (sort_index ci_series)).
Proof.
  intros [Hlen Hnd]. split.
  - now rewrite Series_index_length, sort_index_length.
  - eapply Permutation_NoDup; [symmetry; apply sort_index_labels | exact Hnd].
Qed.

(** Lines 85-88 and 100-107 on valid inputs: both steps succeed, and the
    hours are the head of the labels of a sorted series that carries
    exactly the labels of the day. *)
Lemma selection_steps (ci_series : Series) (strategy : string)
    (renewable_share : option Series) :
  hourly_series ci_series ->
  strategy_inputs strategy renewable_share ci_series ->
  exists rs' asc key,
    align_renewable_share strategy renewable_share
      (Series_index (sort_index ci_series)) = Ok rs'
    /\ (forall n,
          choose_target_hours strategy (sort_index ci_series) rs' n
          = Ok (slice_to (Series_index (sort_values asc key)) n))
    /\ Permutation (Series_index key) (Series_index (sort_index ci_series)).
Proof.
  intros Hh [-> | [-> [rs [-> [Hnd Hin]]]]].
  - exists renewable_share, true, (sort_index ci_series).
    repeat split; reflexivity.
  - destruct (loc_aligned rs (Series_index (sort_index ci_series)) Hnd)
      as [s' [Hloc Hs']].
    { intros x Hx. apply Hin.
      eapply Permutation_in; [apply sort_index_labels | exact Hx]. }
    exists (Some (sort_index s')), false, (sort_index s').
    unfold align_renewable_share. cbn [String.eqb Ascii.eqb Bool.eqb].
    rewrite Hloc. cbn [bind]. repeat split; try reflexivity.
    rewrite <- Hs'. apply sort_index_labels.
Qed.

(** The chosen hours are distinct hours of the day. *)
Lemma selection_wf (asc : bool) (key : Series) (idx : list label) (n : Z) :
  Permutation (Series_index key) idx -> NoDup idx ->
  let T := slice_to (Series_index (sort_values asc key)) n in
  NoDup T /\ incl T idx
  /\ Permutation (Series_index (sort_values asc key)) idx.
Proof.
  intros Hp Hnd T.
  assert (HL : Permutation (Series_index (sort_values asc key)) idx).
  { now rewrite sort_values_labels. }
  repeat split; [| | exact HL].
  - apply slice_to_NoDup. eapply Permutation_NoDup; [symmetry; exact HL | exact Hnd].
  - intros x Hx. apply slice_to_In in Hx. eapply Permutation_in; eassumption.
Qed.

End Selection.

Lemma nth_error_combine {A B} (l1 : list A) (l2 : list B) (i : nat) (a : A)
    (b : B) :
  nth_error l1 i = Some a -> nth_error l2 i = Some b ->
  nth_error (combine l1 l2) i = Some (a, b).
Proof.
  revert l2 i. induction l1 as [| x l1 IH]; intros [| y l2] [| i]; simpl;
    try discriminate.
  - now intros [= ->] [= ->].
  - apply IH.
Qed.

Section Runs.

Context {srt : PandasSort} {srt_ok : PandasSortSpec srt}.

(** A run on valid inputs, for any number of target hours: it returns,
    and its loads are determined by the hours [target_hours_of] reports. *)
Lemma run_valid (ci_series : Series) (daily_kwh flexible_share : float)
    (strategy : string) (renewable_share : option Series) (n : Z) :
  hourly_series ci_series ->
  strategy_inputs strategy renewable_share ci_series ->
  exists r T,
    run_shift_scenario ci_series daily_kwh flexible_share strategy
      renewable_share n = Ok r
    /\ target_hours_of ci_series strategy renewable_share n = Ok T
    /\ length (index r) = 24%nat /\ NoDup (index r)
    /\ NoDup T /\ incl T (index r)
    /\ ((0 <= n <= 24)%Z -> length T = Z.to_nat n)
    /\ ((24 <= n)%Z -> Permutation T (index r))
    /\ baseline_load r = Series_values (make_household_profile daily_kwh)
    /\ shifted_load r
       = map (fun row =>
                (snd row * (fone - flexible_share)
                 + flex_at (fst row) T
                     (series_sum
                        (map (fun b => b * flexible_share) (baseline_load r))
                      / of_nat (length T)))%fl)
           (combine (index r) (baseline_load r))
    /\ total_baseline_emissions r
       = np_sum (mul_arrays (baseline_load r) (ci r))
    /\ total_shifted_emissions r
       = np_sum (mul_arrays (shifted_load r) (ci r))
    /\ relative_reduction r
       = ((total_baseline_emissions r - total_shifted_emissions r)
          / total_baseline_emissions r)%fl.
Proof.
  intros Hh Hs.
  destruct (selection_steps _ _ _ Hh Hs) as [rs' [asc [key [Hal [Hch Hp]]]]].
  destruct (hourly_sorted _ Hh) as [Hlen Hnd].
  destruct (selection_wf asc key _ n Hp Hnd) as [HT1 [HT2 HL]].
  destruct (run_fields _ daily_kwh flexible_share _ _ _ n _ (proj1 Hh) Hal (Hch n))
    as [r [Hr [Hi [Hc [Hb [Hsh [Htb [Hts Hrr]]]]]]]].
  exists r, (slice_to (Series_index (sort_values asc key)) n).
  rewrite Hi. repeat split; try assumption.
  - unfold target_hours_of. rewrite sort_index_length, (proj1 Hh).
    cbn [Nat.eqb negb]. rewrite Hal. cbn [bind]. apply Hch.
  - intros Hn. apply slice_to_within.
    rewrite (Permutation_length HL), Hlen. lia.
  - intros Hn. rewrite slice_to_beyond; [exact HL |].
    rewrite (Permutation_length HL), Hlen. lia.
  - now rewrite <- Hi.
Qed.

End Runs.

(* ================================================================= *)
(** ** Properties of the scenario engine *)

(** C1. Energy conservation.  For every 24-row carbon-intensity series on
    distinct timestamps, every finite daily energy and flexible share (in
    particular dailyEnergy > 0 and flexibleShare in [0,1]), either
    strategy with the series it needs, and every targetHourCount in
    [1,24], [run_shift_scenario] returns a result whose shifted loads sum
    to the sum of its baseline loads. *)
Theorem energy_conservation (srt : PandasSort) (srt_ok : PandasSortSpec srt)
    (ci_series : Series) (d f : Qc) (strategy : string)
    (renewable_share : option Series) (n : Z) :
  hourly_series ci_series ->
  strategy_inputs strategy renewable_share ci_series ->
  (1 <= n <= 24)%Z ->
  exists r,
    run_shift_scenario ci_series (Fin d) (Fin f) strategy renewable_share n
    = Ok r
    /\ np_sum (shifted_load r) = np_sum (baseline_load r).
Proof.
  intros Hh Hs Hn.
  destruct (run_valid ci_series (Fin d) (Fin f) strategy renewable_share n Hh Hs)
    as [r [T [Hr [_ [Hlen [Hnd [HT [Hin [HTn [_ [Hb [Hsh _]]]]]]]]]]]].
  exists r. split; [exact Hr |].
  rewrite Hsh, Hb, profile_values_Fin, np_sum_Fin.
  apply shifted_sum_Fin; try assumption.
  intros ->. specialize (HTn ltac:(lia)). simpl in HTn. lia.
Qed.

(** The theorem on [sample_day]: 14 kWh, 30 percent flexible, the four
    lowest-intensity hours. *)
Lemma energy_conservation_witness :
  exists r,
    run_shift_scenario (srt := stable_kind) sample_day (of_Z 14) (centi 30)
      "low_intensity" None 4 = Ok r
    /\ np_sum (shifted_load r) = np_sum (baseline_load r).
Proof.
  apply (energy_conservation stable_kind stable_kind_spec).
  - split; [reflexivity | apply distinct_NoDup; vm_compute; reflexivity].
  - left. reflexivity.
  - lia.
Defined.

(** C3. Uniform redistribution.  On valid inputs the run returns the 24
    hours of the day with a baseline load and a shifted load for each:
    the baseline loads are the household profile, exactly
    targetHourCount distinct hours of the day are target hours, the
    shifted load of a target hour is its non-flexible load plus
    totalFlexEnergy / targetHourCount, and the shifted load of every
    other hour is its non-flexible load. *)
Theorem shifted_load_by_hour (srt : PandasSort) (srt_ok : PandasSortSpec srt)
    (ci_series : Series) (daily_kwh flexible_share : float)
    (strategy : string) (renewable_share : option Series) (n : Z) :
  hourly_series ci_series ->
  strategy_inputs strategy renewable_share ci_series ->
  (1 <= n <= 24)%Z ->
  exists r T,
    run_shift_scenario ci_series daily_kwh flexible_share strategy
      renewable_share n = Ok r
    /\ target_hours_of ci_series strategy renewable_share n = Ok T
    /\ length T = Z.to_nat n /\ NoDup T /\ incl T (index r)
    /\ length (index r) = 24%nat /\ NoDup (index r)
    /\ Permutation (index r) (Series_index ci_series)
    /\ baseline_load r = Series_values (make_household_profile daily_kwh)
    /\ length (baseline_load r) = 24%nat
    /\ length (shifted_load r) = 24%nat
    /\ forall i t b,
         nth_error (index r) i = Some t ->
         nth_error (baseline_load r) i = Some b ->
         let nonflex := (b * (fone - flexible_share))%fl in
         let total_flex :=
           series_sum (map (fun b => b * flexible_share)%fl (baseline_load r)) in
         nth_error (shifted_load r) i
         = Some (if mem t T then (nonflex + total_flex / of_Z n)%fl
                 else nonflex).
Proof.
  intros Hh Hs Hn.
  destruct (run_valid ci_series daily_kwh flexible_share strategy
              renewable_share n Hh Hs)
    as [r [T [Hr [Ht [Hlen [Hnd [HT [Hin [HTn [_ [Hb [Hsh _]]]]]]]]]]]].
  exists r, T. specialize (HTn ltac:(lia)).
  destruct (run_Ok_inv _ _ _ _ _ _ _ Hr) as [Hl24 [rs' [T' [Hal Hch]]]].
  destruct (run_fields ci_series daily_kwh flexible_share strategy
              renewable_share rs' n T' Hl24 Hal Hch) as [r' [Hr' [Hidx _]]].
  assert (r' = r) by congruence. subst r'.
  split; [exact Hr |]. split; [exact Ht |]. split; [exact HTn |].
  split; [exact HT |]. split; [exact Hin |]. split; [exact Hlen |].
  split; [exact Hnd |].
  split; [rewrite Hidx; apply sort_index_labels |].
  split; [exact Hb |].
  split; [rewrite Hb; apply profile_values_length |].
  split.
  { rewrite Hsh, length_map, length_combine, Hlen, Hb,
      profile_values_length. reflexivity. }
  intros i t b Hi Hbi nonflex total_flex.
  rewrite Hsh. erewrite map_nth_error; [| apply nth_error_combine; eassumption].
  cbn [fst snd]. rewrite (flex_at_NoDup _ _ _ HT), HTn.
  unfold of_nat. rewrite Z2Nat.id by lia. fold (of_Z n).
  destruct (mem t T); [reflexivity | apply f_equal, fadd_0_r].
Qed.

(** The theorem on [sample_day] under "max_renewable" with
    [sample_share]. *)
Lemma shifted_load_by_hour_witness :
  exists r T,
    run_shift_scenario (srt := stable_kind) sample_day (of_Z 14) (centi 30)
      "max_renewable" (Some sample_share) 4 = Ok r
    /\ target_hours_of (srt := stable_kind) sample_day "max_renewable"
         (Some sample_share) 4 = Ok T
    /\ length T = Z.to_nat 4 /\ NoDup T /\ incl T (index r)
    /\ length (index r) = 24%nat /\ NoDup (index r)
    /\ Permutation (index r) (Series_index sample_day)
    /\ baseline_load r = Series_values (make_household_profile (of_Z 14))
    /\ length (baseline_load r) = 24%nat
    /\ length (shifted_load r) = 24%nat
    /\ forall i t b,
         nth_error (index r) i = Some t ->
         nth_error (baseline_load r) i = Some b ->
         let nonflex := (b * (fone - centi 30))%fl in
         let total_flex :=
           series_sum (map (fun b => b * centi 30)%fl (baseline_load r)) in
         nth_error (shifted_load r) i
         = Some (if mem t T then (nonflex + total_flex / of_Z 4)%fl
                 else nonflex).
Proof.
  apply (shifted_load_by_hour stable_kind stable_kind_spec).
  - split; [reflexivity | apply distinct_NoDup; vm_compute; reflexivity].
  - right. split; [reflexivity |]. exists sample_share.
    split; [reflexivity |].
    split; [apply distinct_NoDup | apply forallb_mem_incl];
      vm_compute; reflexivity.
  - lia.
Defined.

(** C9. Zero flexible share.  On valid inputs with flexibleShare = 0 the
    shifted-load array is the baseline-load array, value for value
    (equality, not closeness): every step the loads go through, x * 1,
    x * 0, a sum of zeros, 0 / k and x + 0, is exact. *)
Theorem zero_flexible_share (srt : PandasSort) (srt_ok : PandasSortSpec srt)
    (ci_series : Series) (d : Qc) (strategy : string)
    (renewable_share : option Series) (n : Z) :
  hourly_series ci_series ->
  strategy_inputs strategy renewable_share ci_series ->
  exists r,
    run_shift_scenario ci_series (Fin d) fzero strategy renewable_share n
    = Ok r
    /\ shifted_load r = baseline_load r.
Proof.
  intros Hh Hs.
  destruct (run_valid ci_series (Fin d) fzero strategy renewable_share n Hh Hs)
    as [r [T [Hr [_ [Hlen [_ [_ [_ [_ [_ [Hb [Hsh _]]]]]]]]]]]].
  exists r. split; [exact Hr |].
  rewrite Hsh. clear Hsh.
  assert (Hflex : forall t,
             flex_at t T
               (series_sum (map (fun b => (b * fzero)%fl) (baseline_load r))
                / of_nat (length T))%fl = fzero).
  { intros t. rewrite Hb, profile_values_Fin. unfold fzero at 1.
    rewrite total_flex_Fin.
    destruct T as [| t0 T]; [reflexivity |].
    rewrite per_hour_Fin by discriminate.
    assert (Hk := Qc_of_nat_neq0 (length (t0 :: T)) ltac:(discriminate)).
    set (k := Q2Qc (inject_Z (Z.of_nat (length (t0 :: T))))) in *.
    replace (sumQ _ * 0 / k)%Qc with 0%Qc; [apply flex_at_zero |].
    field. exact Hk. }
  rewrite (map_ext _ (fun row => snd row)).
  2:{ intros [t b]. cbn [fst snd]. rewrite Hflex, fadd_0_r, fsub_0_r.
      apply fmul_1_r. }
  fold (Series_values (combine (index r) (baseline_load r))).
  apply Series_values_mkSeries. rewrite Hlen, Hb.
  symmetry. apply profile_values_length.
Qed.

(** The theorem on [sample_day] with nothing flexible. *)
Lemma zero_flexible_share_witness :
  exists r,
    run_shift_scenario (srt := stable_kind) sample_day (of_Z 14) fzero
      "low_intensity" None 4 = Ok r
    /\ shifted_load r = baseline_load r.
Proof.
  apply (zero_flexible_share stable_kind stable_kind_spec).
  - split; [reflexivity | apply distinct_NoDup; vm_compute; reflexivity].
  - left. reflexivity.
Defined.

(** C10. [n_target_hours] is not checked against [1,24].  For every
    n_target_hours above 24 a run on otherwise valid inputs raises
    nothing and returns the 24 hours of the day with their loads, the
    baseline loads being the household profile: all 24 hours of the day
    are target hours, each receives the total flexible energy divided by
    24 (the number of hours selected, not n_target_hours), and the
    shifted loads still sum to the baseline loads, that is to the daily
    energy. *)
Theorem oversized_target_count (srt : PandasSort) (srt_ok : PandasSortSpec srt)
    (ci_series : Series) (d f : Qc) (strategy : string)
    (renewable_share : option Series) (n : Z) :
  hourly_series ci_series ->
  strategy_inputs strategy renewable_share ci_series ->
  (24 < n)%Z ->
  exists r T,
    run_shift_scenario ci_series (Fin d) (Fin f) strategy renewable_share n
    = Ok r
    /\ target_hours_of ci_series strategy renewable_share n = Ok T
    /\ Permutation T (index r) /\ length T = 24%nat
    /\ length (index r) = 24%nat /\ NoDup (index r)
    /\ Permutation (index r) (Series_index ci_series)
    /\ baseline_load r = Series_values (make_household_profile (Fin d))
    /\ length (baseline_load r) = 24%nat
    /\ length (shifted_load r) = 24%nat
    /\ (forall i b,
          nth_error (baseline_load r) i = Some b ->
          let total_flex :=
            series_sum (map (fun b => b * Fin f)%fl (baseline_load r)) in
          nth_error (shifted_load r) i
          = Some (b * (fone - Fin f) + total_flex / of_Z 24)%fl)
    /\ np_sum (shifted_load r) = np_sum (baseline_load r)
    /\ np_sum (baseline_load r) = Fin d.
Proof.
  intros Hh Hs Hn.
  destruct (run_valid ci_series (Fin d) (Fin f) strategy renewable_share n
              Hh Hs)
    as [r [T [Hr [Ht [Hlen [Hnd [HT [Hin [_ [HTp [Hb [Hsh _]]]]]]]]]]]].
  specialize (HTp ltac:(lia)).
  assert (HTlen : length T = 24%nat).
  { now rewrite (Permutation_length HTp). }
  destruct (run_Ok_inv _ _ _ _ _ _ _ Hr) as [Hl24 [rs' [T' [Hal Hch]]]].
  destruct (run_fields ci_series (Fin d) (Fin f) strategy
              renewable_share rs' n T' Hl24 Hal Hch) as [r' [Hr' [Hidx _]]].
  assert (r' = r) by congruence. subst r'.
  exists r, T.
  split; [exact Hr |]. split; [exact Ht |]. split; [exact HTp |].
  split; [exact HTlen |]. split; [exact Hlen |]. split; [exact Hnd |].
  split; [rewrite Hidx; apply sort_index_labels |].
  split; [exact Hb |].
  split; [rewrite Hb; apply profile_values_length |].
  split.
  { rewrite Hsh, length_map, length_combine, Hlen, Hb,
      profile_values_length. reflexivity. }
  split; [| split].
  - intros i b Hbi total_flex.
    assert (Hi : exists t, nth_error (index r) i = Some t).
    { destruct (nth_error (index r) i) as [t |] eqn:E; [eauto |].
      apply nth_error_None in E. rewrite Hlen in E.
      assert (i < length (baseline_load r))%nat
        by (apply nth_error_Some; congruence).
      rewrite Hb, profile_values_length in H. lia. }
    destruct Hi as [t Hti].
    rewrite Hsh.
    erewrite map_nth_error; [| apply nth_error_combine; eassumption].
    cbn [fst snd]. rewrite (flex_at_NoDup _ _ _ HT), HTlen.
    assert (Hm : mem t T = true).
    { apply mem_In. eapply Permutation_in; [symmetry; exact HTp |].
      eapply nth_error_In; eassumption. }
    rewrite Hm. reflexivity.
  - rewrite Hsh, Hb, profile_values_Fin, np_sum_Fin.
    apply shifted_sum_Fin; try assumption.
    intros ->. discriminate.
  - now rewrite Hb, profile_values_Fin, np_sum_Fin, profile_sum_Q.
Qed.

(** The theorem on [sample_day] with 30 target hours asked for. *)
Lemma oversized_target_count_witness :
  exists r T,
    run_shift_scenario (srt := stable_kind) sample_day (Fin (Q2Qc 14))
      (Fin (Q2Qc (3 # 10))) "low_intensity" None 30 = Ok r
    /\ target_hours_of (srt := stable_kind) sample_day "low_intensity" None 30
       = Ok T
    /\ Permutation T (index r) /\ length T = 24%nat
    /\ length (index r) = 24%nat /\ NoDup (index r)
    /\ Permutation (index r) (Series_index sample_day)
    /\ baseline_load r
       = Series_values (make_household_profile (Fin (Q2Qc 14)))
    /\ length (baseline_load r) = 24%nat
    /\ length (shifted_load r) = 24%nat
    /\ (forall i b,
          nth_error (baseline_load r) i = Some b ->
          let total_flex :=
            series_sum
              (map (fun b => b * Fin (Q2Qc (3 # 10)))%fl (baseline_load r)) in
          nth_error (shifted_load r) i
          = Some (b * (fone - Fin (Q2Qc (3 # 10)))
                  + total_flex / of_Z 24)%fl)
    /\ np_sum (shifted_load r) = np_sum (baseline_load r)
    /\ np_sum (baseline_load r) = Fin (Q2Qc 14).
Proof.
  apply (oversized_target_count stable_kind stable_kind_spec).
  - split; [reflexivity | apply distinct_NoDup; vm_compute; reflexivity].
  - left. reflexivity.
  - lia.
Defined.

(** C6. Wrong length.  For every carbon-intensity series whose length is
    not 24, [run_shift_scenario] raises the length error (the
    [ValueError] of line 81) and returns no result, whatever the other
    arguments are. *)
Theorem wrong_length_rejected (srt : PandasSort) (srt_ok : PandasSortSpec srt)
    (ci_series : Series) (daily_kwh flexible_share : float)
    (strategy : string) (renewable_share : option Series) (n : Z) :
  length ci_series <> 24%nat ->
  run_shift_scenario ci_series daily_kwh flexible_share strategy
    renewable_share n
  = Err (InvalidSeriesLengthError (length ci_series)).
Proof. apply run_wrong_length. Qed.

(** The theorem on the first 23 hours of [sample_day]. *)
Lemma wrong_length_rejected_witness :
  length (firstn 23 sample_day) <> 24%nat
  /\ run_shift_scenario (srt := stable_kind) (firstn 23 sample_day) (of_Z 14)
       (centi 30) "low_intensity" None 4
     = Err (InvalidSeriesLengthError (length (firstn 23 sample_day))).
Proof.
  split.
  - vm_compute. discriminate.
  - apply (wrong_length_rejected stable_kind stable_kind_spec).
    vm_compute. discriminate.
Defined.

(** C7, as the code has it.  On a 24-row series, "max_renewable" without
    a renewable-share series raises the missing-input error (the
    [ValueError] of line 87); under "low_intensity" the renewable-share
    argument is not read: the run does the same whatever is passed, and
    on distinct timestamps it returns a result without it. *)
Theorem renewable_share_requirement (srt : PandasSort)
    (srt_ok : PandasSortSpec srt) (ci_series : Series)
    (daily_kwh flexible_share : float) (renewable_share : option Series)
    (n : Z) :
  length ci_series = 24%nat ->
  run_shift_scenario ci_series daily_kwh flexible_share "max_renewable"
    None n = Err MissingInputError
  /\ run_shift_scenario ci_series daily_kwh flexible_share "low_intensity"
       renewable_share n
     = run_shift_scenario ci_series daily_kwh flexible_share "low_intensity"
         None n
  /\ (NoDup (Series_index ci_series) ->
      exists r,
        run_shift_scenario ci_series daily_kwh flexible_share "low_intensity"
          None n = Ok r).
Proof.
  intros Hlen. split; [| split].
  - unfold run_shift_scenario. rewrite sort_index_length, Hlen. reflexivity.
  - reflexivity.
  - intros _. destruct (run_fields ci_series daily_kwh flexible_share "low_intensity"
                None None n _ Hlen eq_refl eq_refl) as [r [Hr _]].
    now exists r.
Qed.

(** The theorem on [sample_day]. *)
Lemma renewable_share_requirement_witness :
  run_shift_scenario (srt := stable_kind) sample_day (of_Z 14) (centi 30)
    "max_renewable" None 4 = Err MissingInputError
  /\ run_shift_scenario (srt := stable_kind) sample_day (of_Z 14) (centi 30)
       "low_intensity" (Some sample_share) 4
     = run_shift_scenario (srt := stable_kind) sample_day (of_Z 14) (centi 30)
         "low_intensity" None 4
  /\ exists r,
       run_shift_scenario (srt := stable_kind) sample_day (of_Z 14) (centi 30)
         "low_intensity" None 4 = Ok r.
Proof.
  destruct (renewable_share_requirement stable_kind stable_kind_spec
              sample_day (of_Z 14) (centi 30) (Some sample_share) 4 eq_refl)
    as [H1 [H2 H3]].
  split; [exact H1 |]. split; [exact H2 |].
  apply H3. apply distinct_NoDup. vm_compute. reflexivity.
Defined.

(** C7, as stated, fails on a series of the wrong length: the length
    check of line 80 comes before the check of line 86, so a 23-row
    series under "max_renewable" with no renewable-share series raises
    the length error, not the missing-input error. *)
Lemma missing_input_after_length_check :
  run_shift_scenario (srt := stable_kind) (firstn 23 sample_day) (of_Z 14)
    (centi 30) "max_renewable" None 4
  = Err (InvalidSeriesLengthError 23)
  /\ run_shift_scenario (srt := stable_kind) (firstn 23 sample_day) (of_Z 14)
       (centi 30) "max_renewable" None 4
     <> Err MissingInputError.
Proof.
  assert (H : run_shift_scenario (srt := stable_kind) (firstn 23 sample_day)
                (of_Z 14) (centi 30) "max_renewable" None 4
              = Err (InvalidSeriesLengthError 23)).
  { rewrite (run_wrong_length (srt_ok := stable_kind_spec)).
    - reflexivity.
    - vm_compute. discriminate. }
  split; [exact H | rewrite H; discriminate].
Qed.

(** C8. Profile scaling.  For every finite daily energy (in particular
    every dailyEnergy > 0) the profile generator returns 24 values on the
    hours 0..23, the value of hour h is
    rawWeights[h] * dailyEnergy / sum(rawWeights), which is
    rawWeights[h] * scale for scale = dailyEnergy / sum(rawWeights), and
    the values sum to dailyEnergy. *)
Theorem profile_scaling (d : Qc) :
  let profile := make_household_profile (Fin d) in
  Series_index profile = range 24
  /\ length profile = 24%nat
  /\ (forall h w,
        nth_error HOUSEHOLD_PROFILE_RAW h = Some w ->
        nth_error (Series_values profile) h
        = Some (w * Fin d / np_sum HOUSEHOLD_PROFILE_RAW)%fl
        /\ nth_error (Series_values profile) h
           = Some (w * (Fin d / np_sum HOUSEHOLD_PROFILE_RAW))%fl)
  /\ np_sum (Series_values profile) = Fin d.
Proof.
  intros profile. subst profile.
  split; [apply profile_index |].
  split; [reflexivity |].
  split; [intros h w H; split |].
  - rewrite HOUSEHOLD_PROFILE_RAW_Fin in H. rewrite nth_error_map in H.
    destruct (nth_error RAW_Q h) as [q |] eqn:E; [| discriminate].
    injection H as <-.
    rewrite profile_values_Fin, HOUSEHOLD_PROFILE_RAW_Fin, np_sum_Fin.
    rewrite nth_error_map, nth_error_map, E. cbn [option_map fmul fdiv].
    destruct (Qc_eqb (sumQ RAW_Q) 0) eqn:E0.
    { apply Qc_eqb_eq in E0. now destruct RAW_Q_sum_neq0. }
    do 2 f_equal. field. apply RAW_Q_sum_neq0.
  - rewrite profile_values.
    exact (map_nth_error
             (fun w => (w * (Fin d / np_sum HOUSEHOLD_PROFILE_RAW))%fl)
             h HOUSEHOLD_PROFILE_RAW H).
  - rewrite profile_values_Fin, np_sum_Fin. f_equal. apply profile_sum_Q.
Qed.






(* ================================================================= *)
(** ** The renewable-share calculator *)

Lemma Qc_ltb_false (p q : Qc) : Qc_ltb p q = false -> Qc_leb q p = true.
Proof.
  intros E. apply Qc_leb_le, Qcnot_lt_le. intros H.
  apply Qc_ltb_lt in H. congruence.
Qed.

(** [clip(0, 1)] brings every value but NaN into [0,1]. *)
Lemma clip_unit_range (x : float) :
  is_nan x = false ->
  fle fzero (clip fzero fone x) = true /\ fle (clip fzero fone x) fone = true.
Proof.
  destruct x as [q | [] | ]; try discriminate; intros _;
    unfold clip, fzero, fone; cbn [is_nan flt negb];
    try (split; reflexivity).
  destruct (Qc_ltb q 0) eqn:E0; [split; reflexivity |].
  destruct (Qc_ltb 1 q) eqn:E1; [split; reflexivity |].
  cbn [fle]. split; now apply Qc_ltb_false.
Qed.

Lemma compute_renewable_share_rows (df_day : list mix_row) :
  compute_renewable_share df_day
  = map (fun r =>
           (timestamp r, clip fzero fone (RENEWABLE r / GENERATION r)%fl))
      df_day.
Proof. unfold compute_renewable_share. now rewrite map_map. Qed.

(** Every share the calculator returns is within [0,1], unless the
    quotient RENEWABLE / GENERATION is NaN, which the clip passes on. *)
Lemma renewable_share_range (df_day : list mix_row) (row : label * float) :
  In row (compute_renewable_share df_day) ->
  snd row = NaN
  \/ (fle fzero (snd row) = true /\ fle (snd row) fone = true).
Proof.
  rewrite compute_renewable_share_rows, in_map_iff.
  intros [r [<- _]]. cbn [snd].
  destruct (is_nan (RENEWABLE r / GENERATION r)%fl) eqn:E.
  - left. unfold clip. now rewrite E.
  - right. now apply clip_unit_range.
Qed.

(** The clipping example of the specification: RENEWABLE = 120 on
    GENERATION = 100 gives the share 1, not 1.2. *)
Lemma renewable_share_clipped :
  compute_renewable_share
    [ {| timestamp := 0%Z; RENEWABLE := of_Z 120; GENERATION := of_Z 100 |} ]
  = [ (0%Z, fone) ].
Proof. vm_compute. reflexivity. Qed.

(** C5 fails on the code: an hour with GENERATION = 0 and RENEWABLE = 0
    has the share 0/0 = NaN, and the clip leaves a NaN as it is, so the
    calculator returns a NaN where the claim promises a number in [0,1]. *)
Theorem renewable_share_zero_generation :
  compute_renewable_share
    [ {| timestamp := 0%Z; RENEWABLE := fzero; GENERATION := fzero |} ]
  = [ (0%Z, NaN) ].
Proof. vm_compute. reflexivity. Qed.

(* ================================================================= *)
(** ** The selection of target hours *)

Lemma value_order_antisym (asc : bool) (x y : float) :
  value_order asc x y = true -> value_order asc y x = true -> x = y.
Proof.
  unfold value_order.
  destruct (is_nan y) eqn:Hy.
  - destruct (is_nan x) eqn:Hx; [| discriminate].
    destruct x, y; try discriminate. reflexivity.
  - destruct (is_nan x) eqn:Hx; [discriminate |].
    destruct asc; intros H1 H2; [| symmetry]; now apply fle_antisym.
Qed.

Lemma StronglySorted_app_cross {A} (R : A -> A -> Prop) (l1 l2 : list A) :
  StronglySorted R (l1 ++ l2) ->
  forall a b, In a l1 -> In b l2 -> R a b.
Proof.
  induction l1 as [| x l1 IH]; simpl; intros Hs a b Ha Hb; [contradiction |].
  inversion Hs as [| ? ? Hs' Hx]; subst.
  destruct Ha as [<- | Ha].
  - rewrite Forall_forall in Hx. apply Hx, in_or_app. now right.
  - now apply IH.
Qed.

(** A list has at most one sorted arrangement when the order is
    antisymmetric on its elements. *)
Lemma sorted_perm_unique {A} (R : A -> A -> Prop) (l1 l2 : list A) :
  (forall a b, In a l1 -> In b l1 -> R a b -> R b a -> a = b) ->
  StronglySorted R l1 -> StronglySorted R l2 -> Permutation l1 l2 ->
  l1 = l2.
Proof.
  revert l2. induction l1 as [| a l1 IH]; intros l2 Hanti H1 H2 Hp.
  - apply Permutation_nil in Hp. now subst.
  - destruct l2 as [| b l2].
    { apply Permutation_sym, Permutation_nil in Hp. discriminate. }
    inversion H1 as [| ? ? H1' Ha]; subst.
    inversion H2 as [| ? ? H2' Hb]; subst.
    rewrite Forall_forall in Ha, Hb.
    assert (Hab : a = b).
    { assert (Ia : In a (b :: l2)).
      { eapply Permutation_in; [exact Hp | now left]. }
      assert (Ib : In b (a :: l1)).
      { eapply Permutation_in; [symmetry; exact Hp | now left]. }
      destruct Ia as [-> | Ia]; [reflexivity |].
      destruct Ib as [-> | Ib]; [reflexivity |].
      apply Hanti; [now left | now right | now apply Ha | now apply Hb]. }
    subst b. f_equal. apply IH; try assumption.
    + intros x y Hx Hy. apply Hanti; now right.
    + now apply Permutation_cons_inv in Hp.
Qed.

Lemma NoDup_map_inj {A B} (f : A -> B) (l : list A) (a b : A) :
  NoDup (map f l) -> In a l -> In b l -> f a = f b -> a = b.
Proof.
  induction l as [| x l IH]; simpl; intros Hnd Ha Hb Hf; [contradiction |].
  inversion Hnd as [| ? ? Hn Hnd']; subst.
  destruct Ha as [-> | Ha], Hb as [-> | Hb]; auto.
  - exfalso. apply Hn. rewrite Hf. now apply in_map.
  - exfalso. apply Hn. rewrite <- Hf. now apply in_map.
Qed.

Section SelectionFacts.

Context {srt : PandasSort} {srt_ok : PandasSortSpec srt}.

(** On distinct timestamps every sort by timestamp gives the same rows. *)
Lemma sort_index_day_order (s : Series) :
  NoDup (Series_index s) -> sort_index s = day_order s.
Proof.
  intros Hnd. apply sorted_perm_unique with (R := fun a b => row_by_label a b = true).
  - intros a b Ha Hb Hab Hba. unfold row_by_label in *.
    apply Z.leb_le in Hab, Hba.
    apply (NoDup_map_inj fst (sort_index s)); try assumption; [| lia].
    eapply Permutation_NoDup; [symmetry; apply sort_index_labels | exact Hnd].
  - apply sort_index_sorted.
  - apply isort_sorted; [apply row_by_label_total | apply row_by_label_trans].
  - rewrite sort_index_perm. symmetry. apply isort_perm.
Qed.

(** The head of a sorted series ranks first; with distinct key values it
    is the selection of the specification. *)
Lemma head_selects (asc : bool) (key key' : Series) (n : Z) :
  Permutation key' key -> (0 <= n <= Z.of_nat (length key))%Z ->
  let T := slice_to (Series_index (sort_values asc key')) n in
  selects asc key (Z.to_nat n) T
  /\ (NoDup (Series_values key) -> T = spec_target_hours asc key (Z.to_nat n)).
Proof.
  intros Hp Hn T.
  assert (HL : Permutation (sort_values asc key') key).
  { now rewrite sort_values_perm. }
  assert (HT : T = Series_index (firstn (Z.to_nat n) (sort_values asc key'))).
  { subst T. unfold Series_index. rewrite <- firstn_map.
    apply slice_to_within. rewrite length_map, (Permutation_length HL). lia. }
  split.
  - exists (firstn (Z.to_nat n) (sort_values asc key')),
           (skipn (Z.to_nat n) (sort_values asc key')).
    split; [now rewrite firstn_skipn |].
    split; [exact HT |].
    split; [apply firstn_length_le; rewrite (Permutation_length HL); lia |].
    apply StronglySorted_app_cross. rewrite firstn_skipn.
    apply sort_values_sorted.
  - intros Hnd. rewrite HT. unfold spec_target_hours, Series_index.
    rewrite <- firstn_map. do 2 f_equal.
    apply sorted_perm_unique
      with (R := fun a b => row_by_value asc a b = true).
    + intros a b Ha Hb Hab Hba.
      apply (NoDup_map_inj snd (sort_values asc key')); try assumption.
      * eapply Permutation_NoDup; [| exact Hnd].
        symmetry. apply Permutation_map, HL.
      * eapply value_order_antisym; eassumption.
    + apply sort_values_sorted.
    + apply isort_sorted;
        [apply row_by_value_total | apply row_by_value_trans].
    + rewrite HL. symmetry. apply isort_perm.
Qed.

End SelectionFacts.

Lemma sorted_rows_labels (s : Series) :
  StronglySorted (fun a b => row_by_label a b = true) s
  <-> StronglySorted (fun x y => (x <=? y)%Z = true) (Series_index s).
Proof.
  unfold Series_index, row_by_label.
  induction s as [| a s IH]; simpl; split; intros H; try constructor;
    inversion H as [| ? ? Hs Ha]; subst.
  - now apply IH.
  - rewrite Forall_map. exact Ha.
  - now apply IH.
  - rewrite Forall_map in Ha. exact Ha.
Qed.

(** Rows already in timestamp order, on distinct timestamps, are left as
    they are by a sort on the timestamps. *)
Lemma day_order_sorted (s : Series) :
  StronglySorted (fun a b => row_by_label a b = true) s ->
  NoDup (Series_index s) -> day_order s = s.
Proof.
  intros Hs Hnd. unfold day_order.
  apply sorted_perm_unique with (R := fun a b => row_by_label a b = true).
  - intros a b Ha Hb Hab Hba. unfold row_by_label in *.
    apply Z.leb_le in Hab, Hba.
    apply (NoDup_map_inj fst (isort row_by_label s)); try assumption; [| lia].
    eapply Permutation_NoDup; [| exact Hnd].
    symmetry. apply Permutation_map, isort_perm.
  - apply isort_sorted; [apply row_by_label_total | apply row_by_label_trans].
  - exact Hs.
  - apply isort_perm.
Qed.

(** With [kind='stable'] the program selects the hours the specification
    names, ties included. *)
Lemma stable_kind_matches_spec (ci_series : Series) (strategy : string)
    (renewable_share : option Series) (n : Z) :
  hourly_series ci_series ->
  strategy_inputs strategy renewable_share ci_series ->
  (0 <= n <= 24)%Z ->
  exists asc key,
    sort_key strategy ci_series renewable_share = Some (asc, key)
    /\ target_hours_of (srt := stable_kind) ci_series strategy
         renewable_share n
       = Ok (spec_target_hours asc key (Z.to_nat n)).
Proof.
  intros [Hlen Hnd] Hs Hn.
  assert (Hlen' : length (day_order ci_series) = 24%nat).
  { unfold day_order. now rewrite (Permutation_length (isort_perm _ _ _)). }
  assert (Hnd' : NoDup (Series_index (day_order ci_series))).
  { eapply Permutation_NoDup; [| exact Hnd].
    symmetry. apply Permutation_map, isort_perm. }
  unfold target_hours_of. cbn [sort_index stable_kind].
  fold (day_order ci_series). rewrite Hlen'. cbn [Nat.eqb negb].
  destruct Hs as [-> | [-> [rs [-> [Hrs Hin]]]]].
  - exists true, (day_order ci_series). split; [reflexivity |].
    cbn [align_renewable_share choose_target_hours String.eqb Ascii.eqb
         Bool.eqb bind sort_values stable_kind].
    f_equal. apply slice_to_within.
    unfold Series_index.
    rewrite length_map, (Permutation_length (isort_perm _ _ _)), Hlen'. lia.
  - destruct (loc_aligned rs (Series_index (day_order ci_series)) Hrs)
      as [key [Hloc Hkey]].
    { intros x Hx. apply Hin.
      eapply Permutation_in; [| exact Hx].
      apply Permutation_map, isort_perm. }
    exists false, key. split.
    { unfold sort_key. cbn [String.eqb Ascii.eqb Bool.eqb]. now rewrite Hloc. }
    unfold align_renewable_share. cbn [String.eqb Ascii.eqb Bool.eqb].
    rewrite Hloc.
    cbn [bind choose_target_hours String.eqb Ascii.eqb Bool.eqb sort_index
         sort_values stable_kind].
    fold (day_order key). rewrite day_order_sorted.
    + f_equal. apply slice_to_within. unfold Series_index.
      rewrite length_map, (Permutation_length (isort_perm _ _ _)).
      rewrite <- (length_map fst key). fold (Series_index key).
      rewrite Hkey. unfold Series_index. rewrite length_map, Hlen'. lia.
    + apply sorted_rows_labels. rewrite Hkey. apply sorted_rows_labels.
      apply isort_sorted; [apply row_by_label_total | apply row_by_label_trans].
    + now rewrite Hkey.
Qed.

(** C2, as the code has it.  On valid inputs the target hours are
    targetHourCount hours of the day that rank first by the key of the
    strategy, carbon intensity ascending or renewable share descending:
    no hour left out has a smaller carbon intensity (a larger renewable
    share) than a chosen one.  When the key values of the day are
    pairwise distinct they are exactly the hours the specification
    names.  Which of several hours with equal keys are chosen is left to
    the sort: the program asks for no stable sort. *)
Theorem target_hours_rank_first (srt : PandasSort)
    (srt_ok : PandasSortSpec srt) (ci_series : Series) (strategy : string)
    (renewable_share : option Series) (n : Z) :
  hourly_series ci_series ->
  strategy_inputs strategy renewable_share ci_series ->
  (1 <= n <= 24)%Z ->
  exists asc key T,
    sort_key strategy ci_series renewable_share = Some (asc, key)
    /\ target_hours_of ci_series strategy renewable_share n = Ok T
    /\ selects asc key (Z.to_nat n) T
    /\ (NoDup (Series_values key) ->
        T = spec_target_hours asc key (Z.to_nat n)).
Proof.
  intros Hh Hs Hn. pose proof Hh as [Hlen Hnd].
  assert (Hcs := sort_index_day_order ci_series Hnd).
  assert (Hlen' : length (sort_index ci_series) = 24%nat).
  { now rewrite sort_index_length. }
  unfold target_hours_of. rewrite Hlen'. cbn [Nat.eqb negb].
  destruct Hs as [-> | [-> [rs [-> [Hrs Hin]]]]].
  - exists true, (day_order ci_series),
      (slice_to (Series_index (sort_values true (sort_index ci_series))) n).
    split; [reflexivity |]. split; [reflexivity |].
    apply head_selects.
    + now rewrite Hcs.
    + rewrite <- Hcs, Hlen'. lia.
  - destruct (loc_aligned rs (Series_index (sort_index ci_series)) Hrs)
      as [key [Hloc Hkey]].
    { intros x Hx. apply Hin.
      eapply Permutation_in; [apply sort_index_labels | exact Hx]. }
    exists false, key,
      (slice_to (Series_index (sort_values false (sort_index key))) n).
    split.
    { unfold sort_key. cbn [String.eqb Ascii.eqb Bool.eqb].
      now rewrite <- Hcs, Hloc. }
    split.
    { unfold align_renewable_share. cbn [String.eqb Ascii.eqb Bool.eqb].
      rewrite Hloc. reflexivity. }
    apply head_selects.
    + apply sort_index_perm.
    + assert (length key = 24%nat).
      { rewrite <- (Series_index_length key), Hkey.
        now rewrite Series_index_length. }
      lia.
Qed.

(** The theorem on [sample_day] under "max_renewable" with
    [sample_share]. *)
Lemma target_hours_rank_first_witness :
  exists asc key T,
    sort_key "max_renewable" sample_day (Some sample_share) = Some (asc, key)
    /\ target_hours_of (srt := stable_kind) sample_day "max_renewable"
         (Some sample_share) 4 = Ok T
    /\ selects asc key (Z.to_nat 4) T
    /\ (NoDup (Series_values key) ->
        T = spec_target_hours asc key (Z.to_nat 4)).
Proof.
  apply (target_hours_rank_first stable_kind stable_kind_spec).
  - split; [reflexivity | apply distinct_NoDup; vm_compute; reflexivity].
  - right. split; [reflexivity |]. exists sample_share.
    split; [reflexivity |].
    split; [apply distinct_NoDup | apply forallb_mem_incl];
      vm_compute; reflexivity.
  - lia.
Defined.

(** C2, as stated, fails on ties.  On [sample_day] the hours 12, 13 and
    14 share the lowest carbon intensity and two target hours are asked
    for.  The specification takes the hours 12 and 13, the earliest; a
    sort that meets the contract of [sort_values] and puts equal keys in
    another order makes the program take the hours 14 and 13. *)
Lemma tie_break_not_stable :
  PandasSortSpec reversing_kind
  /\ hourly_series sample_day
  /\ sort_key "low_intensity" sample_day None
     = Some (true, day_order sample_day)
  /\ spec_target_hours true (day_order sample_day) 2 = [12; 13]%Z
  /\ target_hours_of (srt := reversing_kind) sample_day "low_intensity" None 2
     = Ok [14; 13]%Z.
Proof.
  split; [exact reversing_kind_spec |].
  split; [split; [reflexivity | apply distinct_NoDup; vm_compute; reflexivity] |].
  split; [reflexivity |].
  split; vm_compute; reflexivity.
Qed.

(* ================================================================= *)
(** * Further properties of the code *)

(* ================================================================= *)
(** ** Which runs return, and what the others raise *)

(** [.loc] raises nothing but [KeyError]. *)
Lemma loc_Err (s : Series) (idx : list label) (e : error) :
  loc s idx = Err e -> e = KeyError.
Proof.
  induction idx as [| t idx IH]; simpl; [discriminate |].
  destruct (filter (fun r => (fst r =? t)%Z) s) as [| row rows];
    [now intros [= <-] |].
  destruct (loc s idx) as [rest | e']; cbn [bind]; [discriminate |].
  intros [= <-]. now apply IH.
Qed.

(** [.loc] returns exactly when the series carries every requested
    label. *)
Lemma loc_Ok_iff (s : Series) (idx : list label) :
  (exists s', loc s idx = Ok s') <-> incl idx (Series_index s).
Proof.
  induction idx as [| t idx IH]; simpl.
  - split; [intros _ x [] | intros _; now exists []].
  - destruct (filter (fun r => (fst r =? t)%Z) s) as [| row rows] eqn:E.
    + split; [intros [s' H]; discriminate |].
      intros H. exfalso.
      assert (Ht : In t (Series_index s)) by (apply H; now left).
      unfold Series_index in Ht. apply in_map_iff in Ht.
      destruct Ht as [r [Hr Hin]].
      assert (G : In r (filter (fun r => (fst r =? t)%Z) s)).
      { apply filter_In. split; [assumption | now apply Z.eqb_eq]. }
      now rewrite E in G.
    + assert (Ht : In t (Series_index s)).
      { assert (G : In row (filter (fun r => (fst r =? t)%Z) s))
          by (rewrite E; now left).
        apply filter_In in G. destruct G as [G1 G2].
        apply Z.eqb_eq in G2. subst t. now apply in_map. }
      split.
      * intros [s' H]. destruct (loc s idx) as [rest |]; [| discriminate].
        intros x [<- | Hx]; [assumption |].
        apply (proj1 IH); [now exists rest | assumption].
      * intros H. destruct (proj2 IH) as [rest ->].
        { intros x Hx. apply H. now right. }
        cbn [bind]. eauto.
Qed.

Lemma loc_missing (s : Series) (idx : list label) :
  ~ incl idx (Series_index s) -> loc s idx = Err KeyError.
Proof.
  intros H. destruct (loc s idx) as [s' | e] eqn:E.
  - exfalso. apply H, loc_Ok_iff. now exists s'.
  - now rewrite (loc_Err _ _ _ E).
Qed.

Section Outcomes.

Context {srt : PandasSort} {srt_ok : PandasSortSpec srt}.

Lemma incl_sorted_index (ci_series s : Series) :
  incl (Series_index (sort_index ci_series)) (Series_index s)
  <-> incl (Series_index ci_series) (Series_index s).
Proof.
  split; intros H x Hx; apply H.
  - eapply Permutation_in; [symmetry; apply sort_index_labels | exact Hx].
  - eapply Permutation_in; [apply sort_index_labels | exact Hx].
Qed.

(** Lines 85-107 on a 24-row series, case by case. *)
Lemma run_cases (ci_series : Series) (daily_kwh flexible_share : float)
    (strategy : string) (renewable_share : option Series) (n : Z) :
  length ci_series = 24%nat ->
  let run := run_shift_scenario ci_series daily_kwh flexible_share strategy
               renewable_share n in
  (strategy = "low_intensity"%string -> exists r, run = Ok r)
  /\ (strategy = "max_renewable"%string ->
      match renewable_share with
      | None => run = Err MissingInputError
      | Some s =>
          (incl (Series_index ci_series) (Series_index s) ->
           exists r, run = Ok r)
          /\ (~ incl (Series_index ci_series) (Series_index s) ->
              run = Err KeyError)
      end)
  /\ (strategy <> "low_intensity"%string ->
      strategy <> "max_renewable"%string ->
      run = Err InvalidStrategyError).
Proof.
  intros Hlen run. subst run. split; [| split].
  - intros ->.
    destruct (run_fields ci_series daily_kwh flexible_share "low_intensity"
                renewable_share renewable_share n _ Hlen eq_refl eq_refl)
      as [r [Hr _]].
    now exists r.
  - intros ->. destruct renewable_share as [s |].
    + split; intros H.
      * destruct (proj2 (loc_Ok_iff s (Series_index (sort_index ci_series))))
          as [s' Hs'].
        { now apply incl_sorted_index. }
        destruct (run_fields ci_series daily_kwh flexible_share "max_renewable"
                    (Some s) (Some (sort_index s')) n
                    (slice_to (Series_index (sort_values false (sort_index s')))
                       n) Hlen) as [r [Hr _]].
        { unfold align_renewable_share. cbn [String.eqb Ascii.eqb Bool.eqb].
          now rewrite Hs'. }
        { reflexivity. }
        now exists r.
      * unfold run_shift_scenario. rewrite sort_index_length, Hlen.
        cbn [Nat.eqb negb]. unfold align_renewable_share.
        cbn [String.eqb Ascii.eqb Bool.eqb].
        rewrite loc_missing; [reflexivity |].
        intros G. now apply H, incl_sorted_index.
    + unfold run_shift_scenario. rewrite sort_index_length, Hlen. reflexivity.
  - intros Hl Hm. apply String.eqb_neq in Hl, Hm.
    unfold run_shift_scenario. rewrite sort_index_length, Hlen.
    cbn [Nat.eqb negb]. unfold align_renewable_share. rewrite Hm.
    cbn [bind]. unfold choose_target_hours. rewrite Hl, Hm. reflexivity.
Qed.

End Outcomes.

(** X1. A strategy other than the two the engine knows is rejected, on any
    24-row series and whatever the other arguments are: the [ValueError]
    of line 107.  The comparison is by string equality, so the names are
    case sensitive. *)
Theorem invalid_strategy_rejected (srt : PandasSort)
    (srt_ok : PandasSortSpec srt) (ci_series : Series)
    (daily_kwh flexible_share : float) (strategy : string)
    (renewable_share : option Series) (n : Z) :
  length ci_series = 24%nat ->
  strategy <> "low_intensity"%string ->
  strategy <> "max_renewable"%string ->
  run_shift_scenario ci_series daily_kwh flexible_share strategy
    renewable_share n
  = Err InvalidStrategyError.
Proof.
  intros Hlen Hl Hm.
  exact (proj2 (proj2 (run_cases ci_series daily_kwh flexible_share strategy
                         renewable_share n Hlen)) Hl Hm).
Qed.

(** The theorem on [sample_day] for the strategy name in capitals. *)
Lemma invalid_strategy_rejected_witness :
  run_shift_scenario (srt := stable_kind) sample_day (of_Z 14) (centi 30)
    "LOW_INTENSITY" (Some sample_share) 4
  = Err InvalidStrategyError.
Proof.
  apply (invalid_strategy_rejected stable_kind stable_kind_spec).
  - reflexivity.
  - discriminate.
  - discriminate.
Defined.

(** X2. Under "max_renewable", on a 24-row series, the run raises [KeyError]
    (from [.loc] on line 88) exactly when the renewable-share series
    lacks a timestamp of the day. *)
Theorem missing_share_label (srt : PandasSort)
    (srt_ok : PandasSortSpec srt) (ci_series : Series)
    (daily_kwh flexible_share : float) (rs : Series) (n : Z) :
  length ci_series = 24%nat ->
  (run_shift_scenario ci_series daily_kwh flexible_share "max_renewable"
     (Some rs) n = Err KeyError
   <-> ~ incl (Series_index ci_series) (Series_index rs)).
Proof.
  intros Hlen.
  destruct (proj1 (proj2 (run_cases ci_series daily_kwh flexible_share
                            "max_renewable" (Some rs) n Hlen)) eq_refl)
    as [Hok Hkey].
  split; [| exact Hkey].
  intros E Hin. destruct (Hok Hin) as [r Hr]. congruence.
Qed.

(** The theorem on [sample_day] with the shares of its first 23 hours
    only. *)
Lemma missing_share_label_witness :
  run_shift_scenario (srt := stable_kind) sample_day (of_Z 14) (centi 30)
    "max_renewable" (Some (firstn 23 sample_share)) 4 = Err KeyError
  <-> ~ incl (Series_index sample_day) (Series_index (firstn 23 sample_share)).
Proof.
  apply (missing_share_label stable_kind stable_kind_spec). reflexivity.
Defined.

(** X3. The inputs the engine accepts.  On distinct timestamps a run returns
    a result exactly when the series has 24 rows and the strategy is
    "low_intensity", or
    "max_renewable" with a renewable-share series that carries every
    timestamp of the day; [daily_kwh], [flexible_share] and
    [n_target_hours] are never a reason to refuse.  A run that returns
    no result raises one of four errors: the three [ValueError]s of lines
    81, 87 and 107 or the [KeyError] of line 88. *)
Theorem accepted_inputs (srt : PandasSort) (srt_ok : PandasSortSpec srt)
    (ci_series : Series) (daily_kwh flexible_share : float)
    (strategy : string) (renewable_share : option Series) (n : Z) :
  NoDup (Series_index ci_series) ->
  ((exists r,
       run_shift_scenario ci_series daily_kwh flexible_share strategy
         renewable_share n = Ok r)
   <-> length ci_series = 24%nat
       /\ (strategy = "low_intensity"%string
           \/ (strategy = "max_renewable"%string
               /\ exists rs,
                    renewable_share = Some rs
                    /\ incl (Series_index ci_series) (Series_index rs))))
  /\ (forall e,
        run_shift_scenario ci_series daily_kwh flexible_share strategy
          renewable_share n = Err e ->
        e = InvalidSeriesLengthError (length ci_series)
        \/ e = MissingInputError \/ e = KeyError
        \/ e = InvalidStrategyError).
Proof.
  intros _.
  destruct (Nat.eq_dec (length ci_series) 24) as [Hlen | Hlen].
  2:{ rewrite (run_wrong_length _ _ _ _ _ _ Hlen). split.
      - split; [intros [r H]; discriminate | intros [H _]; contradiction].
      - intros e [= <-]. now left. }
  destruct (run_cases ci_series daily_kwh flexible_share strategy
              renewable_share n Hlen) as [Hlow [Hmax Hother]].
  destruct (String.eqb_spec strategy "low_intensity") as [El | El].
  { destruct (Hlow El) as [r Hr]. rewrite Hr. split.
    - split; [intros _; split; [assumption | now left] | intros _; eauto].
    - discriminate. }
  destruct (String.eqb_spec strategy "max_renewable") as [Em | Em].
  2:{ rewrite (Hother El Em). split.
      - split; [intros [r H]; discriminate |].
        intros [_ [H | [H _]]]; contradiction.
      - intros e [= <-]. auto. }
  specialize (Hmax Em). destruct renewable_share as [rs |].
  - destruct Hmax as [Hok Hkey].
    assert (D : incl (Series_index ci_series) (Series_index rs)
                \/ ~ incl (Series_index ci_series) (Series_index rs)).
    { destruct (forallb (fun t => mem t (Series_index rs))
                  (Series_index ci_series)) eqn:E.
      - left. now apply forallb_mem_incl.
      - right. intros H. apply not_true_iff_false in E. apply E.
        apply forallb_forall. intros x Hx. apply mem_In. now apply H. }
    destruct D as [Hin | Hnin].
    + destruct (Hok Hin) as [r Hr]. rewrite Hr. split; [| discriminate].
      split; [| intros _; eauto].
      intros _. split; [assumption |]. right. split; [assumption |]. eauto.
    + rewrite (Hkey Hnin). split.
      * split; [intros [r H]; discriminate |].
        intros [_ [H | [_ [rs' [[= <-] H]]]]]; contradiction.
      * intros e [= <-]. auto.
  - rewrite Hmax. split.
    + split; [intros [r H]; discriminate |].
      intros [_ [H | [_ [rs' [H _]]]]]; [contradiction | discriminate].
    + intros e [= <-]. auto.
Qed.

(** The theorem on [sample_day] under "max_renewable". *)
Lemma accepted_inputs_witness :
  ((exists r,
       run_shift_scenario (srt := stable_kind) sample_day (of_Z 14) (centi 30)
         "max_renewable" (Some sample_share) 4 = Ok r)
   <-> length sample_day = 24%nat
       /\ ("max_renewable"%string = "low_intensity"%string
           \/ ("max_renewable"%string = "max_renewable"%string
               /\ exists rs,
                    Some sample_share = Some rs
                    /\ incl (Series_index sample_day) (Series_index rs))))
  /\ (forall e,
        run_shift_scenario (srt := stable_kind) sample_day (of_Z 14) (centi 30)
          "max_renewable" (Some sample_share) 4 = Err e ->
        e = InvalidSeriesLengthError (length sample_day)
        \/ e = MissingInputError \/ e = KeyError
        \/ e = InvalidStrategyError).
Proof.
  apply (accepted_inputs stable_kind stable_kind_spec sample_day (of_Z 14)
           (centi 30) "max_renewable" (Some sample_share) 4).
  apply distinct_NoDup. vm_compute. reflexivity.
Defined.

(* ================================================================= *)
(** ** The shape of a result *)
Lemma map_fst_combine {A B} (l1 : list A) (l2 : list B) :
  length l1 = length l2 -> map fst (combine l1 l2) = l1.
Proof.
  revert l2. induction l1 as [| a l1 IH]; intros [| b l2] H; simpl in *;
    try discriminate; [reflexivity |].
  f_equal. apply IH. congruence.
Qed.

Lemma combine_fst_snd {A B} (l : list (A * B)) :
  combine (map fst l) (map snd l) = l.
Proof.
  induction l as [| [a b] l IH]; simpl; [reflexivity | now rewrite IH].
Qed.

Lemma mul_arrays_length (a b : list float) :
  length a = length b -> length (mul_arrays a b) = length a.
Proof.
  intros H. unfold mul_arrays. rewrite length_map, length_combine. lia.
Qed.

Lemma sorted_index_le (s : Series) :
  StronglySorted (fun a b => row_by_label a b = true) s ->
  StronglySorted Z.le (Series_index s).
Proof.
  unfold Series_index.
  induction 1 as [| a l _ IH Ha]; simpl; constructor; [exact IH |].
  rewrite Forall_map. eapply Forall_impl; [| exact Ha].
  intros b Hab. unfold row_by_label in Hab. now apply Z.leb_le.
Qed.

Section Shape.

Context {srt : PandasSort} {srt_ok : PandasSortSpec srt}.

(** The two emission arrays of a returned dictionary. *)
Lemma run_emissions (ci_series : Series) (daily_kwh flexible_share : float)
    (strategy : string) (renewable_share : option Series) (n : Z)
    (r : ScenarioResult) :
  run_shift_scenario ci_series daily_kwh flexible_share strategy
    renewable_share n = Ok r ->
  baseline_emissions r = mul_arrays (baseline_load r) (ci r)
  /\ shifted_emissions r = mul_arrays (shifted_load r) (ci r)
  /\ total_baseline_emissions r = np_sum (baseline_emissions r)
  /\ total_shifted_emissions r = np_sum (shifted_emissions r).
Proof.
  unfold run_shift_scenario.
  destruct (negb _); [discriminate |].
  destruct (align_renewable_share _ _ _) as [rs' |]; cbn [bind];
    [| discriminate].
  destruct (choose_target_hours _ _ _ _) as [T |]; cbn [bind];
    [| discriminate].
  intros [= <-]. cbn. repeat split; reflexivity.
Qed.

(** Any returned dictionary, fields taken from [run_fields]. *)
Lemma run_Ok_fields (ci_series : Series) (daily_kwh flexible_share : float)
    (strategy : string) (renewable_share : option Series) (n : Z)
    (r : ScenarioResult) :
  run_shift_scenario ci_series daily_kwh flexible_share strategy
    renewable_share n = Ok r ->
  exists target_hours,
    length ci_series = 24%nat
    /\ index r = Series_index (sort_index ci_series)
    /\ ci r = Series_values (sort_index ci_series)
    /\ baseline_load r = Series_values (make_household_profile daily_kwh)
    /\ shifted_load r
       = map (fun row =>
                (snd row * (fone - flexible_share)
                 + flex_at (fst row) target_hours
                     (series_sum
                        (map (fun b => b * flexible_share) (baseline_load r))
                      / of_nat (length target_hours)))%fl)
           (combine (index r) (baseline_load r)).
Proof.
  intros Hr.
  destruct (run_Ok_inv _ _ _ _ _ _ _ Hr) as [Hlen [rs' [T [Hal Hch]]]].
  destruct (run_fields ci_series daily_kwh flexible_share strategy
              renewable_share rs' n T Hlen Hal Hch)
    as [r' [Hr' [Hi [Hc [Hb [Hsh _]]]]]].
  assert (r' = r) by congruence. subst r'.
  exists T. repeat split; assumption.
Qed.

End Shape.

(** X4. The shape of a result.  Whenever a run on distinct timestamps
    returns, the six arrays of the
    dictionary have 24 entries each; "index" and "ci" are the rows of the
    input series in ascending timestamp order, whatever the order they
    were given in; and the two emission arrays are the products, hour by
    hour, of the loads and the carbon intensities, the totals their
    sums. *)
Theorem result_shape (srt : PandasSort) (srt_ok : PandasSortSpec srt)
    (ci_series : Series) (daily_kwh flexible_share : float)
    (strategy : string) (renewable_share : option Series) (n : Z)
    (r : ScenarioResult) :
  NoDup (Series_index ci_series) ->
  run_shift_scenario ci_series daily_kwh flexible_share strategy
    renewable_share n = Ok r ->
  NoDup (index r)
  /\ (length (index r) = 24 /\ length (ci r) = 24
   /\ length (baseline_load r) = 24 /\ length (shifted_load r) = 24
   /\ length (baseline_emissions r) = 24
   /\ length (shifted_emissions r) = 24)%nat
  /\ Permutation (combine (index r) (ci r)) ci_series
  /\ StronglySorted Z.le (index r)
  /\ (forall i b s c,
        nth_error (baseline_load r) i = Some b ->
        nth_error (shifted_load r) i = Some s ->
        nth_error (ci r) i = Some c ->
        nth_error (baseline_emissions r) i = Some (b * c)%fl
        /\ nth_error (shifted_emissions r) i = Some (s * c)%fl)
  /\ total_baseline_emissions r = np_sum (baseline_emissions r)
  /\ total_shifted_emissions r = np_sum (shifted_emissions r).
Proof.
  intros Hnd Hr.
  destruct (run_Ok_fields _ _ _ _ _ _ _ Hr) as [T [Hlen [Hi [Hc [Hb Hsh]]]]].
  destruct (run_emissions _ _ _ _ _ _ _ Hr) as [Hbe [Hse [Htb Hts]]].
  assert (Li : length (index r) = 24%nat)
    by now rewrite Hi, Series_index_length, sort_index_length.
  assert (Lc : length (ci r) = 24%nat).
  { rewrite Hc. unfold Series_values.
    now rewrite length_map, sort_index_length. }
  assert (Lb : length (baseline_load r) = 24%nat)
    by now rewrite Hb, profile_values_length.
  assert (Ls : length (shifted_load r) = 24%nat).
  { rewrite Hsh, length_map, length_combine. lia. }
  split.
  { rewrite Hi. eapply Permutation_NoDup; [| exact Hnd].
    symmetry. apply sort_index_labels. }
  split.
  { repeat split; try assumption.
    - rewrite Hbe, mul_arrays_length; congruence.
    - rewrite Hse, mul_arrays_length; congruence. }
  split.
  { rewrite Hi, Hc. unfold Series_index, Series_values.
    rewrite combine_fst_snd. apply sort_index_perm. }
  split.
  { rewrite Hi. apply sorted_index_le, sort_index_sorted. }
  split; [| now split].
  intros i b s c Hbi Hsi Hci. rewrite Hbe, Hse. unfold mul_arrays.
  split.
  - exact (map_nth_error (fun p => (fst p * snd p)%fl) i _
             (nth_error_combine _ _ i b c Hbi Hci)).
  - exact (map_nth_error (fun p => (fst p * snd p)%fl) i _
             (nth_error_combine _ _ i s c Hsi Hci)).
Qed.

(** The theorem on the run of [sample_day] given in reverse order. *)
Lemma result_shape_witness :
  exists r,
    run_shift_scenario (srt := stable_kind) (rev sample_day) (of_Z 14)
      (centi 30) "low_intensity" None 4 = Ok r
    /\ NoDup (index r)
    /\ (length (index r) = 24 /\ length (ci r) = 24
        /\ length (baseline_load r) = 24 /\ length (shifted_load r) = 24
        /\ length (baseline_emissions r) = 24
        /\ length (shifted_emissions r) = 24)%nat
    /\ Permutation (combine (index r) (ci r)) (rev sample_day)
    /\ StronglySorted Z.le (index r)
    /\ (forall i b s c,
          nth_error (baseline_load r) i = Some b ->
          nth_error (shifted_load r) i = Some s ->
          nth_error (ci r) i = Some c ->
          nth_error (baseline_emissions r) i = Some (b * c)%fl
          /\ nth_error (shifted_emissions r) i = Some (s * c)%fl)
    /\ total_baseline_emissions r = np_sum (baseline_emissions r)
    /\ total_shifted_emissions r = np_sum (shifted_emissions r).
Proof.
  eexists. split; [reflexivity |].
  apply (result_shape stable_kind stable_kind_spec (rev sample_day) (of_Z 14)
           (centi 30) "low_intensity" None 4).
  - apply distinct_NoDup. vm_compute. reflexivity.
  - reflexivity.
Defined.

(* ================================================================= *)
(** ** The order of the input rows *)

Lemma filter_perm {A} (p : A -> bool) (l l' : list A) :
  Permutation l l' -> Permutation (filter p l) (filter p l').
Proof.
  induction 1 as [| x l l' _ IH | x y l | l l' l'' _ IH1 _ IH2]; simpl.
  - constructor.
  - destruct (p x); [now constructor | assumption].
  - destruct (p x), (p y); try reflexivity. apply perm_swap.
  - now transitivity (filter p l').
Qed.

Lemma filter_label_short (s : Series) (t : label) :
  NoDup (Series_index s) ->
  (length (filter (fun r => (fst r =? t)%Z) s) <= 1)%nat.
Proof.
  intros Hnd.
  destruct (in_dec Z.eq_dec t (Series_index s)) as [Hin | Hnin].
  - destruct (loc_row s t Hnd Hin) as [v ->]. simpl. lia.
  - destruct (filter (fun r => (fst r =? t)%Z) s) as [| row rows] eqn:E;
      [simpl; lia |].
    exfalso. apply Hnin.
    assert (G : In row (filter (fun r => (fst r =? t)%Z) s))
      by (rewrite E; now left).
    apply filter_In in G. destruct G as [G1 G2].
    apply Z.eqb_eq in G2. subst t. now apply in_map.
Qed.

Lemma perm_short {A} (l l' : list A) :
  Permutation l l' -> (length l <= 1)%nat -> l = l'.
Proof.
  intros Hp Hl. destruct l as [| a [| b l]]; simpl in Hl; try lia.
  - apply Permutation_nil in Hp. now subst.
  - apply Permutation_length_1_inv in Hp. now subst.
Qed.

(** On distinct labels [.loc] does not depend on the storage order of
    the rows. *)
Lemma loc_perm (s s' : Series) (idx : list label) :
  NoDup (Series_index s) -> Permutation s s' -> loc s idx = loc s' idx.
Proof.
  intros Hnd Hp. induction idx as [| t idx IH]; simpl; [reflexivity |].
  rewrite (perm_short _ _ (filter_perm (fun r => (fst r =? t)%Z) _ _ Hp)
             (filter_label_short s t Hnd)).
  now rewrite IH.
Qed.

Section RowOrder.

Context {srt : PandasSort} {srt_ok : PandasSortSpec srt}.

Lemma sort_index_perm_eq (s s' : Series) :
  NoDup (Series_index s) -> Permutation s s' -> sort_index s = sort_index s'.
Proof.
  intros Hnd Hp.
  assert (Hnd' : NoDup (Series_index s')).
  { eapply Permutation_NoDup; [| exact Hnd]. now apply Permutation_map. }
  rewrite (sort_index_day_order s Hnd), (sort_index_day_order s' Hnd').
  unfold day_order.
  apply sorted_perm_unique with (R := fun a b => row_by_label a b = true).
  - intros a b Ha Hb Hab Hba. unfold row_by_label in *.
    apply Z.leb_le in Hab, Hba.
    apply (NoDup_map_inj fst (isort row_by_label s)); try assumption; [| lia].
    eapply Permutation_NoDup; [| exact Hnd].
    symmetry. apply Permutation_map, isort_perm.
  - apply isort_sorted; [apply row_by_label_total | apply row_by_label_trans].
  - apply isort_sorted; [apply row_by_label_total | apply row_by_label_trans].
  - rewrite (isort_perm _ _ s), (isort_perm _ _ s'). exact Hp.
Qed.

End RowOrder.

(** X5. The order of the rows does not matter.  On distinct timestamps a run
    depends on the rows of the carbon-intensity series only, not on the
    order they are stored in, and the same holds of the rows of the
    renewable-share series: line 79 sorts the one, lines 88 re-indexes
    and sorts the other. *)
Theorem row_order_irrelevant (srt : PandasSort) (srt_ok : PandasSortSpec srt)
    (ci_series ci_series' : Series) (daily_kwh flexible_share : float)
    (strategy : string) (renewable_share : option Series) (n : Z) :
  NoDup (Series_index ci_series) -> Permutation ci_series ci_series' ->
  run_shift_scenario ci_series daily_kwh flexible_share strategy
    renewable_share n
  = run_shift_scenario ci_series' daily_kwh flexible_share strategy
      renewable_share n
  /\ forall rs rs',
       NoDup (Series_index rs) -> Permutation rs rs' ->
       run_shift_scenario ci_series daily_kwh flexible_share strategy
         (Some rs) n
       = run_shift_scenario ci_series' daily_kwh flexible_share strategy
           (Some rs') n.
Proof.
  intros Hnd Hp. unfold run_shift_scenario.
  rewrite <- (sort_index_perm_eq _ _ Hnd Hp). split; [reflexivity |].
  intros rs rs' Hrs Hprs.
  destruct (negb _); [reflexivity |].
  unfold align_renewable_share.
  destruct (String.eqb strategy "max_renewable") eqn:Em.
  - now rewrite (loc_perm rs rs' _ Hrs Hprs).
  - cbn [bind]. unfold choose_target_hours. rewrite Em.
    destruct (String.eqb strategy "low_intensity"); reflexivity.
Qed.

(** The theorem on [sample_day] and [sample_share], each against its
    reverse. *)
Lemma row_order_irrelevant_witness :
  run_shift_scenario (srt := stable_kind) sample_day (of_Z 14) (centi 30)
    "max_renewable" (Some sample_share) 4
  = run_shift_scenario (srt := stable_kind) (rev sample_day) (of_Z 14)
      (centi 30) "max_renewable" (Some sample_share) 4
  /\ forall rs rs',
       NoDup (Series_index rs) -> Permutation rs rs' ->
       run_shift_scenario (srt := stable_kind) sample_day (of_Z 14)
         (centi 30) "max_renewable" (Some rs) 4
       = run_shift_scenario (srt := stable_kind) (rev sample_day) (of_Z 14)
           (centi 30) "max_renewable" (Some rs') 4.
Proof.
  apply (row_order_irrelevant stable_kind stable_kind_spec).
  - apply distinct_NoDup. vm_compute. reflexivity.
  - apply Permutation_rev.
Defined.

(* ================================================================= *)
(** ** Any number of target hours *)

Lemma effective_target_count_range (n : Z) :
  (0 <= effective_target_count n <= 24)%Z.
Proof. unfold effective_target_count. destruct (Z.ltb_spec n 0); lia. Qed.

Lemma slice_to_effective {A} (l : list A) (n : Z) :
  length l = 24%nat -> slice_to l n = slice_to l (effective_target_count n).
Proof.
  intros Hl. unfold slice_to, effective_target_count.
  destruct (Z.ltb_spec n 0) as [Hn | Hn].
  - destruct (Z.leb_spec 0 n); [lia |].
    destruct (Z.leb_spec 0 (Z.max 0 (24 + n))); [| lia].
    f_equal. rewrite Hl. lia.
  - destruct (Z.leb_spec 0 n); [| lia].
    destruct (Z.leb_spec 0 (Z.min n 24)); [| lia].
    destruct (Z.le_gt_cases n 24) as [H24 | H24].
    + now rewrite Z.min_l by lia.
    + rewrite Z.min_r by lia. rewrite !firstn_all2; [reflexivity | |];
        rewrite Hl; lia.
Qed.

Section AnyCount.

Context {srt : PandasSort} {srt_ok : PandasSortSpec srt}.

(** A run on valid inputs for any [n]: the hours are the head of a
    ranking of the 24 hours of the day, cut at [n]. *)
Lemma run_ranked (ci_series : Series) (daily_kwh flexible_share : float)
    (strategy : string) (renewable_share : option Series) :
  hourly_series ci_series ->
  strategy_inputs strategy renewable_share ci_series ->
  exists ranked,
    length ranked = 24%nat /\ NoDup ranked
    /\ Permutation ranked (Series_index (sort_index ci_series))
    /\ forall n,
         target_hours_of ci_series strategy renewable_share n
         = Ok (slice_to ranked n)
         /\ exists r,
              run_shift_scenario ci_series daily_kwh flexible_share strategy
                renewable_share n = Ok r
              /\ index r = Series_index (sort_index ci_series)
              /\ baseline_load r
                 = Series_values (make_household_profile daily_kwh)
              /\ shifted_load r
                 = map (fun row =>
                          (snd row * (fone - flexible_share)
                           + flex_at (fst row) (slice_to ranked n)
                               (series_sum
                                  (map (fun b => b * flexible_share)
                                     (baseline_load r))
                                / of_nat (length (slice_to ranked n))))%fl)
                     (combine (index r) (baseline_load r)).
Proof.
  intros Hh Hs.
  destruct (selection_steps _ _ _ Hh Hs) as [rs' [asc [key [Hal [Hch Hp]]]]].
  destruct (hourly_sorted _ Hh) as [Hlen Hnd].
  destruct (selection_wf asc key _ 0 Hp Hnd) as [_ [_ HL]].
  exists (Series_index (sort_values asc key)).
  split; [now rewrite (Permutation_length HL) |].
  split; [eapply Permutation_NoDup; [symmetry; exact HL | exact Hnd] |].
  split; [exact HL |].
  intros n. split.
  - unfold target_hours_of. rewrite sort_index_length, (proj1 Hh).
    cbn [Nat.eqb negb]. rewrite Hal. cbn [bind]. apply Hch.
  - destruct (run_fields _ daily_kwh flexible_share _ _ _ n _ (proj1 Hh) Hal
                (Hch n))
      as [r [Hr [Hi [Hc [Hb [Hsh _]]]]]].
    exists r. repeat split; assumption.
Qed.

(** The run reads [n_target_hours] through the slice only. *)
Lemma run_effective (ci_series : Series) (daily_kwh flexible_share : float)
    (strategy : string) (renewable_share : option Series) (n : Z) :
  hourly_series ci_series ->
  strategy_inputs strategy renewable_share ci_series ->
  run_shift_scenario ci_series daily_kwh flexible_share strategy
    renewable_share n
  = run_shift_scenario ci_series daily_kwh flexible_share strategy
      renewable_share (effective_target_count n).
Proof.
  intros Hh Hs.
  destruct (selection_steps _ _ _ Hh Hs) as [rs' [asc [key [Hal [Hch Hp]]]]].
  destruct (hourly_sorted _ Hh) as [Hlen Hnd].
  destruct (selection_wf asc key _ 0 Hp Hnd) as [_ [_ HL]].
  unfold run_shift_scenario. rewrite sort_index_length, (proj1 Hh).
  cbn [Nat.eqb negb]. rewrite Hal. cbn [bind].
  rewrite (Hch n), (Hch (effective_target_count n)).
  rewrite <- slice_to_effective; [reflexivity |].
  now rewrite (Permutation_length HL).
Qed.

End AnyCount.

(** X6. [n_target_hours] is read through the slice [index[:n]] only, so every
    integer is accepted and acts as a count between 0 and 24: a negative
    [n] as 24 + n (Python counts it from the end) or 0 below -24, an [n]
    above 24 as 24.  On valid inputs the run for [n] is the run for that
    count, and as many distinct hours of the day are target hours. *)
Theorem target_count_clamped (srt : PandasSort) (srt_ok : PandasSortSpec srt)
    (ci_series : Series) (daily_kwh flexible_share : float)
    (strategy : string) (renewable_share : option Series) (n : Z) :
  hourly_series ci_series ->
  strategy_inputs strategy renewable_share ci_series ->
  run_shift_scenario ci_series daily_kwh flexible_share strategy
    renewable_share n
  = run_shift_scenario ci_series daily_kwh flexible_share strategy
      renewable_share (effective_target_count n)
  /\ exists r T,
       run_shift_scenario ci_series daily_kwh flexible_share strategy
         renewable_share n = Ok r
       /\ target_hours_of ci_series strategy renewable_share n = Ok T
       /\ NoDup T /\ incl T (index r)
       /\ Z.of_nat (length T) = effective_target_count n.
Proof.
  intros Hh Hs. split; [now apply run_effective |].
  destruct (run_ranked ci_series daily_kwh flexible_share strategy
              renewable_share Hh Hs) as [ranked [Hl [Hnd [Hp Hn]]]].
  destruct (Hn n) as [Ht [r [Hr [Hi _]]]].
  exists r, (slice_to ranked n).
  split; [exact Hr |]. split; [exact Ht |].
  split; [now apply slice_to_NoDup |].
  split.
  - intros x Hx. apply slice_to_In in Hx. rewrite Hi.
    eapply Permutation_in; eassumption.
  - rewrite (slice_to_effective ranked n Hl).
    pose proof (effective_target_count_range n) as Hrange.
    destruct (slice_to_within ranked (effective_target_count n)) as [_ ->];
      [rewrite Hl; lia | lia].
Qed.

(** The theorem on [sample_day] for n_target_hours = -20, which selects
    four hours. *)
Lemma target_count_clamped_witness :
  run_shift_scenario (srt := stable_kind) sample_day (of_Z 14) (centi 30)
    "low_intensity" None (-20)
  = run_shift_scenario (srt := stable_kind) sample_day (of_Z 14) (centi 30)
      "low_intensity" None (effective_target_count (-20))
  /\ exists r T,
       run_shift_scenario (srt := stable_kind) sample_day (of_Z 14)
         (centi 30) "low_intensity" None (-20) = Ok r
       /\ target_hours_of (srt := stable_kind) sample_day "low_intensity"
            None (-20) = Ok T
       /\ NoDup T /\ incl T (index r)
       /\ Z.of_nat (length T) = effective_target_count (-20).
Proof.
  apply (target_count_clamped stable_kind stable_kind_spec).
  - split; [reflexivity | apply distinct_NoDup; vm_compute; reflexivity].
  - left. reflexivity.
Defined.

(* ================================================================= *)
(** ** Runs that select no hour *)

Lemma map_snd_combine {A B} (l1 : list A) (l2 : list B) :
  length l1 = length l2 -> map snd (combine l1 l2) = l2.
Proof.
  revert l2. induction l1 as [| a l1 IH]; intros [| b l2] H; simpl in *;
    try discriminate; [reflexivity |].
  f_equal. apply IH. congruence.
Qed.

(** Lines 95-115 when no hour is selected: the loop body never runs and
    every hour keeps its non-flexible load. *)
Lemma unshifted_sum_Fin (idx : list label) (bq : list Qc) (fq : Qc)
    (per_hour : float) :
  length idx = length bq ->
  np_sum
    (map (fun row =>
            (snd row * (fone - Fin fq) + flex_at (fst row) [] per_hour)%fl)
       (combine idx (map Fin bq)))
  = Fin (sumQ bq * (1 - fq))%Qc.
Proof.
  intros Hlen. rewrite combine_map_Fin, map_map.
  rewrite (map_ext _ (fun row => Fin (snd row * (1 - fq))%Qc)).
  2:{ intros [t b]. unfold flex_at, fone, fzero, fsub, fopp, fmul, fadd.
      cbn [fst snd fold_left]. f_equal. ring. }
  rewrite <- (map_map (fun row => (snd row * (1 - fq))%Qc) Fin), np_sum_Fin.
  rewrite <- (map_map snd (fun b => (b * (1 - fq))%Qc)).
  now rewrite (map_snd_combine _ _ Hlen), sumQ_map_scale.
Qed.

(** X7. When no hour is selected the flexible energy is dropped.  On valid
    inputs with finite [daily_kwh] = d and [flexible_share] = f the
    baseline loads sum to d.  For n_target_hours = 0 or at most -24 the
    run returns all the same: the quotient by [len(target_hours)] = 0
    raises nothing in NumPy and the loop adds it to no hour, so every
    hour keeps its non-flexible load and the shifted loads sum to
    d (1 - f).  For every other [n] the shifted loads sum to d.  (Sums in
    the exact arithmetic of the embedding.) *)
Theorem flexible_energy_dropped (srt : PandasSort)
    (srt_ok : PandasSortSpec srt) (ci_series : Series) (d f : Qc)
    (strategy : string) (renewable_share : option Series) (n : Z) :
  hourly_series ci_series ->
  strategy_inputs strategy renewable_share ci_series ->
  exists r,
    run_shift_scenario ci_series (Fin d) (Fin f) strategy renewable_share n
    = Ok r
    /\ np_sum (baseline_load r) = Fin d
    /\ np_sum (shifted_load r)
       = (if (effective_target_count n =? 0)%Z then Fin (d * (1 - f))%Qc
          else Fin d)
    /\ (effective_target_count n = 0%Z ->
        target_hours_of ci_series strategy renewable_share n = Ok []
        /\ forall i b,
             nth_error (baseline_load r) i = Some b ->
             nth_error (shifted_load r) i = Some (b * (fone - Fin f))%fl).
Proof.
  intros Hh Hs.
  destruct (run_ranked ci_series (Fin d) (Fin f) strategy renewable_share
              Hh Hs) as [ranked [Hl [Hnd [Hp Hn]]]].
  destruct (Hn n) as [Ht [r [Hr [Hi [Hb Hsh]]]]].
  destruct (hourly_sorted _ Hh) as [Hlen Hndi].
  exists r. split; [exact Hr |].
  assert (Hbs : np_sum (baseline_load r) = Fin d).
  { now rewrite Hb, profile_values_Fin, np_sum_Fin, profile_sum_Q. }
  split; [exact Hbs |].
  set (bq := map (fun w => w * (d / sumQ RAW_Q))%Qc RAW_Q) in *.
  assert (Hlb : length (index r) = length bq).
  { rewrite Hi, Hlen. unfold bq. now rewrite length_map. }
  assert (HT : Z.of_nat (length (slice_to ranked n))
               = effective_target_count n).
  { rewrite (slice_to_effective ranked n Hl).
    pose proof (effective_target_count_range n) as Hrange.
    destruct (slice_to_within ranked (effective_target_count n)) as [_ ->];
      [rewrite Hl; lia | lia]. }
  rewrite Hsh, Hb, profile_values_Fin. fold bq.
  destruct (Z.eqb_spec (effective_target_count n) 0) as [E0 | E0].
  - assert (Hnil : slice_to ranked n = []).
    { apply length_zero_iff_nil. lia. }
    rewrite Hnil in *. split.
    + rewrite (unshifted_sum_Fin _ _ _ _ Hlb). f_equal.
      unfold bq. now rewrite profile_sum_Q.
    + intros _. split; [exact Ht |].
      intros i b Hbi.
      assert (Hti : exists t, nth_error (index r) i = Some t).
      { destruct (nth_error (index r) i) as [t |] eqn:E; [eauto |].
        apply nth_error_None in E.
        assert (i < length (map Fin bq))%nat
          by (apply nth_error_Some; congruence).
        rewrite length_map in H. lia. }
      destruct Hti as [t Hti].
      erewrite map_nth_error; [| apply nth_error_combine; eassumption].
      cbn [fst snd]. unfold flex_at. cbn [fold_left].
      now rewrite fadd_0_r.
  - split; [| intros H; contradiction].
    rewrite shifted_sum_Fin.
    + f_equal. unfold bq. apply profile_sum_Q.
    + exact Hlb.
    + now rewrite Hi.
    + now apply slice_to_NoDup.
    + intros x Hx. apply slice_to_In in Hx. rewrite Hi.
      eapply Permutation_in; eassumption.
    + intros Hnil. rewrite Hnil in HT. simpl in HT. lia.
Qed.

(** The theorem on [sample_day] for n_target_hours = 0. *)
Lemma flexible_energy_dropped_witness :
  exists r,
    run_shift_scenario (srt := stable_kind) sample_day (Fin (Q2Qc 14))
      (Fin (Q2Qc (3 # 10))) "low_intensity" None 0 = Ok r
    /\ np_sum (baseline_load r) = Fin (Q2Qc 14)
    /\ np_sum (shifted_load r)
       = (if (effective_target_count 0 =? 0)%Z
          then Fin (Q2Qc 14 * (1 - Q2Qc (3 # 10)))%Qc
          else Fin (Q2Qc 14))
    /\ (effective_target_count 0 = 0%Z ->
        target_hours_of (srt := stable_kind) sample_day "low_intensity" None 0
        = Ok []
        /\ forall i b,
             nth_error (baseline_load r) i = Some b ->
             nth_error (shifted_load r) i
             = Some (b * (fone - Fin (Q2Qc (3 # 10))))%fl).
Proof.
  apply (flexible_energy_dropped stable_kind stable_kind_spec).
  - split; [reflexivity | apply distinct_NoDup; vm_compute; reflexivity].
  - left. reflexivity.
Defined.

(* ================================================================= *)
(** ** Emissions on finite carbon intensities *)

Lemma all_finite_Fin (l : list float) :
  all_finite l -> exists q, l = map Fin q.
Proof.
  induction 1 as [| x l Hx _ [q ->]]; [now exists [] |].
  destruct x as [p | |]; try discriminate. now exists (p :: q).
Qed.

Lemma all_finite_perm (l l' : list float) :
  Permutation l l' -> all_finite l -> all_finite l'.
Proof. intros Hp. unfold all_finite. now rewrite Hp. Qed.

Lemma mul_arrays_Fin (a c : list Qc) :
  mul_arrays (map Fin a) (map Fin c)
  = map Fin (map (fun p => fst p * snd p)%Qc (combine a c)).
Proof.
  unfold mul_arrays. revert c.
  induction a as [| x a IH]; intros [| y c]; simpl; try reflexivity.
  f_equal. apply IH.
Qed.

(** Lines 95-115 on finite loads, hour by hour. *)
Lemma shifted_load_Fin (idx T : list label) (bq : list Qc) (fq : Qc) :
  NoDup T -> T <> [] ->
  map (fun row =>
         (snd row * (fone - Fin fq)
          + flex_at (fst row) T
              (series_sum (map (fun b => b * Fin fq) (map Fin bq))
               / of_nat (length T)))%fl)
    (combine idx (map Fin bq))
  = map Fin
      (map (fun row =>
              (snd row * (1 - fq)
               + (if mem (fst row) T
                  then sumQ bq * fq / Q2Qc (inject_Z (Z.of_nat (length T)))
                  else 0))%Qc)
         (combine idx bq)).
Proof.
  intros Ht Hne.
  assert (Hk : length T <> 0%nat) by (destruct T; [congruence | discriminate]).
  rewrite total_flex_Fin, (per_hour_Fin _ _ Hk), combine_map_Fin, !map_map.
  apply map_ext. intros [t b]. cbn [fst snd].
  rewrite (flex_at_NoDup _ _ _ Ht). destruct (mem t T); reflexivity.
Qed.

Lemma shifted_sumQ (idx T : list label) (bq : list Qc) (fq : Qc) :
  length idx = length bq -> NoDup idx -> NoDup T -> incl T idx -> T <> [] ->
  sumQ (map (fun row =>
               (snd row * (1 - fq)
                + (if mem (fst row) T
                   then sumQ bq * fq / Q2Qc (inject_Z (Z.of_nat (length T)))
                   else 0))%Qc)
          (combine idx bq))
  = sumQ bq.
Proof.
  intros Hlen Hi Ht Hin Hne.
  pose proof (shifted_sum_Fin idx T bq fq Hlen Hi Ht Hin Hne) as G.
  rewrite (shifted_load_Fin _ _ _ _ Ht Hne), np_sum_Fin in G.
  now injection G.
Qed.

(** The emissions of loads [b (1 - f) + [t in T] ph] under the intensities
    [c]: the non-flexible part of the baseline emissions, and [ph] times
    the intensities of the hours of [T]. *)
Lemma shifted_dot (T : list label) (fq ph : Qc) (idx : list label)
    (bq cq : list Qc) :
  length idx = length bq -> length idx = length cq ->
  sumQ (map (fun p => fst p * snd p)%Qc
          (combine
             (map (fun row =>
                     (snd row * (1 - fq)
                      + (if mem (fst row) T then ph else 0))%Qc)
                (combine idx bq))
             cq))
  = (sumQ (map (fun p => fst p * snd p)%Qc (combine bq cq)) * (1 - fq)
     + ph * sumQ (map snd (filter (fun row => mem (fst row) T)
                             (combine idx cq))))%Qc.
Proof.
  revert bq cq.
  induction idx as [| t idx IH]; intros [| b bq] [| c cq] Hb Hc;
    simpl in *; try discriminate; [ring |].
  rewrite IH by congruence. destruct (mem t T); simpl; ring.
Qed.

Lemma total_at_Fin (idx : list label) (cq : list Qc) (T : list label) :
  total_at (combine idx (map Fin cq)) T
  = Fin (sumQ (map snd (filter (fun row => mem (fst row) T)
                          (combine idx cq)))).
Proof.
  unfold total_at, Series_values. rewrite <- np_sum_Fin. f_equal.
  revert cq. induction idx as [| t idx IH]; intros [| c cq]; simpl;
    try reflexivity.
  destruct (mem t T); simpl; now rewrite IH.
Qed.

Section Emissions.

Context {srt : PandasSort} {srt_ok : PandasSortSpec srt}.

(** A run on valid inputs with finite arguments and finite carbon
    intensities, in rationals. *)
Lemma run_finite (ci_series : Series) (d f : Qc) (strategy : string)
    (renewable_share : option Series) (n : Z) :
  hourly_series ci_series ->
  strategy_inputs strategy renewable_share ci_series ->
  all_finite (Series_values ci_series) ->
  effective_target_count n <> 0%Z ->
  exists r T cq,
    run_shift_scenario ci_series (Fin d) (Fin f) strategy renewable_share n
    = Ok r
    /\ target_hours_of ci_series strategy renewable_share n = Ok T
    /\ NoDup T /\ incl T (index r) /\ T <> []
    /\ Z.of_nat (length T) = effective_target_count n
    /\ length (index r) = 24%nat /\ NoDup (index r)
    /\ length cq = 24%nat
    /\ sort_index ci_series = combine (index r) (map Fin cq)
    /\ ci r = map Fin cq
    /\ baseline_load r
       = map Fin (map (fun w => w * (d / sumQ RAW_Q))%Qc RAW_Q)
    /\ shifted_load r
       = map Fin
           (map (fun row =>
                   (snd row * (1 - f)
                    + (if mem (fst row) T
                       then d * f / Q2Qc (inject_Z (Z.of_nat (length T)))
                       else 0))%Qc)
              (combine (index r)
                 (map (fun w => w * (d / sumQ RAW_Q))%Qc RAW_Q)))
    /\ total_baseline_emissions r
       = np_sum (mul_arrays (baseline_load r) (ci r))
    /\ total_shifted_emissions r
       = np_sum (mul_arrays (shifted_load r) (ci r))
    /\ relative_reduction r
       = ((total_baseline_emissions r - total_shifted_emissions r)
          / total_baseline_emissions r)%fl.
Proof.
  intros Hh Hs Hfin Hn.
  destruct (run_valid ci_series (Fin d) (Fin f) strategy renewable_share n
              Hh Hs)
    as (r & T & Hr & Ht & Hlen & Hnd & HT & Hin & _ & _ & Hb & Hsh & Htb & Hts
        & Hrr).
  destruct (run_ranked ci_series (Fin d) (Fin f) strategy renewable_share
              Hh Hs) as [ranked [Hl [_ [_ Hrk]]]].
  destruct (Hrk n) as [Ht' _].
  assert (ET : T = slice_to ranked n) by congruence.
  assert (HTl : Z.of_nat (length T) = effective_target_count n).
  { rewrite ET, (slice_to_effective ranked n Hl).
    pose proof (effective_target_count_range n) as Hrange.
    destruct (slice_to_within ranked (effective_target_count n)) as [_ ->];
      [rewrite Hl; lia | lia]. }
  assert (Hne : T <> []).
  { intros ->. simpl in HTl. lia. }
  destruct (run_Ok_fields _ _ _ _ _ _ _ Hr) as [_ [_ [Hi [Hc _]]]].
  destruct (all_finite_Fin (Series_values (sort_index ci_series)))
    as [cq Hcq].
  { eapply all_finite_perm; [| exact Hfin].
    symmetry. apply Permutation_map, sort_index_perm. }
  exists r, T, cq.
  assert (Lcq : length cq = 24%nat).
  { rewrite <- (length_map Fin cq), <- Hcq. unfold Series_values.
    now rewrite length_map, sort_index_length, (proj1 Hh). }
  rewrite Hb, profile_values_Fin in Hsh.
  rewrite (shifted_load_Fin _ _ _ _ HT Hne), profile_sum_Q in Hsh.
  rewrite Hb, profile_values_Fin in *.
  repeat split; try assumption.
  - rewrite Hi, <- Hcq. unfold Series_index, Series_values.
    now rewrite combine_fst_snd.
  - now rewrite Hc.
Qed.

End Emissions.

(** X8. The emissions after shifting, accounted for.  On valid inputs with
    finite [daily_kwh] = d, [flexible_share] = f and carbon intensities,
    and an [n] that selects at least one hour, the total shifted
    emissions are the non-flexible share of the total baseline emissions
    plus the flexible energy d f spread evenly over the carbon
    intensities of the target hours.  (In the exact arithmetic of the
    embedding.) *)
Theorem shifted_emissions_accounted (srt : PandasSort)
    (srt_ok : PandasSortSpec srt) (ci_series : Series) (d f : Qc)
    (strategy : string) (renewable_share : option Series) (n : Z) :
  hourly_series ci_series ->
  strategy_inputs strategy renewable_share ci_series ->
  all_finite (Series_values ci_series) ->
  effective_target_count n <> 0%Z ->
  exists r T,
    run_shift_scenario ci_series (Fin d) (Fin f) strategy renewable_share n
    = Ok r
    /\ target_hours_of ci_series strategy renewable_share n = Ok T
    /\ total_shifted_emissions r
       = (total_baseline_emissions r * (fone - Fin f)
          + Fin (d * f) / of_nat (length T)
            * total_at (sort_index ci_series) T)%fl.
Proof.
  intros Hh Hs Hfin Hn.
  destruct (run_finite ci_series d f strategy renewable_share n Hh Hs Hfin Hn)
    as (r & T & cq & Hr & Ht & HT & Hin & Hne & HTl & Hlen & Hnd & Lcq & Hsi
        & Hc & Hb & Hsh & Htb & Hts & _).
  exists r, T. split; [exact Hr |]. split; [exact Ht |].
  assert (Hk : length T <> 0%nat) by (destruct T; [congruence | discriminate]).
  rewrite Hts, Htb, Hsh, Hb, Hc, Hsi, !mul_arrays_Fin, !np_sum_Fin.
  rewrite total_at_Fin, (per_hour_Fin _ _ Hk).
  rewrite shifted_dot; [| now rewrite length_map | congruence].
  unfold fone, fsub, fopp, fmul, fadd. f_equal.
Qed.

(** The theorem on [sample_day]. *)
Lemma shifted_emissions_accounted_witness :
  exists r T,
    run_shift_scenario (srt := stable_kind) sample_day (Fin (Q2Qc 14))
      (Fin (Q2Qc (3 # 10))) "low_intensity" None 4 = Ok r
    /\ target_hours_of (srt := stable_kind) sample_day "low_intensity" None 4
       = Ok T
    /\ total_shifted_emissions r
       = (total_baseline_emissions r * (fone - Fin (Q2Qc (3 # 10)))
          + Fin (Q2Qc 14 * Q2Qc (3 # 10)) / of_nat (length T)
            * total_at (sort_index (PandasSort := stable_kind) sample_day) T)%fl.
Proof.
  apply (shifted_emissions_accounted stable_kind stable_kind_spec).
  - split; [reflexivity | apply distinct_NoDup; vm_compute; reflexivity].
  - left. reflexivity.
  - repeat constructor.
  - vm_compute. discriminate.
Defined.

(** X9. A flat day.  When every hour of the day has the same finite carbon
    intensity c, shifting changes nothing: on valid inputs with finite
    [daily_kwh] = d and [flexible_share], and an [n] that selects at
    least one hour, both emission totals are c d, and the relative
    reduction is 0, or the NaN of 0/0 when c d = 0.  (In the exact
    arithmetic of the embedding.) *)
Theorem flat_day_no_reduction (srt : PandasSort) (srt_ok : PandasSortSpec srt)
    (ci_series : Series) (c d f : Qc) (strategy : string)
    (renewable_share : option Series) (n : Z) :
  hourly_series ci_series ->
  strategy_inputs strategy renewable_share ci_series ->
  Forall (fun x => x = Fin c) (Series_values ci_series) ->
  effective_target_count n <> 0%Z ->
  exists r,
    run_shift_scenario ci_series (Fin d) (Fin f) strategy renewable_share n
    = Ok r
    /\ total_baseline_emissions r = Fin (d * c)
    /\ total_shifted_emissions r = Fin (d * c)
    /\ relative_reduction r = (if Qc_eqb (d * c) 0 then NaN else fzero).
Proof.
  intros Hh Hs Hflat Hn.
  assert (Hfin : all_finite (Series_values ci_series)).
  { eapply Forall_impl; [| exact Hflat]. now intros x ->. }
  destruct (run_finite ci_series d f strategy renewable_share n Hh Hs Hfin Hn)
    as (r & T & cq & Hr & Ht & HT & Hin & Hne & HTl & Hlen & Hnd & Lcq & Hsi
        & Hc & Hb & Hsh & Htb & Hts & Hrr).
  exists r. split; [exact Hr |].
  assert (Hcq : Forall (fun q => q = c) cq).
  { assert (G : Forall (fun x => x = Fin c) (map Fin cq)).
    { rewrite <- (map_snd_combine (index r) (map Fin cq))
        by now rewrite length_map, Lcq.
      rewrite <- Hsi. fold (Series_values (sort_index ci_series)).
      eapply Permutation_Forall; [| exact Hflat].
      symmetry. apply Permutation_map, sort_index_perm. }
    rewrite Forall_map in G. eapply Forall_impl; [| exact G].
    now intros q [= ->]. }
  assert (Hdot : forall a : list Qc,
             length a = length cq ->
             sumQ (map (fun p => fst p * snd p)%Qc (combine a cq))
             = (sumQ a * c)%Qc).
  { clear - Hcq. induction Hcq as [| q cq -> _ IH]; intros [| x a] Ha;
      simpl in *; try discriminate; [ring |].
    rewrite IH by congruence. ring. }
  assert (E1 : total_baseline_emissions r = Fin (d * c)).
  { rewrite Htb, Hb, Hc, mul_arrays_Fin, np_sum_Fin, Hdot, profile_sum_Q;
      [reflexivity |].
    now rewrite length_map, Lcq. }
  assert (E2 : total_shifted_emissions r = Fin (d * c)).
  { rewrite Hts, Hc, Hsh, mul_arrays_Fin, np_sum_Fin, Hdot.
    2:{ rewrite length_map, length_combine, length_map, Hlen, Lcq.
        reflexivity. }
    f_equal. f_equal.
    pose proof (shifted_sumQ (index r) T
                  (map (fun w => w * (d / sumQ RAW_Q))%Qc RAW_Q) f) as G.
    rewrite profile_sum_Q in G. now apply G. }
  split; [exact E1 |]. split; [exact E2 |].
  rewrite Hrr, E1, E2. unfold fsub, fopp, fadd, fdiv, fzero.
  destruct (Qc_eqb (d * c) 0) eqn:E0.
  - replace (d * c + - (d * c))%Qc with 0%Qc by ring.
    now rewrite (proj2 (Qc_eqb_eq 0 0) eq_refl).
  - f_equal. apply Qc_eqb_neq in E0.
    replace (d * c + - (d * c))%Qc with 0%Qc by ring.
    unfold Qcdiv. ring.
Qed.

(** The theorem on a day of 200 gCO2/kWh throughout. *)
Lemma flat_day_no_reduction_witness :
  exists r,
    run_shift_scenario (srt := stable_kind)
      (constSeries (Fin (Q2Qc 200)) (range 24)) (Fin (Q2Qc 14))
      (Fin (Q2Qc (3 # 10))) "low_intensity" None 4 = Ok r
    /\ total_baseline_emissions r = Fin (Q2Qc 14 * Q2Qc 200)
    /\ total_shifted_emissions r = Fin (Q2Qc 14 * Q2Qc 200)
    /\ relative_reduction r
       = (if Qc_eqb (Q2Qc 14 * Q2Qc 200) 0 then NaN else fzero).
Proof.
  apply (flat_day_no_reduction stable_kind stable_kind_spec).
  - split; [reflexivity | apply distinct_NoDup; vm_compute; reflexivity].
  - left. reflexivity.
  - repeat constructor.
  - vm_compute. discriminate.
Defined.

(* ================================================================= *)
(** ** From canonical to plain rationals *)

Lemma this_plus (x y : Qc) : (this (x + y) == this x + this y)%Q.
Proof. unfold Qcplus. cbn [this Q2Qc]. apply Qred_correct. Qed.

Lemma this_mult (x y : Qc) : (this (x * y) == this x * this y)%Q.
Proof. unfold Qcmult. cbn [this Q2Qc]. apply Qred_correct. Qed.

Lemma this_opp (x : Qc) : (this (- x) == - this x)%Q.
Proof. unfold Qcopp. cbn [this Q2Qc]. apply Qred_correct. Qed.

Lemma this_minus (x y : Qc) : (this (x - y) == this x - this y)%Q.
Proof. unfold Qcminus. rewrite this_plus, this_opp. reflexivity. Qed.

(** Inequalities between canonical rationals, as inequalities between
    plain ones. *)
Ltac to_Q :=
  unfold Qcle, Qclt in *;
  repeat first
    [ rewrite this_minus in *
    | rewrite this_plus in *
    | rewrite this_mult in *
    | rewrite this_opp in * ];
  change (this 0%Qc) with 0%Q in *;
  change (this 1%Qc) with 1%Q in *.

(* ================================================================= *)
(** ** Ranking: the hours selected against any other choice *)

(** A sum of terms [g c] against a threshold [th] for the [c]: where [c]
    is at most [th] the weight [g] is not positive, and where it is at
    least [th] the weight is not negative. *)
Lemma threshold_sum {A} (inT : A -> bool) (g c : A -> Qc) (th : Qc)
    (l : list A) :
  (forall a, In a l ->
     if inT a then (c a <= th /\ g a <= 0)%Qc else (th <= c a /\ 0 <= g a)%Qc) ->
  (th * sumQ (map g l) <= sumQ (map (fun a => g a * c a) l))%Qc.
Proof.
  induction l as [| a l IH]; intros H; cbn [map sumQ fold_right].
  - replace (th * 0)%Qc with 0%Qc by ring. apply Qcle_refl.
  - fold (sumQ (map g l)). fold (sumQ (map (fun a => (g a * c a)%Qc) l)).
    assert (IH' := IH (fun x Hx => H x (or_intror Hx))).
    assert (Ha := H a (or_introl eq_refl)).
    set (S1 := sumQ (map g l)) in *.
    set (S2 := sumQ (map (fun a => (g a * c a)%Qc) l)) in *.
    set (ga := g a) in *. set (ca := c a) in *.
    clearbody S1 S2 ga ca. clear IH H.
    destruct (inT a); destruct Ha as [H1 H2]; to_Q; nra.
Qed.

(** A list that is not empty has a last element in any total order. *)
Lemma greatest_row {A} (leb : A -> A -> bool) (l : list A) :
  (forall a b, leb a b = true \/ leb b a = true) ->
  (forall a b c, leb a b = true -> leb b c = true -> leb a c = true) ->
  l <> [] ->
  exists m, In m l /\ forall a, In a l -> leb a m = true.
Proof.
  intros Htot Htr. induction l as [| x l IH]; [congruence |]. intros _.
  destruct l as [| y l].
  - exists x. split; [now left |].
    intros a [<- | []]. destruct (Htot x x); assumption.
  - destruct IH as [m [Hm Hle]]; [discriminate |].
    destruct (Htot x m) as [Hxm | Hmx].
    + exists m. split; [now right |].
      intros a [<- | Ha]; [assumption | now apply Hle].
    + exists x. split; [now left |].
      intros a [<- | Ha]; [destruct (Htot x x); assumption |].
      eapply Htr; [now apply Hle | assumption].
Qed.

(** The hours that rank first are separated from the others by a row of
    the day: the last of the hours chosen. *)
Lemma selects_threshold (asc : bool) (key : Series) (k : nat)
    (T : list label) :
  selects asc key k T -> NoDup (Series_index key) -> k <> 0%nat ->
  exists m,
    In m key
    /\ forall row, In row key ->
         if mem (fst row) T then row_by_value asc row m = true
         else row_by_value asc m row = true.
Proof.
  intros [chosen [rest [Hp [HT [Hk Hcross]]]]] Hnd Hk0.
  destruct (greatest_row (row_by_value asc) chosen) as [m [Hm Hmax]].
  { apply row_by_value_total. }
  { apply row_by_value_trans. }
  { intros ->. simpl in Hk. congruence. }
  assert (Hsub : forall row, In row chosen \/ In row rest -> In row key).
  { intros row H. eapply Permutation_in; [exact Hp |].
    apply in_or_app. exact H. }
  exists m. split; [apply Hsub; now left |].
  intros row Hrow.
  assert (Hcr : In row chosen \/ In row rest).
  { apply in_app_or. eapply Permutation_in; [symmetry; exact Hp | exact Hrow]. }
  destruct (mem (fst row) T) eqn:E.
  - apply mem_In in E. rewrite HT in E. unfold Series_index in E.
    apply in_map_iff in E. destruct E as [row' [Hf Hin']].
    assert (row' = row).
    { apply (NoDup_map_inj fst key); try assumption.
      apply Hsub. now left. }
    subst row'. now apply Hmax.
  - destruct Hcr as [Hc | Hr]; [| now apply Hcross].
    exfalso. apply not_true_iff_false in E. apply E.
    apply mem_In. rewrite HT. now apply in_map.
Qed.

Lemma sumQ_filter {A} (P : A -> bool) (f : A -> Qc) (l : list A) :
  sumQ (map f (filter P l))
  = sumQ (map (fun a => if P a then f a else 0%Qc) l).
Proof.
  induction l as [| a l IH]; simpl; [reflexivity |].
  destruct (P a); simpl; rewrite IH; ring.
Qed.

Lemma sumQ_sub_map {A} (f h : A -> Qc) (l : list A) :
  sumQ (map (fun a => f a - h a)%Qc l)
  = (sumQ (map f l) - sumQ (map h l))%Qc.
Proof.
  induction l as [| a l IH]; simpl; [ring | rewrite IH; ring].
Qed.

Lemma sumQ_count {A} (P : A -> bool) (l : list A) :
  sumQ (map (fun a => if P a then 1%Qc else 0%Qc) l)
  = Q2Qc (inject_Z (Z.of_nat (length (filter P l)))).
Proof.
  induction l as [| a l IH]; simpl; [reflexivity |].
  rewrite IH. destruct (P a); simpl length.
  - rewrite Qc_of_nat_S. ring.
  - ring.
Qed.

Lemma indicator_diff_sum {A} (P P' : A -> bool) (c : A -> Qc) (s : Qc)
    (l : list A) :
  sumQ (map (fun a =>
               (((if P' a then 1 else 0) - (if P a then 1 else 0))
                * (s * c a))%Qc) l)
  = (s * (sumQ (map c (filter P' l)) - sumQ (map c (filter P l))))%Qc.
Proof.
  induction l as [| a l IH]; simpl; [ring |].
  rewrite IH. destruct (P' a), (P a); simpl; ring.
Qed.

Lemma filter_rows_length (key : Series) (T : list label) :
  NoDup (Series_index key) -> NoDup T -> incl T (Series_index key) ->
  length (filter (fun row => mem (fst row) T) key) = length T.
Proof.
  intros Hk HT Hin.
  rewrite <- (filter_mem_length (Series_index key) T Hk HT Hin).
  unfold Series_index. clear. induction key as [| row key IH]; simpl;
    [reflexivity |].
  destruct (mem (fst row) T); simpl; now rewrite IH.
Qed.

Lemma finite_qval (x : float) : is_finite x = true -> x = Fin (qval x).
Proof. destruct x; simpl; congruence. Qed.

Lemma total_at_finite (key : Series) (T : list label) :
  all_finite (Series_values key) ->
  total_at key T
  = Fin (sumQ (map (fun row => qval (snd row))
                 (filter (fun row => mem (fst row) T) key))).
Proof.
  intros Hfin. unfold total_at. rewrite <- np_sum_Fin. f_equal.
  unfold Series_values, all_finite in *. rewrite Forall_map in Hfin.
  induction Hfin as [| row key Hrow _ IH]; simpl; [reflexivity |].
  destruct (mem (fst row) T); simpl; [| exact IH].
  now rewrite IH, <- (finite_qval _ Hrow).
Qed.

Lemma value_order_Fin (asc : bool) (p q : Qc) :
  value_order asc (Fin p) (Fin q) = true ->
  if asc then (p <= q)%Qc else (q <= p)%Qc.
Proof.
  unfold value_order. cbn [is_nan fle].
  destruct asc; intros H; now apply Qc_leb_le.
Qed.

(** Of all sets of as many hours, the hours that rank first have the
    least total (ascending) or the greatest (descending). *)
Lemma selects_extremal (asc : bool) (key : Series) (k : nat)
    (T T' : list label) :
  selects asc key k T -> NoDup (Series_index key) ->
  all_finite (Series_values key) ->
  NoDup T -> incl T (Series_index key) ->
  NoDup T' -> incl T' (Series_index key) -> length T' = length T ->
  fle (if asc then total_at key T else total_at key T')
      (if asc then total_at key T' else total_at key T) = true.
Proof.
  intros Hsel Hnd Hfin HT HTin HT' HTin' Hlen.
  rewrite !(total_at_finite _ _ Hfin).
  set (inT := fun row : label * float => mem (fst row) T).
  set (inT' := fun row : label * float => mem (fst row) T').
  set (c := fun row : label * float => qval (snd row)).
  set (g := fun row : label * float =>
              ((if inT' row then 1 else 0) - (if inT row then 1 else 0))%Qc).
  assert (Hg0 : sumQ (map g key) = 0%Qc).
  { unfold g. rewrite sumQ_sub_map, !sumQ_count. unfold inT, inT'.
    rewrite !filter_rows_length by assumption. rewrite Hlen. ring. }
  assert (Hgc : forall s : Qc,
             sumQ (map (fun row => g row * (s * c row))%Qc key)
             = (s * (sumQ (map c (filter inT' key))
                     - sumQ (map c (filter inT key))))%Qc).
  { intros s. unfold g. apply indicator_diff_sum. }
  assert (Hfle : forall x y : Qc, (x <= y)%Qc -> fle (Fin x) (Fin y) = true).
  { intros x y H. now apply Qc_leb_le. }
  destruct k as [| k'].
  { destruct Hsel as [chosen [rest [_ [E [Hk _]]]]].
    apply length_zero_iff_nil in Hk. subst chosen. simpl in E. subst T.
    apply length_zero_iff_nil in Hlen. subst T'.
    destruct asc; apply Hfle, Qcle_refl. }
  destruct (selects_threshold asc key (S k') T Hsel Hnd) as [m [Hm Hth]];
    [discriminate |].
  assert (Hrowfin : forall row, In row key -> is_finite (snd row) = true).
  { intros row Hrow. unfold all_finite, Series_values in Hfin.
    rewrite Forall_map, Forall_forall in Hfin. now apply Hfin. }
  assert (Hord : forall a b, In a key -> In b key ->
                   row_by_value asc a b = true ->
                   if asc then (c a <= c b)%Qc else (c b <= c a)%Qc).
  { intros a b Ha Hb H. unfold row_by_value in H.
    rewrite (finite_qval _ (Hrowfin a Ha)), (finite_qval _ (Hrowfin b Hb)) in H.
    now apply value_order_Fin in H. }
  destruct asc.
  - apply Hfle.
    pose proof (threshold_sum inT g c (c m) key) as G.
    rewrite Hg0 in G.
    specialize (Hgc 1%Qc).
    rewrite (map_ext (fun row => (g row * (1 * c row))%Qc)
               (fun row => (g row * c row)%Qc)) in Hgc
      by (intros; ring).
    rewrite Hgc in G.
    assert (G' : (c m * 0
                  <= 1 * (sumQ (map c (filter inT' key))
                          - sumQ (map c (filter inT key))))%Qc).
    { apply G. intros row Hrow. specialize (Hth row Hrow).
      fold (inT row) in Hth. unfold g.
      destruct (inT row) eqn:E.
      - split; [exact (Hord row m Hrow Hm Hth) |].
        destruct (inT' row); vm_compute; discriminate.
      - split; [exact (Hord m row Hm Hrow Hth) |].
        destruct (inT' row); vm_compute; discriminate. }
    set (A := sumQ (map c (filter inT' key))) in *.
    set (B := sumQ (map c (filter inT key))) in *.
    set (th := c m) in *. clearbody A B th. clear - G'.
    to_Q. nra.
  - apply Hfle.
    pose proof (threshold_sum inT g (fun row => (-(1) * c row)%Qc)
                  (-(1) * c m)%Qc key) as G.
    rewrite Hg0, (Hgc (-(1))%Qc) in G.
    assert (G' : (- (1) * c m * 0
                  <= - (1) * (sumQ (map c (filter inT' key))
                              - sumQ (map c (filter inT key))))%Qc).
    { apply G. intros row Hrow. specialize (Hth row Hrow).
      fold (inT row) in Hth. unfold g.
      destruct (inT row) eqn:E.
      - split.
        + pose proof (Hord row m Hrow Hm Hth) as H. cbv beta iota in H.
          set (x := c row) in *. set (y := c m) in *. clearbody x y.
          clear - H. to_Q. nra.
        + destruct (inT' row); vm_compute; discriminate.
      - split.
        + pose proof (Hord m row Hm Hrow Hth) as H. cbv beta iota in H.
          set (x := c row) in *. set (y := c m) in *. clearbody x y.
          clear - H. to_Q. nra.
        + destruct (inT' row); vm_compute; discriminate. }
    set (A := sumQ (map c (filter inT' key))) in *.
    set (B := sumQ (map c (filter inT key))) in *.
    set (th := c m) in *. clearbody A B th. clear - G'.
    to_Q. nra.
Qed.

Lemma selects_wf (asc : bool) (key : Series) (k : nat) (T : list label) :
  selects asc key k T -> NoDup (Series_index key) ->
  NoDup T /\ incl T (Series_index key) /\ length T = k.
Proof.
  intros [chosen [rest [Hp [-> [Hk _]]]]] Hnd.
  assert (Hp' : Permutation (Series_index chosen ++ Series_index rest)
                  (Series_index key)).
  { unfold Series_index. rewrite <- map_app. now apply Permutation_map. }
  split; [| split].
  - apply (NoDup_app_remove_r _ (Series_index rest)).
    eapply Permutation_NoDup; [symmetry; exact Hp' | exact Hnd].
  - intros x Hx. eapply Permutation_in; [exact Hp' |].
    apply in_or_app. now left.
  - now rewrite Series_index_length.
Qed.

Section Ranking.

Context {srt : PandasSort} {srt_ok : PandasSortSpec srt}.

(** Lines 79-107 on valid inputs: the hours selected rank first in the
    key of the strategy, taken in timestamp order. *)
Lemma selection_ranked (ci_series : Series) (strategy : string)
    (renewable_share : option Series) (n : Z) :
  hourly_series ci_series ->
  strategy_inputs strategy renewable_share ci_series ->
  (0 <= n <= 24)%Z ->
  exists asc key T,
    sort_key strategy ci_series renewable_share = Some (asc, key)
    /\ target_hours_of ci_series strategy renewable_share n = Ok T
    /\ selects asc key (Z.to_nat n) T
    /\ Series_index key = Series_index (sort_index ci_series)
    /\ (strategy = "low_intensity"%string -> key = sort_index ci_series).
Proof.
  intros Hh Hs Hn. pose proof Hh as [Hlen Hnd].
  assert (Hcs := sort_index_day_order ci_series Hnd).
  assert (Hlen' : length (sort_index ci_series) = 24%nat).
  { now rewrite sort_index_length. }
  unfold target_hours_of. rewrite Hlen'. cbn [Nat.eqb negb].
  destruct Hs as [-> | [-> [rs [-> [Hrs Hin]]]]].
  - exists true, (day_order ci_series),
      (slice_to (Series_index (sort_values true (sort_index ci_series))) n).
    split; [reflexivity |]. split; [reflexivity |].
    split; [| now rewrite Hcs].
    apply head_selects.
    + now rewrite Hcs.
    + rewrite <- Hcs, Hlen'. lia.
  - destruct (loc_aligned rs (Series_index (sort_index ci_series)) Hrs)
      as [key [Hloc Hkey]].
    { intros x Hx. apply Hin.
      eapply Permutation_in; [apply sort_index_labels | exact Hx]. }
    exists false, key,
      (slice_to (Series_index (sort_values false (sort_index key))) n).
    split.
    { unfold sort_key. cbn [String.eqb Ascii.eqb Bool.eqb].
      now rewrite <- Hcs, Hloc. }
    split.
    { unfold align_renewable_share. cbn [String.eqb Ascii.eqb Bool.eqb].
      rewrite Hloc. reflexivity. }
    split; [| split; [exact Hkey | discriminate]].
    apply head_selects.
    + apply sort_index_perm.
    + assert (length key = 24%nat).
      { rewrite <- (Series_index_length key), Hkey.
        now rewrite Series_index_length. }
      lia.
Qed.

End Ranking.

(** X10. The selection is the best of its size.  On valid inputs, with finite
    values in the key of the strategy, no set of as many hours of the day
    has a smaller total carbon intensity than the target hours of
    "low_intensity", and none has a larger total renewable share than
    those of "max_renewable". *)
Theorem target_hours_extremal (srt : PandasSort) (srt_ok : PandasSortSpec srt)
    (ci_series : Series) (strategy : string)
    (renewable_share : option Series) (n : Z) :
  hourly_series ci_series ->
  strategy_inputs strategy renewable_share ci_series ->
  (0 <= n <= 24)%Z ->
  exists asc key T,
    sort_key strategy ci_series renewable_share = Some (asc, key)
    /\ target_hours_of ci_series strategy renewable_share n = Ok T
    /\ (all_finite (Series_values key) ->
        forall T',
          NoDup T' -> incl T' (Series_index key) -> length T' = length T ->
          fle (if asc then total_at key T else total_at key T')
              (if asc then total_at key T' else total_at key T) = true).
Proof.
  intros Hh Hs Hn.
  destruct (selection_ranked ci_series strategy renewable_share n Hh Hs Hn)
    as (asc & key & T & Hkey & Ht & Hsel & Hidx & _).
  exists asc, key, T. split; [exact Hkey |]. split; [exact Ht |].
  intros Hfin T' HT' Hin' Hlen.
  assert (Hnd : NoDup (Series_index key)).
  { rewrite Hidx. now apply hourly_sorted. }
  destruct (selects_wf asc key _ T Hsel Hnd) as [HT [Hin _]].
  now apply (selects_extremal asc key (Z.to_nat n) T T').
Qed.

(** The theorem on [sample_day] under "max_renewable" with
    [sample_share]. *)
Lemma target_hours_extremal_witness :
  exists asc key T,
    sort_key "max_renewable" sample_day (Some sample_share) = Some (asc, key)
    /\ target_hours_of (srt := stable_kind) sample_day "max_renewable"
         (Some sample_share) 4 = Ok T
    /\ (all_finite (Series_values key) ->
        forall T',
          NoDup T' -> incl T' (Series_index key) -> length T' = length T ->
          fle (if asc then total_at key T else total_at key T')
              (if asc then total_at key T' else total_at key T) = true).
Proof.
  apply (target_hours_extremal stable_kind stable_kind_spec).
  - split; [reflexivity | apply distinct_NoDup; vm_compute; reflexivity].
  - right. split; [reflexivity |]. exists sample_share.
    split; [reflexivity |].
    split; [apply distinct_NoDup | apply forallb_mem_incl];
      vm_compute; reflexivity.
  - lia.
Defined.

(* ================================================================= *)
(** ** The mean intensity of the target hours *)

Lemma Qc_of_Z_le (a b : Z) :
  (a <= b)%Z -> (Q2Qc (inject_Z a) <= Q2Qc (inject_Z b))%Qc.
Proof.
  intros H. unfold Qcle. cbn [this Q2Qc]. rewrite !Qred_correct.
  unfold Qle. simpl. lia.
Qed.

Lemma Qc_of_Z_lt (a b : Z) :
  (a < b)%Z -> (Q2Qc (inject_Z a) < Q2Qc (inject_Z b))%Qc.
Proof.
  intros H. unfold Qclt. cbn [this Q2Qc]. rewrite !Qred_correct.
  unfold Qlt. simpl. lia.
Qed.

(** No raw weight exceeds 1.2, a tenth of their sum at most. *)
Lemma RAW_Q_bounds :
  Forall (fun w => 0 <= w /\ w <= Q2Qc (6 # 5))%Qc RAW_Q.
Proof.
  apply Forall_forall. intros w Hw.
  assert (G : forallb (fun w => Qc_leb 0 w && Qc_leb w (Q2Qc (6 # 5))) RAW_Q
              = true) by (vm_compute; reflexivity).
  rewrite forallb_forall in G. specialize (G w Hw).
  apply andb_true_iff in G. destruct G as [G1 G2].
  split; now apply Qc_leb_le.
Qed.

Lemma RAW_Q_inv_sum : (/ sumQ RAW_Q)%Qc = Q2Qc (50 # 651).
Proof. apply Qc_is_canon. vm_compute. reflexivity. Qed.

(** With at most ten target hours no hour of the profile carries more
    than an even share of the day. *)
Lemma profile_share_bounds (d : Qc) (k : nat) (b : Qc) :
  (0 <= d)%Qc -> (1 <= k <= 10)%nat ->
  In b (map (fun w => w * (d / sumQ RAW_Q))%Qc RAW_Q) ->
  (0 <= b /\ b <= d / Q2Qc (inject_Z (Z.of_nat k)))%Qc.
Proof.
  intros Hd Hk Hb. apply in_map_iff in Hb. destruct Hb as [w [<- Hw]].
  pose proof RAW_Q_bounds as HB. rewrite Forall_forall in HB.
  destruct (HB w Hw) as [Hw0 Hw1]. clear HB Hw.
  unfold Qcdiv. rewrite RAW_Q_inv_sum.
  set (K := Q2Qc (inject_Z (Z.of_nat k))).
  assert (HK0 : (0 < K)%Qc).
  { change 0%Qc with (Q2Qc (inject_Z 0)). apply Qc_of_Z_lt. lia. }
  assert (HK1 : (K <= Q2Qc (inject_Z 10))%Qc) by (apply Qc_of_Z_le; lia).
  assert (HKi : (K * / K = 1)%Qc).
  { apply Qcmult_inv_r. intros E. rewrite E in HK0. discriminate. }
  set (iK := (/ K)%Qc) in *. clearbody iK K.
  set (e := Q2Qc (50 # 651)) in *.
  assert (He : (0 <= e /\ Q2Qc (6 # 5) * e <= Q2Qc (1 # 10))%Qc)
    by (split; vm_compute; discriminate).
  set (u := Q2Qc (6 # 5)) in *. set (v := Q2Qc (1 # 10)) in *.
  assert (Hv : (v * Q2Qc (inject_Z 10) = 1)%Qc)
    by (apply Qc_is_canon; reflexivity).
  set (ten := Q2Qc (inject_Z 10)) in *.
  clearbody e u v ten. destruct He as [He0 He1].
  apply (f_equal this) in HKi, Hv.
  assert (HKi' : (this (K * iK) == 1)%Q) by (rewrite HKi; reflexivity).
  assert (Hv' : (this (v * ten) == 1)%Q) by (rewrite Hv; reflexivity).
  clear HKi Hv. rewrite this_mult in HKi', Hv'.
  to_Q.
  set (qd := this d) in *. set (qw := this w) in *. set (qe := this e) in *.
  set (qK := this K) in *. set (qi := this iK) in *. set (qu := this u) in *.
  set (qv := this v) in *. set (qt := this ten) in *.
  clearbody qd qw qe qK qi qu qv qt.
  assert (Hi0 : (0 < qi)%Q) by nra.
  assert (Hvi : (qv <= qi)%Q) by nra.
  assert (Hwe : (qw * qe <= qv)%Q) by nra.
  assert (Hwe0 : (0 <= qw * qe)%Q) by nra.
  split; nra.
Qed.

Lemma in_triples (idx : list label) (bq cq : list Qc) (t : label)
    (b c : Qc) :
  In (t, (b, c)) (combine idx (combine bq cq)) ->
  In (t, Fin c) (combine idx (map Fin cq)) /\ In b bq.
Proof.
  revert bq cq. induction idx as [| t0 idx IH]; intros [| b0 bq] [| c0 cq];
    simpl; try tauto.
  intros [[= -> -> ->] | H]; [split; now left |].
  destruct (IH _ _ H). split; now right.
Qed.

(** Loads [b] less an even share [M] at the hours of [T], and their
    emissions. *)
Lemma triple_sums (T : list label) (M : Qc) (idx : list label)
    (bq cq : list Qc) :
  length idx = length bq -> length idx = length cq ->
  sumQ (map (fun a =>
               ((fst (snd a) - (if mem (fst a) T then M else 0))
                * snd (snd a))%Qc)
          (combine idx (combine bq cq)))
  = (sumQ (map (fun p => fst p * snd p)%Qc (combine bq cq))
     - M * sumQ (map snd (filter (fun row => mem (fst row) T)
                            (combine idx cq))))%Qc
  /\ sumQ (map (fun a =>
                  (fst (snd a) - (if mem (fst a) T then M else 0))%Qc)
             (combine idx (combine bq cq)))
     = (sumQ bq
        - M * Q2Qc (inject_Z
                      (Z.of_nat (length (filter (fun t => mem t T) idx)))))%Qc.
Proof.
  revert bq cq.
  induction idx as [| t idx IH]; intros [| b bq] [| c cq] Hb Hc;
    simpl in *; try discriminate.
  - change (Q2Qc (inject_Z 0)) with 0%Qc. split; ring.
  - destruct (IH bq cq) as [IH1 IH2]; [congruence | congruence |].
    rewrite IH1, IH2. destruct (mem t T); cbn [length map snd sumQ fold_right].
    + rewrite Qc_of_nat_S. unfold sumQ. split; ring.
    + unfold sumQ. split; ring.
Qed.

Lemma sumQ_nonneg (l : list Qc) :
  Forall (fun q => 0 <= q)%Qc l -> (0 <= sumQ l)%Qc.
Proof.
  induction 1 as [| q l Hq _ IH]; simpl; [apply Qcle_refl |].
  fold (sumQ l). set (s := sumQ l) in *. clearbody s. to_Q. lra.
Qed.

Lemma RAW_Q_pos : Forall (fun w => 0 < w)%Qc RAW_Q.
Proof.
  apply Forall_forall. intros w Hw.
  assert (G : forallb (fun w => Qc_ltb 0 w) RAW_Q = true)
    by (vm_compute; reflexivity).
  rewrite forallb_forall in G. now apply Qc_ltb_lt, G.
Qed.

Lemma RAW_Q_sum_pos : (0 < sumQ RAW_Q)%Qc.
Proof. reflexivity. Qed.

(** With at most ten target hours no raw weight exceeds an even share of
    the sum of the weights. *)
Lemma weight_share_bounds (k : nat) (w : Qc) :
  (1 <= k <= 10)%nat -> In w RAW_Q ->
  (0 <= w /\ w <= sumQ RAW_Q / Q2Qc (inject_Z (Z.of_nat k)))%Qc.
Proof.
  intros Hk Hw.
  assert (E : (w * (sumQ RAW_Q / sumQ RAW_Q) = w)%Qc).
  { field. apply RAW_Q_sum_neq0. }
  destruct (profile_share_bounds (sumQ RAW_Q) k
              (w * (sumQ RAW_Q / sumQ RAW_Q))%Qc) as [A B].
  - apply Qclt_le_weak, RAW_Q_sum_pos.
  - exact Hk.
  - exact (in_map (fun w => (w * (sumQ RAW_Q / sumQ RAW_Q))%Qc) _ _ Hw).
  - rewrite E in A, B. now split.
Qed.

Lemma exact_total_at_Fin (idx : list label) (cq : list Qc) (T : list label) :
  exact_total_at (combine idx (map Fin cq)) T
  = sumQ (map snd (filter (fun row => mem (fst row) T) (combine idx cq))).
Proof.
  unfold exact_total_at. f_equal.
  revert cq. induction idx as [| t idx IH]; intros [| c cq]; simpl;
    try reflexivity.
  destruct (mem t T); simpl; now rewrite IH.
Qed.

Lemma values_qval (idx : list label) (cq : list Qc) :
  length idx = length cq ->
  map qval (Series_values (combine idx (map Fin cq))) = cq.
Proof.
  intros H. unfold Series_values.
  rewrite map_snd_combine by now rewrite length_map.
  rewrite map_map. cbn [qval]. apply map_id.
Qed.

(** A quotient by a positive number keeps the order. *)
Lemma Qcdiv_le_compat (x y k : Qc) :
  (0 < k)%Qc -> (x <= y)%Qc -> (x / k <= y / k)%Qc.
Proof.
  intros Hk H.
  assert (Ek : (k * / k = 1)%Qc).
  { apply Qcmult_inv_r. intros E. rewrite E in Hk. discriminate. }
  unfold Qcdiv. set (i := (/ k)%Qc) in *. clearbody i.
  apply (f_equal this) in Ek.
  assert (Ek' : (this (k * i) == 1)%Q) by (rewrite Ek; reflexivity).
  clear Ek. rewrite this_mult in Ek'. to_Q.
  set (a := this x) in *. set (b := this y) in *. set (c := this k) in *.
  set (j := this i) in *. clearbody a b c j.
  assert (Hj : (0 < j)%Q) by nra. nra.
Qed.

Lemma Qcdiv_nonneg (x k : Qc) : (0 <= x)%Qc -> (0 < k)%Qc -> (0 <= x / k)%Qc.
Proof.
  intros Hx Hk. replace 0%Qc with (0 / k)%Qc by (unfold Qcdiv; ring).
  now apply Qcdiv_le_compat.
Qed.

Lemma Qcdiv_pos (x k : Qc) : (0 < x)%Qc -> (0 < k)%Qc -> (0 < x / k)%Qc.
Proof.
  intros Hx Hk.
  assert (Hk0 : k <> 0%Qc) by (intros ->; discriminate).
  assert (E : (x = x / k * k)%Qc) by (field; exact Hk0).
  set (q := (x / k)%Qc) in *. clearbody q. subst x.
  to_Q. nra.
Qed.

Section DayView.

Context {srt : PandasSort} {srt_ok : PandasSortSpec srt}.

(** A day of finite values in timestamp order: its hours and its values,
    side by side. *)
Lemma day_view (ci_series : Series) :
  hourly_series ci_series ->
  all_finite (Series_values ci_series) ->
  exists (idx : list label) (cq : list Qc),
    day_order ci_series = combine idx (map Fin cq)
    /\ sort_index ci_series = combine idx (map Fin cq)
    /\ idx = Series_index (sort_index ci_series)
    /\ length idx = 24%nat /\ length cq = 24%nat /\ NoDup idx.
Proof.
  intros Hh Hfin.
  destruct (all_finite_Fin (Series_values (sort_index ci_series)))
    as [cq Hcq].
  { eapply all_finite_perm; [| exact Hfin].
    symmetry. apply Permutation_map, sort_index_perm. }
  destruct (hourly_sorted _ Hh) as [Hlen Hnd].
  exists (Series_index (sort_index ci_series)), cq.
  assert (E : sort_index ci_series
              = combine (Series_index (sort_index ci_series)) (map Fin cq)).
  { rewrite <- Hcq. unfold Series_index, Series_values.
    now rewrite combine_fst_snd. }
  split; [rewrite <- (sort_index_day_order _ (proj2 Hh)); exact E |].
  split; [exact E |]. split; [reflexivity |]. split; [exact Hlen |].
  split; [| exact Hnd].
  rewrite <- (length_map Fin cq), <- Hcq. unfold Series_values.
  now rewrite length_map, sort_index_length, (proj1 Hh).
Qed.

(** Under "low_intensity" with 1 to 10 target hours: the total intensity
    of the target hours against the weighted total of the day. *)
Lemma target_total_le_weighted (ci_series : Series)
    (renewable_share : option Series) (n : Z) :
  hourly_series ci_series ->
  all_finite (Series_values ci_series) ->
  (1 <= n <= 10)%Z ->
  exists T (idx : list label) (cq : list Qc),
    target_hours_of ci_series "low_intensity" renewable_share n = Ok T
    /\ length T = Z.to_nat n
    /\ day_order ci_series = combine idx (map Fin cq)
    /\ length idx = length cq
    /\ (sumQ RAW_Q / Q2Qc (inject_Z (Z.of_nat (length T)))
        * sumQ (map snd (filter (fun row => mem (fst row) T)
                           (combine idx cq)))
        <= sumQ (map (fun p => fst p * snd p) (combine RAW_Q cq)))%Qc.
Proof.
  intros Hh Hfin Hn.
  assert (Hs : strategy_inputs "low_intensity" renewable_share ci_series)
    by now left.
  destruct (day_view ci_series Hh Hfin)
    as (idx & cq & Hday & Hsi & Hidx0 & Lidx & Lcq & Hnd).
  destruct (selection_ranked ci_series "low_intensity" renewable_share n
              Hh Hs ltac:(lia))
    as (asc & key & T & Hkey & Ht & Hsel & Hidx & Hlow).
  assert (asc = true).
  { unfold sort_key in Hkey. cbn [String.eqb Ascii.eqb Bool.eqb] in Hkey.
    congruence. }
  subst asc. rewrite (Hlow eq_refl), Hsi in Hsel.
  assert (Hki : Series_index (combine idx (map Fin cq)) = idx).
  { unfold Series_index. apply map_fst_combine.
    now rewrite length_map, Lidx, Lcq. }
  destruct (selects_wf true _ _ T Hsel) as [HT [Hin HTk]].
  { now rewrite Hki. }
  rewrite Hki in Hin.
  exists T, idx, cq.
  split; [exact Ht |]. split; [exact HTk |]. split; [exact Hday |].
  split; [congruence |].
  destruct (selects_threshold true _ _ T Hsel) as [[tm vm] [Hm Hth]].
  { now rewrite Hki. }
  { lia. }
  assert (Hvm : exists th, vm = Fin th).
  { apply in_combine_r, in_map_iff in Hm. destruct Hm as [th [<- _]]. eauto. }
  destruct Hvm as [th ->].
  set (K := Q2Qc (inject_Z (Z.of_nat (length T)))) in *.
  set (M := (sumQ RAW_Q / K)%Qc).
  assert (Lb : length idx = length RAW_Q) by (rewrite Lidx; reflexivity).
  assert (Lc : length idx = length cq) by congruence.
  destruct (triple_sums T M idx RAW_Q cq Lb Lc) as [S1 S2].
  rewrite (filter_mem_length _ _ Hnd HT Hin) in S2. fold K in S2.
  pose proof (threshold_sum (fun a => mem (fst a) T)
                (fun a => (fst (snd a) - (if mem (fst a) T then M else 0))%Qc)
                (fun a => snd (snd a)) th
                (combine idx (combine RAW_Q cq))) as G.
  cbv beta in G. rewrite S1, S2 in G.
  assert (HK : K <> 0%Qc).
  { apply Qc_of_nat_neq0. lia. }
  assert (G' : (th * (sumQ RAW_Q - M * K)
                <= sumQ (map (fun p => fst p * snd p) (combine RAW_Q cq))
                   - M * sumQ (map snd
                                 (filter (fun row => mem (fst row) T)
                                    (combine idx cq))))%Qc).
  { apply G. intros [t [b c]] Ha. cbn [fst snd].
    destruct (in_triples _ _ _ _ _ _ Ha) as [Hrow Hbq].
    destruct (weight_share_bounds (length T) b ltac:(lia) Hbq) as [Hb0 Hb1].
    fold K in Hb1. fold M in Hb1.
    specialize (Hth (t, Fin c) Hrow). cbn [fst] in Hth.
    destruct (mem t T).
    - split.
      + unfold row_by_value in Hth. cbn [snd] in Hth.
        exact (value_order_Fin true _ _ Hth).
      + clear - Hb1. set (x := M) in *. clearbody x. to_Q. nra.
    - split.
      + unfold row_by_value in Hth. cbn [snd] in Hth.
        exact (value_order_Fin true _ _ Hth).
      + clear - Hb0. to_Q. nra. }
  clear G.
  assert (HMK : (M * K = sumQ RAW_Q)%Qc) by (unfold M; field; exact HK).
  rewrite HMK in G'.
  set (E := sumQ (map (fun p => (fst p * snd p)%Qc) (combine RAW_Q cq))) in *.
  set (C := sumQ (map snd (filter (fun row => mem (fst row) T)
                             (combine idx cq)))) in *.
  set (S := sumQ RAW_Q) in *.
  clearbody E C M S. clear - G'. to_Q. nra.
Qed.

End DayView.

(** The two means of a day of finite values, on its rationals. *)
Lemma mean_at_Fin (idx : list label) (cq : list Qc) (T : list label) :
  mean_at (combine idx (map Fin cq)) T
  = (sumQ (map snd (filter (fun row => mem (fst row) T) (combine idx cq)))
     / Q2Qc (inject_Z (Z.of_nat (length T))))%Qc.
Proof. unfold mean_at. now rewrite exact_total_at_Fin. Qed.

Lemma weighted_mean_Fin (idx : list label) (cq : list Qc) :
  length idx = length cq ->
  weighted_mean (combine idx (map Fin cq))
  = (sumQ (map (fun p => fst p * snd p) (combine RAW_Q cq))
     / sumQ RAW_Q)%Qc.
Proof. intros H. unfold weighted_mean. now rewrite values_qval. Qed.

(** From an even share times a total to the two means. *)
Lemma means_cross (c e s k : Qc) :
  (0 < s)%Qc -> (0 < k)%Qc -> (s / k * c <= e)%Qc -> (c / k <= e / s)%Qc.
Proof.
  intros Hs Hk H.
  assert (Hs0 : s <> 0%Qc) by (intros ->; discriminate).
  assert (Hk0 : k <> 0%Qc) by (intros ->; discriminate).
  replace (c / k)%Qc with (s / k * c / s)%Qc by (field; now split).
  now apply Qcdiv_le_compat.
Qed.

Lemma Qc_of_nat_pos (n : nat) :
  n <> 0%nat -> (0 < Q2Qc (inject_Z (Z.of_nat n)))%Qc.
Proof.
  intros Hn. change 0%Qc with (Q2Qc (inject_Z 0)). apply Qc_of_Z_lt. lia.
Qed.

Lemma dot_nonneg (bq cq : list Qc) :
  Forall (fun w => 0 <= w)%Qc bq -> Forall (fun c => 0 <= c)%Qc cq ->
  (0 <= sumQ (map (fun p => fst p * snd p) (combine bq cq)))%Qc.
Proof.
  intros Hb Hc. apply sumQ_nonneg, Forall_map, Forall_forall.
  intros [b c] Hin. cbn [fst snd]. rewrite Forall_forall in Hb, Hc.
  pose proof (Hb b (in_combine_l _ _ _ _ Hin)).
  pose proof (Hc c (in_combine_r _ _ _ _ Hin)).
  to_Q. nra.
Qed.

Lemma dot_pos (bq cq : list Qc) :
  length bq = length cq ->
  Forall (fun w => 0 < w)%Qc bq -> Forall (fun c => 0 <= c)%Qc cq ->
  Exists (fun c => 0 < c)%Qc cq ->
  (0 < sumQ (map (fun p => fst p * snd p) (combine bq cq)))%Qc.
Proof.
  intros Hl Hb Hc He. revert bq Hl Hb.
  induction He as [c cq Hpos | c cq He IH]; intros [| b bq] Hl Hb;
    try discriminate; inversion Hb as [| ? ? Hb0 Hb']; subst;
    inversion Hc as [| ? ? Hc0 Hc']; subst; cbn [combine map fst snd].
  - assert (G : (0 <= sumQ (map (fun p => fst p * snd p) (combine bq cq)))%Qc).
    { apply dot_nonneg; [| exact Hc'].
      eapply Forall_impl; [| exact Hb']. intros a. apply Qclt_le_weak. }
    simpl. fold (sumQ (map (fun p => (fst p * snd p)%Qc) (combine bq cq))).
    set (s := sumQ _) in *. clearbody s. to_Q. nra.
  - assert (G := IH Hc' bq ltac:(simpl in Hl; congruence) Hb').
    simpl. fold (sumQ (map (fun p => (fst p * snd p)%Qc) (combine bq cq))).
    set (s := sumQ _) in *. clearbody s. to_Q. nra.
Qed.

(** The values of a day of finite values that are not negative. *)
Lemma nonneg_values (cq : list Qc) (l : list float) :
  Permutation (map Fin cq) l ->
  Forall (fun x => fle fzero x = true) l ->
  Forall (fun c => 0 <= c)%Qc cq.
Proof.
  intros Hp Hl. rewrite <- Hp in Hl. rewrite Forall_map in Hl.
  eapply Forall_impl; [| exact Hl]. intros q Hq. now apply Qc_leb_le.
Qed.

Lemma positive_value (cq : list Qc) (l : list float) :
  Permutation (map Fin cq) l ->
  Exists (fun x => flt fzero x = true) l ->
  Exists (fun c => 0 < c)%Qc cq.
Proof.
  intros Hp Hl. rewrite <- Hp in Hl. rewrite Exists_map in Hl.
  eapply Exists_impl; [| exact Hl]. intros q Hq. now apply Qc_ltb_lt.
Qed.

Lemma day_order_values (ci_series : Series) (idx : list label)
    (cq : list Qc) :
  day_order ci_series = combine idx (map Fin cq) ->
  length idx = length cq ->
  Permutation (map Fin cq) (Series_values ci_series).
Proof.
  intros Hd Hl.
  rewrite <- (map_snd_combine idx (map Fin cq)) by now rewrite length_map.
  rewrite <- Hd. apply Permutation_map. apply isort_perm.
Qed.

(** X11. The cleanest hours against the hours of the profile.  On a valid day
    with finite carbon intensities the strategy "low_intensity" with 1 to
    10 target hours selects hours whose mean carbon intensity does not
    exceed the mean intensity the baseline load meets, the mean of the
    day weighted by the household profile: no hour of the profile
    carries more than a tenth of the daily load, so the flexible load
    leaves hours that are, on average, no cleaner than the hours it goes
    to.  Both means are figures of the inputs, taken as the rationals
    they are; the selection itself is the program's. *)
Theorem target_hours_below_profile_mean (srt : PandasSort)
    (srt_ok : PandasSortSpec srt) (ci_series : Series)
    (renewable_share : option Series) (n : Z) :
  hourly_series ci_series ->
  all_finite (Series_values ci_series) ->
  (1 <= n <= 10)%Z ->
  exists T,
    target_hours_of ci_series "low_intensity" renewable_share n = Ok T
    /\ length T = Z.to_nat n
    /\ (mean_at (day_order ci_series) T
        <= weighted_mean (day_order ci_series))%Qc.
Proof.
  intros Hh Hfin Hn.
  destruct (target_total_le_weighted ci_series renewable_share n Hh Hfin Hn)
    as (T & idx & cq & Ht & HT & Hd & Hl & G).
  exists T. split; [exact Ht |]. split; [exact HT |].
  rewrite Hd, mean_at_Fin, (weighted_mean_Fin _ _ Hl).
  apply means_cross; [apply RAW_Q_sum_pos | | exact G].
  apply Qc_of_nat_pos. lia.
Qed.

(** The theorem on [sample_day] with four target hours. *)
Lemma target_hours_below_profile_mean_witness :
  exists T,
    target_hours_of (srt := stable_kind) sample_day "low_intensity" None 4
    = Ok T
    /\ length T = Z.to_nat 4
    /\ (mean_at (day_order sample_day) T
        <= weighted_mean (day_order sample_day))%Qc.
Proof.
  apply (target_hours_below_profile_mean stable_kind stable_kind_spec).
  - split; [reflexivity | apply distinct_NoDup; vm_compute; reflexivity].
  - repeat constructor.
  - lia.
Defined.

(** Ten is the limit: with eleven target hours, on a day whose only clean
    hour is the hour of the evening peak, the mean intensity of the
    target hours exceeds the weighted mean of the day. *)
Lemma eleven_hours_can_be_dirtier :
  exists T,
    target_hours_of (srt := stable_kind) evening_trough_day "low_intensity"
      None 11 = Ok T
    /\ (weighted_mean (day_order evening_trough_day)
        < mean_at (day_order evening_trough_day) T)%Qc.
Proof. eexists. split; [reflexivity |]. vm_compute. reflexivity. Qed.

(** X12. The share of emissions a shift can save.  On a valid day with finite
    carbon intensities that are not negative and not all zero, under
    "low_intensity" with 1 to 10 target hours, the reduction factor of
    the target hours, 1 less the quotient of their mean intensity by the
    weighted mean of the day, lies between 0 and 1.  The factor is a
    figure of the inputs, taken as the rationals they are. *)
Theorem reduction_factor_bounds (srt : PandasSort)
    (srt_ok : PandasSortSpec srt) (ci_series : Series)
    (renewable_share : option Series) (n : Z) :
  hourly_series ci_series ->
  all_finite (Series_values ci_series) ->
  Forall (fun x => fle fzero x = true) (Series_values ci_series) ->
  Exists (fun x => flt fzero x = true) (Series_values ci_series) ->
  (1 <= n <= 10)%Z ->
  exists T,
    target_hours_of ci_series "low_intensity" renewable_share n = Ok T
    /\ (0 < weighted_mean (day_order ci_series))%Qc
    /\ (0 <= reduction_factor (day_order ci_series) T)%Qc
    /\ (reduction_factor (day_order ci_series) T <= 1)%Qc.
Proof.
  intros Hh Hfin Hpos Hex Hn.
  destruct (target_total_le_weighted ci_series renewable_share n Hh Hfin Hn)
    as (T & idx & cq & Ht & HT & Hd & Hl & G).
  exists T. split; [exact Ht |].
  assert (Hp := day_order_values ci_series idx cq Hd Hl).
  assert (Hc0 := nonneg_values cq _ Hp Hpos).
  assert (Hc1 := positive_value cq _ Hp Hex).
  assert (HK : (0 < Q2Qc (inject_Z (Z.of_nat (length T))))%Qc).
  { apply Qc_of_nat_pos. lia. }
  assert (Hle : (mean_at (day_order ci_series) T
                 <= weighted_mean (day_order ci_series))%Qc).
  { rewrite Hd, mean_at_Fin, (weighted_mean_Fin _ _ Hl).
    apply means_cross; [apply RAW_Q_sum_pos | exact HK | exact G]. }
  assert (Hm0 : (0 <= mean_at (day_order ci_series) T)%Qc).
  { rewrite Hd, mean_at_Fin. apply Qcdiv_nonneg; [| exact HK].
    apply sumQ_nonneg, Forall_map, Forall_forall.
    intros [t c] Hrow. apply filter_In in Hrow. destruct Hrow as [Hrow _].
    apply in_combine_r in Hrow. rewrite Forall_forall in Hc0.
    now apply Hc0. }
  assert (Hw : (0 < weighted_mean (day_order ci_series))%Qc).
  { rewrite Hd, (weighted_mean_Fin _ _ Hl).
    assert (Lr : length RAW_Q = length cq).
    { destruct Hh as [Hlen _].
      apply Permutation_length in Hp. rewrite length_map in Hp.
      unfold Series_values in Hp. rewrite length_map, Hlen in Hp.
      now rewrite Hp. }
    assert (E' := dot_pos RAW_Q cq Lr RAW_Q_pos Hc0 Hc1).
    apply Qcdiv_pos; [exact E' | apply RAW_Q_sum_pos]. }
  split; [exact Hw |].
  unfold reduction_factor.
  set (m := mean_at _ _) in *. set (w := weighted_mean _) in *.
  clearbody m w. clear - Hle Hm0 Hw.
  assert (Hw0 : w <> 0%Qc) by (intros ->; discriminate).
  assert (Em : (m = m / w * w)%Qc) by (field; exact Hw0).
  set (q := (m / w)%Qc) in *. clearbody q. subst m.
  split; to_Q; nra.
Qed.

(** The theorem on [sample_day] with four target hours. *)
Lemma reduction_factor_bounds_witness :
  exists T,
    target_hours_of (srt := stable_kind) sample_day "low_intensity" None 4
    = Ok T
    /\ (0 < weighted_mean (day_order sample_day))%Qc
    /\ (0 <= reduction_factor (day_order sample_day) T)%Qc
    /\ (reduction_factor (day_order sample_day) T <= 1)%Qc.
Proof.
  apply (reduction_factor_bounds stable_kind stable_kind_spec).
  - split; [reflexivity | apply distinct_NoDup; vm_compute; reflexivity].
  - repeat constructor.
  - repeat constructor.
  - constructor. reflexivity.
  - lia.
Defined.

(* ================================================================= *)
(** ** Any daily energy *)

Lemma np_sum_RAW : np_sum HOUSEHOLD_PROFILE_RAW = Fin (Q2Qc (651 # 50)).
Proof.
  rewrite HOUSEHOLD_PROFILE_RAW_Fin, np_sum_Fin. f_equal.
  apply Qc_is_canon. vm_compute. reflexivity.
Qed.

(** A weight times a share of the day lies between 0 and the day. *)
Lemma weight_within (w d : Qc) :
  In w RAW_Q ->
  let q := (w * (d / sumQ RAW_Q))%Qc in
  ((0 <= d)%Qc -> (0 <= q)%Qc /\ (q <= d)%Qc)
  /\ ((d <= 0)%Qc -> (d <= q)%Qc /\ (q <= 0)%Qc).
Proof.
  intros Hw q. subst q.
  pose proof RAW_Q_bounds as HB. rewrite Forall_forall in HB.
  destruct (HB w Hw) as [Hw0 Hw1]. clear HB Hw.
  unfold Qcdiv. rewrite RAW_Q_inv_sum.
  assert (He : (0 <= Q2Qc (50 # 651)
                /\ Q2Qc (6 # 5) * Q2Qc (50 # 651) <= 1)%Qc)
    by (split; vm_compute; discriminate).
  set (e := Q2Qc (50 # 651)) in *. set (u := Q2Qc (6 # 5)) in *.
  clearbody e u. destruct He as [He0 He1].
  to_Q.
  set (qd := this d) in *. set (qw := this w) in *. set (qe := this e) in *.
  set (qu := this u) in *. clearbody qd qw qe qu.
  assert (Hwe0 : (0 <= qw * qe)%Q) by nra.
  assert (Hwe1 : (qw * qe <= 1)%Q) by nra.
  split; intros Hd; split; nra.
Qed.

(** X13. [make_household_profile] accepts any [daily_kwh].  For a finite one
    every hourly value is finite and lies between 0 and [daily_kwh]: no
    hour is given more than the day, loads of a day that is not negative
    are not negative, and the profile of a day of 0 is zero throughout
    (the quotient by the sum of the weights is below 1, so rounding
    keeps the bounds, while a positive load may round to 0).  A NaN or
    infinite [daily_kwh] fills the 24 hours with itself.  Nothing is
    raised in either case. *)
Theorem profile_within_daily_kwh (daily_kwh : float) (h : nat) (v : float) :
  nth_error (Series_values (make_household_profile daily_kwh)) h = Some v ->
  match daily_kwh with
  | Fin d =>
      exists q, v = Fin q
                /\ ((0 <= d)%Qc -> (0 <= q)%Qc /\ (q <= d)%Qc)
                /\ ((d <= 0)%Qc -> (d <= q)%Qc /\ (q <= 0)%Qc)
  | _ => v = daily_kwh
  end.
Proof.
  rewrite profile_values. intros H.
  apply nth_error_In, in_map_iff in H. destruct H as [x [<- Hx]].
  rewrite HOUSEHOLD_PROFILE_RAW_Fin in Hx.
  apply in_map_iff in Hx. destruct Hx as [w [<- Hin]].
  assert (Hw : (0 < w)%Qc).
  { pose proof RAW_Q_pos as H. rewrite Forall_forall in H. now apply H. }
  rewrite np_sum_RAW.
  destruct daily_kwh as [d | s |].
  - exists (w * (d / sumQ RAW_Q))%Qc. split; [| now apply weight_within].
    unfold fdiv, fmul.
    assert (E0 : Qc_eqb (Q2Qc (651 # 50)) 0 = false) by reflexivity.
    rewrite E0.
    replace (sumQ RAW_Q) with (Q2Qc (651 # 50));
      [reflexivity | apply Qc_is_canon; vm_compute; reflexivity].
  - unfold fdiv, fmul.
    assert (E1 : Qc_ltb (Q2Qc (651 # 50)) 0 = false) by reflexivity.
    rewrite E1, xorb_false_r.
    assert (E2 : Qc_eqb w 0 = false).
    { apply Qc_eqb_neq. intros ->. discriminate. }
    assert (E3 : Qc_ltb w 0 = false).
    { destruct (Qc_ltb w 0) eqn:E3; [| reflexivity].
      apply Qc_ltb_lt in E3. exfalso. apply (Qclt_not_le _ _ E3).
      now apply Qclt_le_weak. }
    now rewrite E2, E3.
  - reflexivity.
Qed.

(** The theorem at hour 18 of a 14 kWh day. *)
Lemma profile_within_daily_kwh_witness :
  exists q, Fin (Q2Qc (120 # 100) * (Q2Qc 14 / sumQ RAW_Q))%Qc = Fin q
            /\ ((0 <= Q2Qc 14)%Qc -> (0 <= q)%Qc /\ (q <= Q2Qc 14)%Qc)
            /\ ((Q2Qc 14 <= 0)%Qc -> (Q2Qc 14 <= q)%Qc /\ (q <= 0)%Qc).
Proof.
  apply (profile_within_daily_kwh (Fin (Q2Qc 14)) 18).
  vm_compute. reflexivity.
Defined.

(** X14. A day of no consumption.  [daily_kwh] = 0 is accepted: on valid
    inputs with a finite [flexible_share] and finite carbon intensities,
    for every [n_target_hours], the run returns loads and emission totals
    of zero, and the relative reduction is the NaN of 0/0. *)
Theorem zero_daily_energy (srt : PandasSort) (srt_ok : PandasSortSpec srt)
    (ci_series : Series) (f : Qc) (strategy : string)
    (renewable_share : option Series) (n : Z) :
  hourly_series ci_series ->
  strategy_inputs strategy renewable_share ci_series ->
  all_finite (Series_values ci_series) ->
  exists r,
    run_shift_scenario ci_series fzero (Fin f) strategy renewable_share n
    = Ok r
    /\ Forall (fun x => x = fzero) (baseline_load r)
    /\ Forall (fun x => x = fzero) (shifted_load r)
    /\ total_baseline_emissions r = fzero
    /\ total_shifted_emissions r = fzero
    /\ relative_reduction r = NaN.
Proof.
  intros Hh Hs Hfin.
  destruct (run_ranked ci_series fzero (Fin f) strategy renewable_share
              Hh Hs) as [ranked [Hl [Hnd [Hp Hn]]]].
  destruct (Hn n) as [Ht [r [Hr [Hi [Hb Hsh]]]]].
  exists r. split; [exact Hr |].
  destruct (run_emissions _ _ _ _ _ _ _ Hr) as [Hbe [Hse [Htb Hts]]].
  destruct (run_Ok_fields _ _ _ _ _ _ _ Hr) as [_ [_ [_ [Hc _]]]].
  destruct (run_Ok_inv _ _ _ _ _ _ _ Hr) as [Hlen [rs' [T [Hal Hch]]]].
  destruct (run_fields ci_series fzero (Fin f) strategy renewable_share rs'
              n T Hlen Hal Hch) as (r' & Hr' & _ & _ & _ & _ & _ & _ & Hrr).
  assert (r' = r) by congruence. subst r'.
  destruct (all_finite_Fin (ci r)) as [cq Hcq].
  { rewrite Hc. eapply all_finite_perm; [| exact Hfin].
    symmetry. apply Permutation_map, sort_index_perm. }
  assert (Hb0 : baseline_load r = map Fin (map (fun _ => 0%Qc) RAW_Q)).
  { rewrite Hb. unfold fzero. rewrite profile_values_Fin. f_equal.
    apply map_ext. intros w. unfold Qcdiv. ring. }
  assert (Hzero : forall (A : Type) (l : list A),
             Forall (fun x => x = fzero) (map Fin (map (fun _ => 0%Qc) l))).
  { intros A l. rewrite map_map. apply Forall_map, Forall_forall. reflexivity. }
  assert (Hs0 : shifted_load r = map Fin (map (fun _ => 0%Qc) (index r))).
  { rewrite Hsh, Hb0. rewrite total_flex_Fin.
    assert (E0 : sumQ (map (fun _ : Qc => 0%Qc) RAW_Q) = 0%Qc)
      by (apply Qc_is_canon; reflexivity).
    rewrite E0. replace (0 * f)%Qc with 0%Qc by ring.
    assert (Hfl : forall t,
               flex_at t (slice_to ranked n)
                 (Fin 0 / of_nat (length (slice_to ranked n)))%fl = fzero).
    { intros t. destruct (slice_to ranked n) as [| t0 T0]; [reflexivity |].
      rewrite per_hour_Fin by discriminate.
      replace (0 / Q2Qc (inject_Z (Z.of_nat (length (t0 :: T0)))))%Qc
        with 0%Qc by (unfold Qcdiv; ring).
      apply flex_at_zero. }
    rewrite combine_map_Fin, !map_map.
    assert (Lidx : length (index r) = length (map (fun _ : Qc => 0%Qc) RAW_Q)).
    { rewrite Hi, Series_index_length, sort_index_length, (proj1 Hh).
      reflexivity. }
    rewrite <- (map_fst_combine (index r) (map (fun _ : Qc => 0%Qc) RAW_Q)
                  Lidx) at 2.
    rewrite map_map. apply map_ext_in. intros [t b] Hin. cbn [fst snd].
    rewrite Hfl. apply in_combine_r, in_map_iff in Hin.
    destruct Hin as [w [<- _]].
    unfold fone, fzero, fsub, fopp, fmul, fadd. f_equal; ring. }
  split; [rewrite Hb0; apply Hzero |].
  split; [rewrite Hs0; apply Hzero |].
  assert (Hdot : forall (A : Type) (l : list A),
             np_sum (mul_arrays (map Fin (map (fun _ => 0%Qc) l)) (map Fin cq))
             = fzero).
  { intros A l. rewrite mul_arrays_Fin, np_sum_Fin. unfold fzero. f_equal.
    generalize cq. induction l as [| a l IH]; intros [| c cq']; simpl;
      try reflexivity.
    rewrite IH. ring. }
  assert (E1 : total_baseline_emissions r = fzero).
  { now rewrite Htb, Hbe, Hb0, Hcq, Hdot. }
  assert (E2 : total_shifted_emissions r = fzero).
  { now rewrite Hts, Hse, Hs0, Hcq, Hdot. }
  split; [exact E1 |]. split; [exact E2 |].
  rewrite Hrr, E1, E2. reflexivity.
Qed.

(** The theorem on [sample_day]. *)
Lemma zero_daily_energy_witness :
  exists r,
    run_shift_scenario (srt := stable_kind) sample_day fzero
      (Fin (Q2Qc (3 # 10))) "low_intensity" None 4 = Ok r
    /\ Forall (fun x => x = fzero) (baseline_load r)
    /\ Forall (fun x => x = fzero) (shifted_load r)
    /\ total_baseline_emissions r = fzero
    /\ total_shifted_emissions r = fzero
    /\ relative_reduction r = NaN.
Proof.
  apply (zero_daily_energy stable_kind stable_kind_spec).
  - split; [reflexivity | apply distinct_NoDup; vm_compute; reflexivity].
  - left. reflexivity.
  - repeat constructor.
Defined.

(* ================================================================= *)
(** ** The renewable-share calculator, case by case *)
Lemma Qc_ltb_ge (p q : Qc) : (q <= p)%Qc -> Qc_ltb p q = false.
Proof.
  intros H. destruct (Qc_ltb p q) eqn:E; [| reflexivity].
  apply Qc_ltb_lt in E. exfalso. now apply (Qclt_not_le _ _ E).
Qed.

Lemma clip_unit_Fin (x : float) :
  is_nan x = false ->
  exists q, clip fzero fone x = Fin q /\ (0 <= q)%Qc /\ (q <= 1)%Qc.
Proof.
  intros Hx. destruct (clip_unit_range x Hx) as [H0 H1].
  destruct (clip fzero fone x) as [q | [] |]; try discriminate.
  exists q. split; [reflexivity |]. unfold fzero, fone in *. cbn [fle] in *.
  split; now apply Qc_leb_le.
Qed.

(** A proper fraction r/g, with 0 <= r <= g and g > 0, is within [0,1]. *)
Lemma fraction_range (r g : Qc) :
  (0 < g)%Qc -> (0 <= r)%Qc -> (r <= g)%Qc ->
  (0 <= r / g)%Qc /\ (r / g <= 1)%Qc.
Proof.
  intros Hg Hr0 Hr1.
  assert (Hg0 : g <> 0%Qc) by (intros ->; discriminate).
  assert (E : r = (r / g * g)%Qc) by (field; exact Hg0).
  set (q := (r / g)%Qc) in *. clearbody q. subst r.
  split; to_Q; nra.
Qed.

(** The clip of a finite value at or beyond a bound is the bound. *)
Lemma clip_unit_above (q : Qc) : (1 <= q)%Qc -> clip fzero fone (Fin q) = fone.
Proof.
  intros H. unfold clip, fzero, fone. cbn [is_nan flt].
  rewrite (Qc_ltb_ge q 0)
    by (eapply Qcle_trans; [| exact H]; vm_compute; discriminate).
  destruct (Qc_ltb 1 q) eqn:E; [reflexivity |].
  f_equal. apply Qcle_antisym; [| exact H].
  destruct (Qclt_le_dec 1 q) as [H1 | H1]; [| exact H1].
  apply Qc_ltb_lt in H1. congruence.
Qed.

Lemma clip_unit_below (q : Qc) : (q <= 0)%Qc -> clip fzero fone (Fin q) = fzero.
Proof.
  intros H. unfold clip, fzero, fone. cbn [is_nan flt].
  destruct (Qc_ltb q 0) eqn:E; [reflexivity |].
  assert (q = 0%Qc).
  { apply Qcle_antisym; [exact H |].
    destruct (Qclt_le_dec q 0) as [H1 | H1]; [| exact H1].
    apply Qc_ltb_lt in H1. congruence. }
  subst q. reflexivity.
Qed.

(** The quotient by a positive number, against 0 and 1. *)
Lemma quotient_sides (r g : Qc) :
  (0 < g)%Qc ->
  ((g <= r)%Qc -> (1 <= r / g)%Qc) /\ ((r <= 0)%Qc -> (r / g <= 0)%Qc).
Proof.
  intros Hg.
  assert (Hg0 : g <> 0%Qc) by (intros ->; discriminate).
  assert (E : r = (r / g * g)%Qc) by (field; exact Hg0).
  set (q := (r / g)%Qc) in *. clearbody q. subst r.
  split; intros H; to_Q; nra.
Qed.

(** X15. The renewable share, case by case.  For an hour with finite RENEWABLE
    = r and GENERATION = g the calculator returns, under the timestamp of
    the hour: NaN exactly when r = 0 and g = 0, and otherwise a number in
    [0,1].  On a positive generation it is the quotient r/g itself when
    0 <= r <= g (in exact arithmetic), the share 1 when r >= g and the
    share 0 when r <= 0.  On zero generation with r <> 0 the division
    gives an infinity, which the clip turns into 1 or into 0 according
    to its sign; that sign is not stated here, since in the program it
    depends on the sign of the zero as well. *)
Theorem renewable_share_cases (df_day : list mix_row) (i : nat)
    (row : mix_row) (r g : Qc) :
  nth_error df_day i = Some row ->
  RENEWABLE row = Fin r -> GENERATION row = Fin g ->
  exists v,
    nth_error (compute_renewable_share df_day) i = Some (timestamp row, v)
    /\ (v = NaN <-> r = 0%Qc /\ g = 0%Qc)
    /\ (v <> NaN -> exists q, v = Fin q /\ (0 <= q)%Qc /\ (q <= 1)%Qc)
    /\ ((0 < g)%Qc -> (0 <= r)%Qc -> (r <= g)%Qc -> v = Fin (r / g))
    /\ ((0 < g)%Qc -> (g <= r)%Qc -> v = fone)
    /\ ((0 < g)%Qc -> (r <= 0)%Qc -> v = fzero)
    /\ (g = 0%Qc -> r <> 0%Qc -> v = fone \/ v = fzero).
Proof.
  intros Hrow Hr Hg.
  exists (clip fzero fone (Fin r / Fin g)%fl). split.
  { rewrite compute_renewable_share_rows.
    rewrite (map_nth_error _ _ _ Hrow). now rewrite Hr, Hg. }
  assert (Hnan : is_nan (Fin r / Fin g)%fl = true <-> r = 0%Qc /\ g = 0%Qc).
  { unfold fdiv. destruct (Qc_eqb g 0) eqn:Eg.
    - apply Qc_eqb_eq in Eg. destruct (Qc_eqb r 0) eqn:Er.
      + apply Qc_eqb_eq in Er. cbn. tauto.
      + apply Qc_eqb_neq in Er. cbn. split; [discriminate | tauto].
    - apply Qc_eqb_neq in Eg. cbn. split; [discriminate | tauto]. }
  assert (Hclip : forall x, clip fzero fone x = NaN <-> is_nan x = true).
  { intros x. destruct (is_nan x) eqn:E.
    - unfold clip. rewrite E. tauto.
    - destruct (clip_unit_Fin x E) as [q [-> _]].
      split; discriminate. }
  assert (Hquo : (0 < g)%Qc -> (Fin r / Fin g)%fl = Fin (r / g)).
  { intros Hg0. unfold fdiv.
    assert (Eg : Qc_eqb g 0 = false).
    { apply Qc_eqb_neq. intros ->. discriminate. }
    now rewrite Eg. }
  split; [now rewrite Hclip |].
  split.
  { intros Hv. apply clip_unit_Fin.
    destruct (is_nan (Fin r / Fin g)%fl) eqn:E; [| reflexivity].
    exfalso. apply Hv. now apply Hclip. }
  split; [| split; [| split]].
  - intros Hg0 Hr0 Hr1.
    destruct (fraction_range r g Hg0 Hr0 Hr1) as [H0 H1].
    rewrite (Hquo Hg0). unfold clip, fzero, fone. cbn [is_nan flt].
    now rewrite (Qc_ltb_ge _ _ H0), (Qc_ltb_ge _ _ H1).
  - intros Hg0 Hr1. rewrite (Hquo Hg0).
    apply clip_unit_above. now apply quotient_sides.
  - intros Hg0 Hr0. rewrite (Hquo Hg0).
    apply clip_unit_below. now apply quotient_sides.
  - intros -> Hr0. unfold fdiv.
    rewrite (proj2 (Qc_eqb_eq 0 0) eq_refl), (proj2 (Qc_eqb_neq r 0) Hr0).
    destruct (Qc_ltb r 0); [right | left]; reflexivity.
Qed.

(** The theorem on the clipping example of the specification, RENEWABLE
    = 120 on GENERATION = 100. *)
Lemma renewable_share_cases_witness :
  exists v,
    nth_error
      (compute_renewable_share
         [ {| timestamp := 0%Z; RENEWABLE := Fin (Q2Qc 120);
              GENERATION := Fin (Q2Qc 100) |} ]) 0
    = Some (0%Z, v)
    /\ (v = NaN <-> Q2Qc 120 = 0%Qc /\ Q2Qc 100 = 0%Qc)
    /\ (v <> NaN -> exists q, v = Fin q /\ (0 <= q)%Qc /\ (q <= 1)%Qc)
    /\ ((0 < Q2Qc 100)%Qc -> (0 <= Q2Qc 120)%Qc ->
        (Q2Qc 120 <= Q2Qc 100)%Qc -> v = Fin (Q2Qc 120 / Q2Qc 100))
    /\ ((0 < Q2Qc 100)%Qc -> (Q2Qc 100 <= Q2Qc 120)%Qc -> v = fone)
    /\ ((0 < Q2Qc 100)%Qc -> (Q2Qc 120 <= 0)%Qc -> v = fzero)
    /\ (Q2Qc 100 = 0%Qc -> Q2Qc 120 <> 0%Qc -> v = fone \/ v = fzero).
Proof.
  exact (renewable_share_cases
           [ {| timestamp := 0%Z; RENEWABLE := Fin (Q2Qc 120);
                GENERATION := Fin (Q2Qc 100) |} ] 0
           {| timestamp := 0%Z; RENEWABLE := Fin (Q2Qc 120);
              GENERATION := Fin (Q2Qc 100) |}
           (Q2Qc 120) (Q2Qc 100) eq_refl eq_refl eq_refl).
Defined.

(* ================================================================= *)
(** ** The day slice *)

Lemma date_of_iff (t date : Z) :
  date_of t = date <-> (24 * date <= t < 24 * date + 24)%Z.
Proof.
  unfold date_of. split; intros H;
    Z.to_euclidean_division_equations; lia.
Qed.

Lemma hours_of_date_In (date t : Z) :
  In t (hours_of_date date) <-> date_of t = date.
Proof.
  rewrite date_of_iff. unfold hours_of_date, range. rewrite map_map, in_map_iff.
  split.
  - intros [h [<- Hh]]. apply in_seq in Hh. lia.
  - intros H. exists (Z.to_nat (t - 24 * date)). split; [lia |].
    apply in_seq. lia.
Qed.

Lemma hours_of_date_length (date : Z) : length (hours_of_date date) = 24%nat.
Proof. reflexivity. Qed.

Lemma hours_of_date_NoDup (date : Z) : NoDup (hours_of_date date).
Proof.
  unfold hours_of_date, range. rewrite map_map.
  apply Finite.Injective_map_NoDup; [| apply seq_NoDup].
  intros x y H. lia.
Qed.

(** Strictly increasing integers within a window as long as the list are
    the integers of the window. *)
Lemma sorted_window (l : list Z) :
  StronglySorted Z.lt l ->
  forall (a : Z) (n : nat),
    (forall x, In x l -> (a <= x < a + Z.of_nat n)%Z) ->
    (length l <= n)%nat
    /\ (length l = n -> l = map (fun h => (a + Z.of_nat h)%Z) (seq 0 n)).
Proof.
  induction 1 as [| x l Hs IH Hx]; intros a n Hin.
  - split; [simpl; lia |]. intros <-. reflexivity.
  - rewrite Forall_forall in Hx.
    assert (Hxa : (a <= x < a + Z.of_nat n)%Z) by (apply Hin; now left).
    destruct (IH (x + 1)%Z (Z.to_nat (a + Z.of_nat n - (x + 1)))) as [L1 _].
    { intros y Hy. specialize (Hx y Hy).
      assert (a <= y < a + Z.of_nat n)%Z by (apply Hin; now right). lia. }
    split; [simpl; lia |].
    intros Hlen. simpl in Hlen.
    assert (x = a) by lia. subst x.
    destruct n as [| n]; [discriminate |].
    destruct (IH (a + 1)%Z n) as [_ L2].
    { intros y Hy. specialize (Hx y Hy).
      assert (a <= y < a + Z.of_nat (S n))%Z by (apply Hin; now right). lia. }
    rewrite L2 by lia. cbn [seq map]. f_equal; [f_equal; lia |].
    rewrite <- seq_shift, map_map. apply map_ext. intros h. lia.
Qed.

Lemma sorted_filter {A} (R : A -> A -> Prop) (p : A -> bool) (l : list A) :
  StronglySorted R l -> StronglySorted R (filter p l).
Proof.
  induction 1 as [| x l Hs IH Hx]; simpl; [constructor |].
  destruct (p x); [| exact IH].
  constructor; [exact IH |].
  rewrite Forall_forall in *. intros y Hy. apply Hx.
  now apply filter_In in Hy.
Qed.

Lemma loc_date_timestamps (df : list mix_row) (date : Z) :
  map timestamp (loc_date df date)
  = filter (fun t => (date_of t =? date)%Z) (map timestamp df).
Proof.
  unfold loc_date. induction df as [| r df IH]; simpl; [reflexivity |].
  destruct (date_of (timestamp r) =? date)%Z; simpl; now rewrite IH.
Qed.

(** On strictly increasing timestamps the rows of a date are at most 24,
    and 24 rows are the 24 hours of the date. *)
Lemma loc_date_window (df : list mix_row) (date : Z) :
  StronglySorted Z.lt (map timestamp df) ->
  (length (loc_date df date) <= 24)%nat
  /\ (length (loc_date df date) = 24%nat ->
      map timestamp (loc_date df date) = hours_of_date date).
Proof.
  intros Hs.
  destruct (sorted_window (map timestamp (loc_date df date))) with
    (a := (24 * date)%Z) (n := 24%nat) as [L1 L2].
  - rewrite loc_date_timestamps. now apply sorted_filter.
  - intros x Hx. rewrite loc_date_timestamps in Hx.
    apply filter_In in Hx. destruct Hx as [_ Hx].
    apply Z.eqb_eq, date_of_iff in Hx. lia.
  - rewrite length_map in L1, L2. split; [exact L1 |].
    intros H. rewrite (L2 H). unfold hours_of_date, range.
    now rewrite map_map.
Qed.

Lemma forallb_false_witness {A} (p : A -> bool) (l : list A) :
  forallb p l = false -> exists x, In x l /\ p x = false.
Proof.
  induction l as [| a l IH]; simpl; [discriminate |].
  destruct (p a) eqn:E; simpl.
  - intros H. destruct (IH H) as [x [Hx Hp]]. exists x. split; [now right | exact Hp].
  - intros _. exists a. split; [now left | exact E].
Qed.

Lemma seq_sorted (s n : nat) :
  StronglySorted Z.lt (map Z.of_nat (seq s n)).
Proof.
  revert s. induction n as [| n IH]; intros s; simpl; constructor.
  - apply IH.
  - apply Forall_forall. intros x Hx. apply in_map_iff in Hx.
    destruct Hx as [k [<- Hk]]. apply in_seq in Hk. lia.
Qed.

Lemma range_sorted (n : nat) : StronglySorted Z.lt (range n).
Proof. apply seq_sorted. Qed.

Lemma sorted_lt_NoDup (l : list Z) : StronglySorted Z.lt l -> NoDup l.
Proof.
  induction 1 as [| x l _ IH Hx]; constructor; [| exact IH].
  rewrite Forall_forall in Hx. intros Hin. specialize (Hx x Hin). lia.
Qed.

Lemma compute_renewable_share_index (df_day : list mix_row) :
  Series_index (compute_renewable_share df_day) = map timestamp df_day.
Proof.
  rewrite compute_renewable_share_rows. unfold Series_index.
  now rewrite map_map.
Qed.

(** X16. A complete day or nothing.  On a frame of strictly increasing hourly
    timestamps, [get_day_slice] returns exactly when the frame carries
    every hour of the date: what it returns are the rows of the 24 hours
    of the date, in order, and when it raises, the count in the message
    is the number of rows on that date, fewer than 24, and some hour of the
    date is missing from the frame. *)
Theorem day_slice_complete (df : list mix_row) (date_str : Z) :
  StronglySorted Z.lt (map timestamp df) ->
  match get_day_slice df date_str with
  | DaySlice day_df =>
      map timestamp day_df = hours_of_date date_str
      /\ forall row, In row day_df
                     <-> In row df /\ date_of (timestamp row) = date_str
  | ExpectedRowsError d got =>
      d = date_str /\ got = length (loc_date df date_str) /\ (got < 24)%nat
      /\ exists t, In t (hours_of_date date_str)
                   /\ ~ In t (map timestamp df)
  end.
Proof.
  intros Hs. destruct (loc_date_window df date_str Hs) as [L1 L2].
  unfold get_day_slice.
  destruct (Nat.eqb_spec (length (loc_date df date_str)) 24) as [E | E];
    cbn [negb].
  - split; [now apply L2 |].
    intros row. unfold loc_date. rewrite filter_In, Z.eqb_eq. tauto.
  - split; [reflexivity |]. split; [reflexivity |]. split; [lia |].
    destruct (forallb (fun t => mem t (map timestamp df))
                (hours_of_date date_str)) eqn:F.
    + exfalso. apply E. apply Nat.le_antisymm; [exact L1 |].
      rewrite <- (length_map timestamp), <- (hours_of_date_length date_str).
      apply NoDup_incl_length; [apply hours_of_date_NoDup |].
      intros t Ht. rewrite loc_date_timestamps. apply filter_In. split.
      * rewrite forallb_forall in F. now apply mem_In, F.
      * now apply Z.eqb_eq, hours_of_date_In.
    + destruct (forallb_false_witness _ _ F) as [t [Ht Hm]].
      exists t. split; [exact Ht |].
      intros Hin. apply mem_In in Hin. congruence.
Qed.

(** The theorem on [sample_mix] for date 0. *)
Lemma day_slice_complete_witness :
  match get_day_slice sample_mix 0 with
  | DaySlice day_df =>
      map timestamp day_df = hours_of_date 0
      /\ forall row, In row day_df
                     <-> In row sample_mix /\ date_of (timestamp row) = 0%Z
  | ExpectedRowsError d got =>
      d = 0%Z /\ got = length (loc_date sample_mix 0) /\ (got < 24)%nat
      /\ exists t, In t (hours_of_date 0)
                   /\ ~ In t (map timestamp sample_mix)
  end.
Proof.
  apply (day_slice_complete sample_mix 0).
  change (StronglySorted Z.lt (range 30)). apply range_sorted.
Defined.

(** X17. From the day slice to the engine, as [main] chains them (lines 227,
    235 and 242-249).  When [get_day_slice] returns the rows of a date
    from a frame of strictly increasing hourly timestamps, the renewable
    shares computed from them are a series on the 24 hours of the date,
    and together with any carbon-intensity series of 24 distinct
    timestamps of that date they are valid inputs of either strategy:
    [run_shift_scenario] returns a result, for every [daily_kwh],
    [flexible_share] and [n_target_hours]. *)
Theorem day_slice_feeds_engine (srt : PandasSort)
    (srt_ok : PandasSortSpec srt) (df : list mix_row) (date_str : Z)
    (day_df : list mix_row) (ci_series : Series)
    (daily_kwh flexible_share : float) (strategy : string) (n : Z) :
  StronglySorted Z.lt (map timestamp df) ->
  get_day_slice df date_str = DaySlice day_df ->
  hourly_series ci_series ->
  (forall t, In t (Series_index ci_series) -> date_of t = date_str) ->
  strategy = "low_intensity"%string \/ strategy = "max_renewable"%string ->
  Series_index (compute_renewable_share day_df) = hours_of_date date_str
  /\ strategy_inputs strategy (Some (compute_renewable_share day_df))
       ci_series
  /\ exists r,
       run_shift_scenario ci_series daily_kwh flexible_share strategy
         (Some (compute_renewable_share day_df)) n = Ok r.
Proof.
  intros Hs Hday Hh Hdate Hstr.
  pose proof (day_slice_complete df date_str Hs) as G.
  rewrite Hday in G. destruct G as [Hts _].
  assert (Hidx : Series_index (compute_renewable_share day_df)
                 = hours_of_date date_str).
  { now rewrite compute_renewable_share_index. }
  assert (Hin : incl (Series_index ci_series)
                  (Series_index (compute_renewable_share day_df))).
  { intros t Ht. rewrite Hidx. apply hours_of_date_In. now apply Hdate. }
  assert (Hsi : strategy_inputs strategy
                  (Some (compute_renewable_share day_df)) ci_series).
  { destruct Hstr as [-> | ->]; [now left |].
    right. split; [reflexivity |].
    exists (compute_renewable_share day_df). split; [reflexivity |].
    split; [| exact Hin]. rewrite Hidx. apply hours_of_date_NoDup. }
  split; [exact Hidx |]. split; [exact Hsi |].
  destruct (run_valid ci_series daily_kwh flexible_share strategy
              (Some (compute_renewable_share day_df)) n Hh Hsi)
    as [r [_ [Hr _]]].
  now exists r.
Qed.

(** The theorem on the slice of [sample_mix] for date 0 and
    [sample_day]. *)
Lemma day_slice_feeds_engine_witness :
  Series_index (compute_renewable_share (loc_date sample_mix 0))
  = hours_of_date 0
  /\ strategy_inputs "max_renewable"
       (Some (compute_renewable_share (loc_date sample_mix 0))) sample_day
  /\ exists r,
       run_shift_scenario (srt := stable_kind) sample_day (of_Z 14)
         (centi 30) "max_renewable"
         (Some (compute_renewable_share (loc_date sample_mix 0))) 4 = Ok r.
Proof.
  apply (day_slice_feeds_engine stable_kind stable_kind_spec sample_mix 0).
  - change (StronglySorted Z.lt (range 30)). apply range_sorted.
  - reflexivity.
  - split; [reflexivity | apply distinct_NoDup; vm_compute; reflexivity].
  - intros t Ht. apply hours_of_date_In. exact Ht.
  - right. reflexivity.
Defined.

(* ================================================================= *)
(** ** Missing carbon intensities *)

Lemma fold_fadd_NaN (l : list float) : fold_left fadd l NaN = NaN.
Proof. induction l as [| x l IH]; simpl; [reflexivity | exact IH]. Qed.

(** [ndarray.sum()] of an array that holds a NaN. *)
Lemma np_sum_NaN (l : list float) : In NaN l -> np_sum l = NaN.
Proof.
  unfold np_sum. generalize fzero as acc.
  induction l as [| x l IH]; intros acc Hin; [contradiction |].
  simpl. destruct Hin as [-> | Hin].
  - replace (acc + NaN)%fl with NaN by (now destruct acc).
    apply fold_fadd_NaN.
  - now apply IH.
Qed.

Lemma mul_arrays_NaN (a c : list float) :
  length a = length c -> In NaN c -> In NaN (mul_arrays a c).
Proof.
  unfold mul_arrays. revert c.
  induction a as [| x a IH]; intros [| y c] Hlen Hin; simpl in *;
    try contradiction; try discriminate.
  destruct Hin as [-> | Hin].
  - left. now destruct x.
  - right. apply IH; [congruence | exact Hin].
Qed.

(** X18. A missing carbon intensity spoils the figures, silently.  On
    valid inputs, when the carbon-intensity series holds a NaN, the run
    raises nothing and returns NaN for the total baseline emissions, the
    total shifted emissions and the relative reduction, whatever
    [daily_kwh], [flexible_share] and [n_target_hours] are. *)
Theorem nan_intensity_propagates (srt : PandasSort)
    (srt_ok : PandasSortSpec srt) (ci_series : Series)
    (daily_kwh flexible_share : float) (strategy : string)
    (renewable_share : option Series) (n : Z) :
  hourly_series ci_series ->
  strategy_inputs strategy renewable_share ci_series ->
  In NaN (Series_values ci_series) ->
  exists r,
    run_shift_scenario ci_series daily_kwh flexible_share strategy
      renewable_share n = Ok r
    /\ total_baseline_emissions r = NaN
    /\ total_shifted_emissions r = NaN
    /\ relative_reduction r = NaN.
Proof.
  intros Hh Hs Hnan.
  destruct (run_valid ci_series daily_kwh flexible_share strategy
              renewable_share n Hh Hs)
    as (r & T & Hr & _ & Hlen & _ & _ & _ & _ & _ & Hb & Hsh & Htb & Hts
        & Hrr).
  exists r. split; [exact Hr |].
  destruct (run_Ok_fields _ _ _ _ _ _ _ Hr) as [_ [_ [_ [Hc _]]]].
  assert (Hin : In NaN (ci r)).
  { rewrite Hc. eapply Permutation_in; [| exact Hnan].
    symmetry. apply Permutation_map, sort_index_perm. }
  assert (Lc : length (ci r) = 24%nat).
  { rewrite Hc. unfold Series_values.
    now rewrite length_map, sort_index_length, (proj1 Hh). }
  assert (Lb : length (baseline_load r) = 24%nat)
    by now rewrite Hb, profile_values_length.
  assert (Ls : length (shifted_load r) = 24%nat).
  { rewrite Hsh, length_map, length_combine. lia. }
  assert (E1 : total_baseline_emissions r = NaN).
  { rewrite Htb. apply np_sum_NaN, mul_arrays_NaN; [congruence | exact Hin]. }
  assert (E2 : total_shifted_emissions r = NaN).
  { rewrite Hts. apply np_sum_NaN, mul_arrays_NaN; [congruence | exact Hin]. }
  split; [exact E1 |]. split; [exact E2 |].
  rewrite Hrr, E1, E2. reflexivity.
Qed.

(** The theorem on [sample_day] with the value of hour 5 missing. *)
Lemma nan_intensity_propagates_witness :
  exists r,
    run_shift_scenario (srt := stable_kind)
      (map (fun row => if (fst row =? 5)%Z then (fst row, NaN) else row)
         sample_day)
      (of_Z 14) (centi 30) "low_intensity" None 4 = Ok r
    /\ total_baseline_emissions r = NaN
    /\ total_shifted_emissions r = NaN
    /\ relative_reduction r = NaN.
Proof.
  apply (nan_intensity_propagates stable_kind stable_kind_spec).
  - split; [reflexivity | apply distinct_NoDup; vm_compute; reflexivity].
  - left. reflexivity.
  - vm_compute. tauto.
Defined.

(* ================================================================= *)
(** ** The relative reduction in closed form *)

Lemma dot_scale (k : Qc) (l cq : list Qc) :
  sumQ (map (fun p => fst p * snd p)%Qc
          (combine (map (fun w => w * k)%Qc l) cq))
  = (k * sumQ (map (fun p => fst p * snd p)%Qc (combine l cq)))%Qc.
Proof.
  revert cq. induction l as [| w l IH]; intros [| c cq]; simpl;
    try ring.
  rewrite IH. ring.
Qed.

Lemma within_Fin (lo hi : Qc) (x : float) :
  within lo hi x = true -> exists q, x = Fin q /\ (lo <= q)%Qc /\ (q <= hi)%Qc.
Proof.
  unfold within. intros H. apply andb_true_iff in H. destruct H as [H1 H2].
  destruct x as [q | [] |]; try discriminate.
  exists q. split; [reflexivity |]. split; now apply Qc_leb_le.
Qed.

Lemma values_within_finite (lo hi : Qc) (l : list float) :
  values_within lo hi l -> all_finite l.
Proof.
  intros H. eapply Forall_impl; [| exact H]. intros x Hx.
  destruct (within_Fin _ _ _ Hx) as [q [-> _]]. reflexivity.
Qed.

Lemma values_within_positive (lo hi : Qc) (l : list float) :
  (0 < lo)%Qc -> values_within lo hi l ->
  Forall (fun x => flt fzero x = true) l.
Proof.
  intros Hlo H. eapply Forall_impl; [| exact H]. intros x Hx.
  destruct (within_Fin _ _ _ Hx) as [q [-> [Hq _]]].
  apply Qc_ltb_lt. eapply Qclt_le_trans; eassumption.
Qed.

(** A day of positive intensities has a positive weighted total. *)
Lemma weighted_total_pos (cq : list Qc) (l : list float) :
  length cq = 24%nat ->
  Permutation (map Fin cq) l ->
  Forall (fun x => flt fzero x = true) l ->
  (0 < sumQ (map (fun p => fst p * snd p) (combine RAW_Q cq)))%Qc.
Proof.
  intros Hl Hp Hpos. rewrite <- Hp in Hpos. rewrite Forall_map in Hpos.
  assert (Hc : Forall (fun c => 0 < c)%Qc cq).
  { eapply Forall_impl; [| exact Hpos]. intros q Hq. now apply Qc_ltb_lt. }
  apply dot_pos.
  - now rewrite Hl.
  - exact RAW_Q_pos.
  - eapply Forall_impl; [| exact Hc]. intros q. apply Qclt_le_weak.
  - destruct cq as [| c cq]; [discriminate |].
    inversion Hc; subst. now left.
Qed.

(** X19. The relative reduction in closed form.  On valid inputs with carbon
    intensities between 1 and 10000, [daily_kwh] and [flexible_share] = f
    within the ranges of the sliders of the application, and an [n] that
    selects at least one hour, the run returns the relative reduction
    f times the reduction factor of the target hours: 1 less the
    quotient of the mean intensity of the target hours by the weighted
    mean of the day.  The figure does not depend on the size of the
    household and is proportional to the share of its load that can
    move.  The equation is that of exact arithmetic: within these ranges
    no operation of the run overflows or underflows, and the program
    returns the closed form up to rounding error. *)
Theorem reduction_closed_form (srt : PandasSort)
    (srt_ok : PandasSortSpec srt) (ci_series : Series) (d f : Qc)
    (strategy : string) (renewable_share : option Series) (n : Z) :
  hourly_series ci_series ->
  strategy_inputs strategy renewable_share ci_series ->
  values_within 1 (Q2Qc 10000) (Series_values ci_series) ->
  slider_ranges d f ->
  effective_target_count n <> 0%Z ->
  exists r T,
    run_shift_scenario ci_series (Fin d) (Fin f) strategy renewable_share n
    = Ok r
    /\ target_hours_of ci_series strategy renewable_share n = Ok T
    /\ relative_reduction r
       = Fin (f * reduction_factor (day_order ci_series) T).
Proof.
  intros Hh Hs Hval [[Hd5 _] _] Hn.
  assert (Hfin := values_within_finite _ _ _ Hval).
  assert (Hpos := values_within_positive 1 _ _ eq_refl Hval).
  destruct (run_finite ci_series d f strategy renewable_share n Hh Hs Hfin Hn)
    as (r & T & cq & Hr & Ht & HT & Hin & Hne & HTl & Hlen & Hnd & Lcq & Hsi
        & Hc & Hb & Hsh & Htb & Hts & Hrr).
  exists r, T. split; [exact Hr |]. split; [exact Ht |].
  assert (Lidx : length (index r) = length cq) by congruence.
  assert (Hday : day_order ci_series = combine (index r) (map Fin cq)).
  { now rewrite <- (sort_index_day_order _ (proj2 Hh)). }
  set (K := Q2Qc (inject_Z (Z.of_nat (length T)))).
  set (C := sumQ (map snd (filter (fun row => mem (fst row) T)
                             (combine (index r) cq)))).
  set (e1 := sumQ (map (fun p => (fst p * snd p)%Qc) (combine RAW_Q cq))).
  assert (HK : K <> 0%Qc).
  { apply Qc_of_nat_neq0. destruct T; [congruence | discriminate]. }
  assert (He : (0 < e1)%Qc).
  { apply (weighted_total_pos cq (Series_values ci_series) Lcq);
      [| exact Hpos].
    now apply (day_order_values ci_series (index r)). }
  assert (E1 : total_baseline_emissions r = Fin (d / sumQ RAW_Q * e1)).
  { rewrite Htb, Hb, Hc, mul_arrays_Fin, np_sum_Fin, dot_scale.
    reflexivity. }
  assert (E2 : total_shifted_emissions r
               = Fin (d / sumQ RAW_Q * e1 * (1 - f) + d * f / K * C)%Qc).
  { rewrite Hts, Hsh, Hc, mul_arrays_Fin, np_sum_Fin.
    rewrite shifted_dot;
      [| now rewrite length_map, Hlen | congruence].
    rewrite dot_scale. reflexivity. }
  rewrite Hrr, E1, E2.
  unfold reduction_factor.
  rewrite Hday, mean_at_Fin, (weighted_mean_Fin _ _ Lidx).
  fold K. fold C. fold e1.
  assert (Hd : d <> 0%Qc).
  { intros ->. revert Hd5. vm_compute. intros H. now apply H. }
  assert (He0 : e1 <> 0%Qc) by (intros E; rewrite E in He; discriminate).
  pose proof RAW_Q_sum_neq0 as HS.
  assert (HE0 : (d / sumQ RAW_Q * e1)%Qc <> 0%Qc).
  { set (S := sumQ RAW_Q) in *. clearbody S e1. intros H0.
    assert (E : (d / S * e1 * (S / (d * e1)) = 1)%Qc)
      by (field; repeat split; assumption).
    rewrite H0 in E. revert E. unfold Qcdiv.
    replace (0 * (S * / (d * e1)))%Qc with 0%Qc by ring. discriminate. }
  unfold fsub, fopp, fadd, fdiv.
  rewrite (proj2 (Qc_eqb_neq _ 0) HE0). f_equal.
  set (S := sumQ RAW_Q) in *. clearbody S e1 C K.
  field. repeat split; assumption.
Qed.

(** The theorem on [sample_day] with four target hours, 14 kWh a day and
    a flexible share of 0.3. *)
Lemma reduction_closed_form_witness :
  exists r T,
    run_shift_scenario (srt := stable_kind) sample_day (Fin (Q2Qc 14))
      (Fin (Q2Qc (3 # 10))) "low_intensity" None 4 = Ok r
    /\ target_hours_of (srt := stable_kind) sample_day "low_intensity" None 4
       = Ok T
    /\ relative_reduction r
       = Fin (Q2Qc (3 # 10) * reduction_factor (day_order sample_day) T).
Proof.
  apply (reduction_closed_form stable_kind stable_kind_spec).
  - split; [reflexivity | apply distinct_NoDup; vm_compute; reflexivity].
  - left. reflexivity.
  - repeat constructor.
  - repeat split; vm_compute; discriminate.
  - vm_compute. discriminate.
Defined.

(* ================================================================= *)
(** ** More or fewer target hours *)

Lemma weighted_indicator_sum {A} (P P' : A -> bool) (c : A -> Qc)
    (x y : Qc) (l : list A) :
  sumQ (map (fun a =>
               (((if P' a then x else 0) - (if P a then y else 0))
                * c a)%Qc) l)
  = (x * sumQ (map c (filter P' l)) - y * sumQ (map c (filter P l)))%Qc
  /\ sumQ (map (fun a =>
                  ((if P' a then x else 0) - (if P a then y else 0))%Qc) l)
     = (x * Q2Qc (inject_Z (Z.of_nat (length (filter P' l))))
        - y * Q2Qc (inject_Z (Z.of_nat (length (filter P l)))))%Qc.
Proof.
  induction l as [| a l [IH1 IH2]].
  - simpl. change (Q2Qc (inject_Z 0)) with 0%Qc. split; ring.
  - cbn [map filter sumQ fold_right].
    fold (sumQ (map (fun a => (((if P' a then x else 0)
                                - (if P a then y else 0)) * c a)%Qc) l)).
    fold (sumQ (map (fun a => ((if P' a then x else 0)
                               - (if P a then y else 0))%Qc) l)).
    rewrite IH1, IH2.
    destruct (P' a), (P a); cbn [map length sumQ fold_right];
      rewrite ?Qc_of_nat_S; unfold sumQ; split; ring.
Qed.

Lemma filter_fst_length {B} (rows : list (label * B)) (T : list label) :
  length (filter (fun row => mem (fst row) T) rows)
  = length (filter (fun t => mem t T) (map fst rows)).
Proof.
  induction rows as [| row rows IH]; simpl; [reflexivity |].
  destruct (mem (fst row) T); simpl; now rewrite IH.
Qed.

(** A mean over more hours against a mean over fewer, in rationals. *)
Lemma mean_step (a kn km sn sm : Qc) :
  (0 <= a)%Qc -> (0 < kn)%Qc -> (0 < km)%Qc ->
  (km * sn <= kn * sm)%Qc ->
  (a / kn * sn <= a / km * sm)%Qc.
Proof.
  intros Ha Hn Hm H.
  assert (En : (kn * / kn = 1)%Qc).
  { apply Qcmult_inv_r. intros E. rewrite E in Hn. discriminate. }
  assert (Em : (km * / km = 1)%Qc).
  { apply Qcmult_inv_r. intros E. rewrite E in Hm. discriminate. }
  unfold Qcdiv. set (i := (/ kn)%Qc) in *. set (j := (/ km)%Qc) in *.
  clearbody i j.
  apply (f_equal this) in En, Em.
  assert (En' : (this (kn * i) == 1)%Q) by (rewrite En; reflexivity).
  assert (Em' : (this (km * j) == 1)%Q) by (rewrite Em; reflexivity).
  clear En Em. rewrite this_mult in En', Em'.
  to_Q.
  set (qa := this a) in *. set (qn := this kn) in *. set (qm := this km) in *.
  set (qi := this i) in *. set (qj := this j) in *.
  set (x := this sn) in *. set (y := this sm) in *.
  clearbody qa qn qm qi qj x y.
  assert (Hi : (0 < qi)%Q) by nra.
  assert (Hj : (0 < qj)%Q) by nra.
  assert (Hij : (0 < qi * qj)%Q) by nra.
  assert (H1 : (qi * qj * (qm * x) <= qi * qj * (qn * y))%Q) by nra.
  assert (H2 : (qi * x <= qj * y)%Q).
  { assert (A1 : (qi * qj * (qm * x) == (qm * qj) * (qi * x))%Q) by ring.
    assert (A2 : (qi * qj * (qn * y) == (qn * qi) * (qj * y))%Q) by ring.
    rewrite A1, A2, En', Em' in H1. lra. }
  nra.
Qed.

(** X20. More target hours dilute the selection.  On a valid day with finite
    carbon intensities, under "low_intensity": for 1 <= n <= m <= 24 the
    target hours for [n] are among the target hours for [m], and their
    mean carbon intensity does not exceed the mean over the target hours
    for [m]: asking for fewer hours never gives the flexible load a
    dirtier mean hour.  The means are figures of the inputs, taken as the
    rationals they are; the two selections are the program's. *)
Theorem fewer_hours_cleaner_mean (srt : PandasSort)
    (srt_ok : PandasSortSpec srt) (ci_series : Series)
    (renewable_share : option Series) (n m : Z) :
  hourly_series ci_series ->
  all_finite (Series_values ci_series) ->
  (1 <= n <= m)%Z -> (m <= 24)%Z ->
  exists T T',
    target_hours_of ci_series "low_intensity" renewable_share n = Ok T
    /\ target_hours_of ci_series "low_intensity" renewable_share m = Ok T'
    /\ incl T T'
    /\ (mean_at (day_order ci_series) T
        <= mean_at (day_order ci_series) T')%Qc.
Proof.
  intros Hh Hfin Hnm Hm.
  assert (Hs : strategy_inputs "low_intensity" renewable_share ci_series)
    by now left.
  destruct (run_ranked ci_series fzero fzero "low_intensity" renewable_share
              Hh Hs) as (ranked & Hl & _ & _ & Hall).
  destruct (Hall n) as [Htn _]. destruct (Hall m) as [Htm _]. clear Hall.
  destruct (day_view ci_series Hh Hfin)
    as (idx & cq & Hday & Hsi & Hidx0 & Lidx & Lcq & Hnd).
  set (Tn := slice_to ranked n) in *. set (Tm := slice_to ranked m) in *.
  exists Tn, Tm. split; [exact Htn |]. split; [exact Htm |].
  assert (Hsub : incl Tn Tm).
  { unfold Tn, Tm, slice_to.
    destruct (Z.leb_spec 0 n); [| lia]. destruct (Z.leb_spec 0 m); [| lia].
    intros x Hx.
    replace (Z.to_nat n) with (Nat.min (Z.to_nat n) (Z.to_nat m)) in Hx
      by lia.
    rewrite <- firstn_firstn in Hx. now apply firstn_In in Hx. }
  split; [exact Hsub |].
  assert (Li : length idx = length cq) by congruence.
  assert (Hki : Series_index (combine idx (map Fin cq)) = idx).
  { unfold Series_index. apply map_fst_combine. now rewrite length_map. }
  destruct (selection_ranked ci_series "low_intensity" renewable_share n
              Hh Hs ltac:(lia))
    as (asc & key & T & Hkey & Ht & Hsel & Hidx & Hlow).
  assert (T = Tn) by congruence. subst T.
  assert (asc = true).
  { unfold sort_key in Hkey. cbn [String.eqb Ascii.eqb Bool.eqb] in Hkey.
    congruence. }
  subst asc. rewrite (Hlow eq_refl), Hsi in Hsel.
  destruct (selects_wf true _ _ Tn Hsel) as [HTn [Hinn Hln]].
  { now rewrite Hki. }
  rewrite Hki in Hinn.
  destruct (selection_ranked ci_series "low_intensity" renewable_share m
              Hh Hs ltac:(lia))
    as (asc' & key' & T' & Hkey' & Ht' & Hsel' & Hidx' & Hlow').
  assert (T' = Tm) by congruence. subst T'.
  assert (asc' = true) by congruence. subst asc'.
  rewrite (Hlow' eq_refl), Hsi in Hsel'.
  destruct (selects_wf true _ _ Tm Hsel') as [HTm [Hinm Hlm]].
  { now rewrite Hki. }
  rewrite Hki in Hinm. clear Hsel' Hkey' Ht' Hidx' Hlow'.
  destruct (selects_threshold true _ _ Tn Hsel) as [[tm vm] [Hm0 Hth]].
  { now rewrite Hki. }
  { lia. }
  assert (Hvm : exists th, vm = Fin th).
  { apply in_combine_r, in_map_iff in Hm0. destruct Hm0 as [th [<- _]].
    eauto. }
  destruct Hvm as [th ->].
  rewrite Hday, !mean_at_Fin.
  set (Kn := Q2Qc (inject_Z (Z.of_nat (length Tn)))) in *.
  set (Km := Q2Qc (inject_Z (Z.of_nat (length Tm)))) in *.
  assert (HKn : (0 < Kn)%Qc) by (apply Qc_of_nat_pos; lia).
  assert (HKm : (0 < Km)%Qc) by (apply Qc_of_nat_pos; lia).
  assert (HKnm : (Kn <= Km)%Qc) by (apply Qc_of_Z_le; lia).
  set (Sn := sumQ (map snd (filter (fun row => mem (fst row) Tn)
                              (combine idx cq)))) in *.
  set (Sm := sumQ (map snd (filter (fun row => mem (fst row) Tm)
                              (combine idx cq)))) in *.
  destruct (weighted_indicator_sum
              (fun row : label * Qc => mem (fst row) Tn)
              (fun row : label * Qc => mem (fst row) Tm)
              snd Kn Km (combine idx cq)) as [W1 W2].
  fold Sn in W1. fold Sm in W1.
  rewrite !filter_fst_length, (map_fst_combine _ _ Li) in W2.
  rewrite (filter_mem_length _ _ Hnd HTn Hinn) in W2.
  rewrite (filter_mem_length _ _ Hnd HTm Hinm) in W2.
  fold Kn in W2. fold Km in W2.
  pose proof (threshold_sum (fun row : label * Qc => mem (fst row) Tn)
                (fun row =>
                   ((if mem (fst row) Tm then Kn else 0)
                    - (if mem (fst row) Tn then Km else 0))%Qc)
                snd th (combine idx cq)) as G.
  cbv beta in G. rewrite W1, W2 in G.
  assert (G' : (th * (Kn * Km - Km * Kn) <= Kn * Sm - Km * Sn)%Qc).
  { apply G. intros [t c] Hrow. cbn [fst snd].
    assert (Hrow' : In (t, Fin c) (combine idx (map Fin cq))).
    { rewrite combine_map_Fin.
      exact (in_map (fun row => (fst row, Fin (snd row))) _ _ Hrow). }
    specialize (Hth (t, Fin c) Hrow'). cbn [fst] in Hth.
    destruct (mem t Tn) eqn:Etn.
    - assert (Etm : mem t Tm = true).
      { apply mem_In, Hsub, mem_In, Etn. }
      rewrite Etm. split.
      + unfold row_by_value in Hth. cbn [snd] in Hth.
        exact (value_order_Fin true _ _ Hth).
      + clear - HKnm. to_Q. lra.
    - split.
      + unfold row_by_value in Hth. cbn [snd] in Hth.
        exact (value_order_Fin true _ _ Hth).
      + destruct (mem t Tm).
        * clear - HKn. to_Q. lra.
        * clear. to_Q. lra. }
  clear G.
  assert (Hmean : (Km * Sn <= Kn * Sm)%Qc).
  { clearbody Kn Km Sn Sm. clear - G'. to_Q. nra. }
  pose proof (mean_step 1 Kn Km Sn Sm ltac:(vm_compute; discriminate)
                HKn HKm Hmean) as Hstep.
  replace (Sn / Kn)%Qc with (1 / Kn * Sn)%Qc by (unfold Qcdiv; ring).
  replace (Sm / Km)%Qc with (1 / Km * Sm)%Qc by (unfold Qcdiv; ring).
  exact Hstep.
Qed.

(** The theorem on [sample_day], two target hours against six. *)
Lemma fewer_hours_cleaner_mean_witness :
  exists T T',
    target_hours_of (srt := stable_kind) sample_day "low_intensity" None 2
    = Ok T
    /\ target_hours_of (srt := stable_kind) sample_day "low_intensity" None 6
       = Ok T'
    /\ incl T T'
    /\ (mean_at (day_order sample_day) T
        <= mean_at (day_order sample_day) T')%Qc.
Proof.
  apply (fewer_hours_cleaner_mean stable_kind stable_kind_spec).
  - split; [reflexivity | apply distinct_NoDup; vm_compute; reflexivity].
  - repeat constructor.
  - lia.
  - lia.
Defined.
